(** * audioKut: the playback clock of [AudioPlayer.tsx] and the waveform
    view of [Waveform.tsx], embedded as Rocq functions.

    Conventions of the embedding.
    - A JavaScript [number] that carries a time, a pixel coordinate or a
      sample is an exact rational ([Q]); binary64 rounding is not modelled
      there, so the literal [0.01] is [1#100].  Results that the code
      computes by arithmetic are compared with [==] ([Qeq]).
    - Text of any length can be typed into the "go to" box, and what
      [parseInt] and [parseFloat] make of it can be [Infinity], from which
      the arithmetic of [parseTimeInput] can make [NaN].  So the numbers
      read from text, and the arithmetic of [parseTimeInput] on them, are
      binary64 values: [JS.double] rounds a rational to the nearest one, ties
      to even, and overflows to [Infinity].  The sign of zero is not
      modelled.
    - React state and refs of a component are the fields of one record; an
      event handler is a function from that record to the next one.  A
      handler reads React state as the render that created it saw it, i.e.
      as it is on entry.
    - [audioContextRef.current.currentTime], the hardware clock, is the
      argument [now] of every handler that reads it.
    - Callbacks received as props ([onTimeUpdate], [onAddCutPoint],
      [onRemoveCutPoint]) are recorded as the calls made to them. *)

From Stdlib Require Import String Ascii.
From Stdlib Require Import QArith Qminmax Qround Qabs ZArith Lia Bool List.
From Stdlib Require Import Sorting.Permutation Sorting.Sorted.
Import ListNotations.

Local Open Scope Q_scope.

(** ** JavaScript primitives the two components call *)
Module JS.

(** [a < b] on numbers. *)
Definition Qltb (a b : Q) : bool := negb (Qle_bool b a).

(** A [number] where the code can meet a value that is not finite: the
    results of [parseFloat] and [parseInt]. *)
Inductive number : Type :=
| NaN : number
| Fin : Q -> number
| Infinity : bool -> number.      (* [true] is the negative one *)

Definition isNaN (v : number) : bool :=
  match v with NaN => true | _ => false end.

(** [a + b] and [a * b] with the result of finite operands exact. *)
Definition add (a b : number) : number :=
  match a, b with
  | NaN, _ | _, NaN => NaN
  | Fin x, Fin y => Fin (x + y)
  | Infinity n, Fin _ | Fin _, Infinity n => Infinity n
  | Infinity n, Infinity m => if Bool.eqb n m then Infinity n else NaN
  end.

Definition mul (a b : number) : number :=
  match a, b with
  | NaN, _ | _, NaN => NaN
  | Fin x, Fin y => Fin (x * y)
  | Infinity n, Fin x | Fin x, Infinity n =>
      if Qeq_bool x 0 then NaN else Infinity (xorb n (Qltb x 0))
  | Infinity n, Infinity m => Infinity (xorb n m)
  end.

(** *** binary64 *)

(** [floor(log2 a)] of a positive rational: the numerator lies in
    [2^ln, 2^(ln+1)) and the denominator in [2^ld, 2^(ld+1)), so the
    quotient has exponent [ln - ld] or one less. *)
Definition binade (a : Q) : Z :=
  let e := (Z.log2 (Qnum a) - Z.log2 (Zpos (Qden a)))%Z in
  if Qle_bool (Qpower 2 e) a then e else (e - 1)%Z.

(** The integer nearest to [m], the even one of two that are as near. *)
Definition roundHalfEven (m : Q) : Z :=
  let fl := Qfloor m in
  match Qcompare (m - inject_Z fl) (1#2) with
  | Lt => fl
  | Gt => (fl + 1)%Z
  | Eq => if Z.even fl then fl else (fl + 1)%Z
  end.

(** The binary64 value nearest to a positive rational: 53 significant bits,
    the exponent not below -1022 (below it the values are 2^-1074 apart);
    [None] when the rounded value is 2^1024, beyond the finite ones. *)
Definition roundPositive (a : Q) : option Q :=
  let k := (Z.max (binade a) (-1022) - 52)%Z in
  let x := Qred (inject_Z (roundHalfEven (a / Qpower 2 k)) * Qpower 2 k) in
  if Qle_bool (Qpower 2 1024) x then None else Some x.

(** The Number value of a real: round to nearest, ties to even, [Infinity]
    on overflow.  The result is a fraction in lowest terms.  For a literal
    of more than 20 significant digits the standard lets an engine round
    from the first 20; here, as in the engines, the exact value is
    rounded. *)
Definition double (q : Q) : number :=
  match Qcompare q 0 with
  | Eq => Fin 0
  | Gt =>
      match roundPositive (Qred q) with
      | Some x => Fin x
      | None => Infinity false
      end
  | Lt =>
      match roundPositive (Qred (- q)) with
      | Some x => Fin (- x)
      | None => Infinity true
      end
  end.

Definition round (v : number) : number :=
  match v with Fin x => double x | _ => v end.

(** [a + b] and [a * b] on binary64 values: the exact result, rounded. *)
Definition plus (a b : number) : number := round (add a b).
Definition times (a b : number) : number := round (mul a b).

(** [Math.max(0, v)]. *)
Definition max0 (v : number) : number :=
  match v with
  | NaN => NaN
  | Fin x => Fin (Qmax 0 x)
  | Infinity false => Infinity false
  | Infinity true => Fin 0
  end.

(** A number that is neither [NaN] nor below zero. *)
Definition nonNegative (v : number) : Prop :=
  match v with
  | NaN => False
  | Fin x => 0 <= x
  | Infinity negative => negative = false
  end.

(** [Math.min(a, b)]. *)
Definition minimum (a b : number) : number :=
  match a, b with
  | NaN, _ => NaN
  | _, NaN => NaN
  | Fin x, Fin y => Fin (Qmin x y)
  | Infinity true, _ => Infinity true
  | _, Infinity true => Infinity true
  | Infinity false, v => v
  | v, Infinity false => v
  end.

(** [a >= b]. *)
Definition geq (a b : number) : bool :=
  match a, b with
  | NaN, _ => false
  | _, NaN => false
  | Fin x, Fin y => Qle_bool y x
  | Infinity false, _ => true
  | _, Infinity true => true
  | _, _ => false
  end.

(** Strings are sequences of code units below 256.  White space and line
    terminators in that range: TAB, LF, VT, FF, CR, SP, NBSP. *)
Definition isWhiteSpace (c : ascii) : bool :=
  let n := nat_of_ascii c in
  ((9 <=? n) && (n <=? 13) || (n =? 32) || (n =? 160))%nat.

Definition isDigit (c : ascii) : bool :=
  let n := nat_of_ascii c in ((48 <=? n) && (n <=? 57))%nat.

Fixpoint trimStart (s : string) : string :=
  match s with
  | String c rest => if isWhiteSpace c then trimStart rest else s
  | EmptyString => EmptyString
  end.

Fixpoint trimEnd (s : string) : string :=
  match s with
  | EmptyString => EmptyString
  | String c rest =>
      match trimEnd rest with
      | EmptyString => if isWhiteSpace c then EmptyString else String c EmptyString
      | rest' => String c rest'
      end
  end.

Definition trim (s : string) : string := trimEnd (trimStart s).

(** [s.split(sep)] for a separator of one character: never empty. *)
Fixpoint split (sep : ascii) (s : string) : list string :=
  match s with
  | EmptyString => [EmptyString]
  | String c rest =>
      if Ascii.eqb c sep then EmptyString :: split sep rest
      else
        match split sep rest with
        | p :: ps => String c p :: ps
        | [] => [String c EmptyString]
        end
  end.

(** [s.replace(a, b)] with a string pattern of one character: the first
    occurrence only. *)
Fixpoint replace (a b : ascii) (s : string) : string :=
  match s with
  | EmptyString => EmptyString
  | String c rest =>
      if Ascii.eqb c a then String b rest else String c (replace a b rest)
  end.

(** The longest prefix of decimal digits, and what follows it. *)
Fixpoint spanDigits (s : string) : string * string :=
  match s with
  | String c rest =>
      if isDigit c then
        let (ds, r) := spanDigits rest in (String c ds, r)
      else (EmptyString, s)
  | EmptyString => (EmptyString, EmptyString)
  end.

Fixpoint digitsValue (acc : Z) (ds : string) : Z :=
  match ds with
  | EmptyString => acc
  | String c rest =>
      digitsValue (10 * acc + Z.of_nat (nat_of_ascii c - 48)) rest
  end.

(** An optional sign: [true] for a minus. *)
Definition sign (s : string) : bool * string :=
  match s with
  | String "-"%char rest => (true, rest)
  | String "+"%char rest => (false, rest)
  | _ => (false, s)
  end.

Definition signed (neg : bool) (z : Z) : Z := if neg then (- z)%Z else z.

Definition isEmpty (s : string) : bool :=
  match s with EmptyString => true | _ => false end.

(** [parseInt(s, 10)]: leading white space, a sign, then the longest run of
    digits; [NaN] when there is no digit, else the Number value of the
    integer the digits denote. *)
Definition parseInt (s : string) : number :=
  let (neg, r) := sign (trimStart s) in
  let (ds, _) := spanDigits r in
  if isEmpty ds then NaN
  else double (inject_Z (signed neg (digitsValue 0 ds))).

(** The exponent part [e[+-]digits] of a decimal literal, 0 when absent or
    incomplete. *)
Definition exponent (s : string) : Z :=
  match s with
  | String c rest =>
      if Ascii.eqb c "e" || Ascii.eqb c "E" then
        let (neg, r) := sign rest in
        let (ds, _) := spanDigits r in
        if isEmpty ds then 0%Z else signed neg (digitsValue 0 ds)
      else 0%Z
  | EmptyString => 0%Z
  end.

(** [parseFloat(s)]: leading white space, then the longest prefix that is a
    decimal literal ([Infinity], [12], [12.], [12.5], [.5], each with an
    optional sign and exponent); [NaN] when there is none, else the Number
    value of the decimal the literal denotes. *)
Definition parseFloat (s : string) : number :=
  let (neg, r) := sign (trimStart s) in
  if String.prefix "Infinity" r then Infinity neg
  else
    let (ip, r1) := spanDigits r in
    let (fp, r2) :=
      match r1 with
      | String "."%char r' => spanDigits r'
      | _ => (EmptyString, r1)
      end in
    if isEmpty ip && isEmpty fp then NaN
    else
      let mantissa :=
        inject_Z (digitsValue 0 (ip ++ fp))
        / inject_Z (10 ^ Z.of_nat (String.length fp)) in
      let v := mantissa * Qpower 10 (exponent r2) in
      double (if neg then - v else v).

End JS.

(** ** The playback clock controller: [AudioPlayer.tsx] *)
Module AudioPlayer.

(** An [AudioBufferSourceNode] of the audio graph, as the component uses it:
    [start(0, offset)] at creation, a playback rate, and [stop()]. *)
Record Node : Type := mkNode {
  nodeOffset : Q;
  nodeRate : Q;
  nodeStartedAt : Q;
  nodeStopped : bool
}.

Record Player : Type := mkPlayer {
  (* useState *)
  isPlaying : bool;
  currentTime : Q;
  playbackRate : Q;                (* also [playbackRateRef.current], which
                                      every render sets to it *)
  timeInput : string;
  (* useRef *)
  audioContextRef : bool;          (* [true] once the AudioContext exists *)
  sourceRef : option nat;          (* index of the node in [nodes] *)
  startTimeRef : Q;
  pauseTimeRef : Q;
  animFrameRef : option nat;       (* last requestAnimationFrame handle *)
  isPlayingRef : bool;
  intentionalStopRef : bool;
  (* the environment the component acts on *)
  nodes : list Node;               (* source nodes created so far *)
  rafQueue : list nat;             (* animation frames currently requested *)
  rafNext : nat;                   (* next handle the browser hands out *)
  timeUpdates : list Q             (* calls of [onTimeUpdate], newest first *)
}.

Definition set_isPlaying (b : bool) (s : Player) : Player :=
  mkPlayer b (currentTime s) (playbackRate s) (timeInput s) (audioContextRef s)
    (sourceRef s) (startTimeRef s) (pauseTimeRef s) (animFrameRef s)
    (isPlayingRef s) (intentionalStopRef s) (nodes s) (rafQueue s) (rafNext s)
    (timeUpdates s).

Definition set_currentTime (t : Q) (s : Player) : Player :=
  mkPlayer (isPlaying s) t (playbackRate s) (timeInput s) (audioContextRef s)
    (sourceRef s) (startTimeRef s) (pauseTimeRef s) (animFrameRef s)
    (isPlayingRef s) (intentionalStopRef s) (nodes s) (rafQueue s) (rafNext s)
    (timeUpdates s).

Definition set_timeInput (v : string) (s : Player) : Player :=
  mkPlayer (isPlaying s) (currentTime s) (playbackRate s) v (audioContextRef s)
    (sourceRef s) (startTimeRef s) (pauseTimeRef s) (animFrameRef s)
    (isPlayingRef s) (intentionalStopRef s) (nodes s) (rafQueue s) (rafNext s)
    (timeUpdates s).

Definition set_audioContextRef (b : bool) (s : Player) : Player :=
  mkPlayer (isPlaying s) (currentTime s) (playbackRate s) (timeInput s) b
    (sourceRef s) (startTimeRef s) (pauseTimeRef s) (animFrameRef s)
    (isPlayingRef s) (intentionalStopRef s) (nodes s) (rafQueue s) (rafNext s)
    (timeUpdates s).

Definition set_sourceRef (r : option nat) (s : Player) : Player :=
  mkPlayer (isPlaying s) (currentTime s) (playbackRate s) (timeInput s)
    (audioContextRef s) r (startTimeRef s) (pauseTimeRef s) (animFrameRef s)
    (isPlayingRef s) (intentionalStopRef s) (nodes s) (rafQueue s) (rafNext s)
    (timeUpdates s).

Definition set_startTimeRef (t : Q) (s : Player) : Player :=
  mkPlayer (isPlaying s) (currentTime s) (playbackRate s) (timeInput s)
    (audioContextRef s) (sourceRef s) t (pauseTimeRef s) (animFrameRef s)
    (isPlayingRef s) (intentionalStopRef s) (nodes s) (rafQueue s) (rafNext s)
    (timeUpdates s).

Definition set_pauseTimeRef (t : Q) (s : Player) : Player :=
  mkPlayer (isPlaying s) (currentTime s) (playbackRate s) (timeInput s)
    (audioContextRef s) (sourceRef s) (startTimeRef s) t (animFrameRef s)
    (isPlayingRef s) (intentionalStopRef s) (nodes s) (rafQueue s) (rafNext s)
    (timeUpdates s).

Definition set_isPlayingRef (b : bool) (s : Player) : Player :=
  mkPlayer (isPlaying s) (currentTime s) (playbackRate s) (timeInput s)
    (audioContextRef s) (sourceRef s) (startTimeRef s) (pauseTimeRef s)
    (animFrameRef s) b (intentionalStopRef s) (nodes s) (rafQueue s) (rafNext s)
    (timeUpdates s).

Definition set_intentionalStopRef (b : bool) (s : Player) : Player :=
  mkPlayer (isPlaying s) (currentTime s) (playbackRate s) (timeInput s)
    (audioContextRef s) (sourceRef s) (startTimeRef s) (pauseTimeRef s)
    (animFrameRef s) (isPlayingRef s) b (nodes s) (rafQueue s) (rafNext s)
    (timeUpdates s).

Definition set_nodes (ns : list Node) (s : Player) : Player :=
  mkPlayer (isPlaying s) (currentTime s) (playbackRate s) (timeInput s)
    (audioContextRef s) (sourceRef s) (startTimeRef s) (pauseTimeRef s)
    (animFrameRef s) (isPlayingRef s) (intentionalStopRef s) ns (rafQueue s)
    (rafNext s) (timeUpdates s).

(** [onTimeUpdate(t)]: the call is appended to the record of calls. *)
Definition onTimeUpdate (t : Q) (s : Player) : Player :=
  mkPlayer (isPlaying s) (currentTime s) (playbackRate s) (timeInput s)
    (audioContextRef s) (sourceRef s) (startTimeRef s) (pauseTimeRef s)
    (animFrameRef s) (isPlayingRef s) (intentionalStopRef s) (nodes s)
    (rafQueue s) (rafNext s) (t :: timeUpdates s).

(** [animFrameRef.current = requestAnimationFrame(updateTime)]. *)
Definition requestAnimationFrame (s : Player) : Player :=
  mkPlayer (isPlaying s) (currentTime s) (playbackRate s) (timeInput s)
    (audioContextRef s) (sourceRef s) (startTimeRef s) (pauseTimeRef s)
    (Some (rafNext s)) (isPlayingRef s) (intentionalStopRef s) (nodes s)
    (rafNext s :: rafQueue s) (S (rafNext s)) (timeUpdates s).

(** [if (animFrameRef.current) cancelAnimationFrame(animFrameRef.current)];
    handles start at 1, so a handle is truthy. *)
Definition cancelAnimationFrame (s : Player) : Player :=
  mkPlayer (isPlaying s) (currentTime s) (playbackRate s) (timeInput s)
    (audioContextRef s) (sourceRef s) (startTimeRef s) (pauseTimeRef s)
    (animFrameRef s) (isPlayingRef s) (intentionalStopRef s) (nodes s)
    match animFrameRef s with
    | Some h => filter (fun h' => negb (Nat.eqb h' h)) (rafQueue s)
    | None => rafQueue s
    end
    (rafNext s) (timeUpdates s).

(** [try { node.stop() } catch {}]: the node is marked stopped; stopping a
    node twice, or one that is not there, changes nothing. *)
Fixpoint stopNode (i : nat) (ns : list Node) : list Node :=
  match ns, i with
  | [], _ => []
  | n :: rest, O =>
      mkNode (nodeOffset n) (nodeRate n) (nodeStartedAt n) true :: rest
  | n :: rest, S j => n :: stopNode j rest
  end.

(** Has the node the ref points to been told to stop? *)
Definition sourceStopped (s : Player) : option bool :=
  match sourceRef s with
  | None => None
  | Some i => option_map nodeStopped (nth_error (nodes s) i)
  end.

Definition initial : Player :=
  mkPlayer false 0 1 EmptyString false None 0 0 None false false [] [] 1%nat [].

(** [parseTimeInput]: the text of the "go to" box as seconds, or [None] for
    [null]. *)
Definition parseTimeInput (input : string) : option JS.number :=
  let s := JS.trim input in
  if JS.isEmpty s then None
  else
    match JS.split ":" s with
    | [p0] =>
        let sec := JS.parseFloat (JS.replace "," "." p0) in
        if JS.isNaN sec then None else Some (JS.max0 sec)
    | [p0; p1] =>
        let mins := JS.parseInt p0 in
        let secs := JS.parseFloat (JS.replace "," "." p1) in
        if JS.isNaN mins || JS.isNaN secs then None
        else Some (JS.max0 (JS.plus (JS.times mins (JS.Fin 60)) secs))
    | [p0; p1; p2] =>
        let hrs := JS.parseInt p0 in
        let mins := JS.parseInt p1 in
        let secs := JS.parseFloat (JS.replace "," "." p2) in
        if JS.isNaN hrs || JS.isNaN mins || JS.isNaN secs then None
        else
          Some (JS.max0 (JS.plus (JS.plus (JS.times hrs (JS.Fin 3600))
                                          (JS.times mins (JS.Fin 60))) secs))
    | _ => None
    end.

Section Component.

(** The prop [audioBuffer], reduced to what the component reads of it: its
    duration.  [None] is an absent buffer. *)
Variable audioBuffer : option Q.

(** [const duration = audioBuffer?.duration || 0]. *)
Definition duration : Q :=
  match audioBuffer with
  | Some d => if Qeq_bool d 0 then 0 else d
  | None => 0
  end.

Definition updateTime (now : Q) (s : Player) : Player :=
  if negb (audioContextRef s) || negb (isPlayingRef s) then s
  else
    let elapsed := (now - startTimeRef s) * playbackRate s in
    let newTime := Qmin (pauseTimeRef s + elapsed) duration in
    let s := set_currentTime newTime s in
    let s := onTimeUpdate newTime s in
    if Qle_bool (duration - (1#100)) newTime then
      let s := set_isPlaying false s in
      let s := set_isPlayingRef false s in
      let s := set_pauseTimeRef 0 s in
      set_currentTime 0 s
    else requestAnimationFrame s.

(** The browser runs a requested frame: the handle leaves the queue and
    [updateTime] is called. *)
Definition runFrame (h : nat) (now : Q) (s : Player) : Player :=
  if existsb (Nat.eqb h) (rafQueue s) then
    updateTime now
      (mkPlayer (isPlaying s) (currentTime s) (playbackRate s) (timeInput s)
         (audioContextRef s) (sourceRef s) (startTimeRef s) (pauseTimeRef s)
         (animFrameRef s) (isPlayingRef s) (intentionalStopRef s) (nodes s)
         (filter (fun h' => negb (Nat.eqb h' h)) (rafQueue s)) (rafNext s)
         (timeUpdates s))
  else s.

(** [source.onended], the same closure for every node created by [play]. *)
Definition onended (s : Player) : Player :=
  if intentionalStopRef s then set_intentionalStopRef false s
  else
    let s := set_pauseTimeRef 0 s in
    let s := set_currentTime 0 s in
    let s := set_isPlaying false s in
    set_isPlayingRef false s.

Definition play (now : Q) (s : Player) : Player :=
  match audioBuffer with
  | None => s
  | Some _ =>
    let s := if audioContextRef s then s else set_audioContextRef true s in
    let s :=
      match sourceRef s with
      | Some i =>
          let s := set_intentionalStopRef true s in
          set_nodes (stopNode i (nodes s)) s
      | None => s
      end in
    let source := mkNode (pauseTimeRef s) (playbackRate s) now false in
    let idx := List.length (nodes s) in
    let s := set_nodes (nodes s ++ [source]) s in
    let s := set_startTimeRef now s in
    let s := set_sourceRef (Some idx) s in
    let s := set_isPlayingRef true s in
    let s := set_isPlaying true s in
    requestAnimationFrame s
  end.

Definition pause (now : Q) (s : Player) : Player :=
  match sourceRef s with
  | None => s
  | Some i =>
    if negb (audioContextRef s) then s
    else
      let s :=
        set_pauseTimeRef
          (pauseTimeRef s + (now - startTimeRef s) * playbackRate s) s in
      let position := Qmin (pauseTimeRef s) duration in
      let s := set_pauseTimeRef position s in
      let s := set_currentTime position s in
      let s := onTimeUpdate position s in
      let s := set_intentionalStopRef true s in
      let s := set_nodes (stopNode i (nodes s)) s in
      let s := set_isPlayingRef false s in
      let s := set_isPlaying false s in
      cancelAnimationFrame s
  end.

(** [togglePlayPause], [skip] and [seekTo] test the React state [isPlaying]
    of the render they belong to: its value on entry. *)
Definition togglePlayPause (now : Q) (s : Player) : Player :=
  if isPlaying s then pause now s else play now s.

Definition skip (seconds : Q) (now : Q) (s : Player) : Player :=
  let playing := isPlaying s in
  let newTime := Qmax 0 (Qmin duration (pauseTimeRef s + seconds)) in
  let s := set_pauseTimeRef newTime s in
  let s := set_currentTime newTime s in
  let s := onTimeUpdate newTime s in
  if playing then play now (pause now s) else s.

Definition seekTo (newTime : Q) (now : Q) (s : Player) : Player :=
  let playing := isPlaying s in
  let t := Qmax 0 (Qmin duration newTime) in
  let s := set_pauseTimeRef t s in
  let s := set_currentTime t s in
  let s := onTimeUpdate t s in
  let s := set_timeInput EmptyString s in
  if playing then play now (pause now s) else s.

End Component.

(** Names for two expressions of the code that the statements below use. *)

(** The position [updateTime] computes at clock reading [now]:
    [Math.min(pauseTimeRef.current + elapsed, duration)]. *)
Definition tickTime (audioBuffer : option Q) (now : Q) (s : Player) : Q :=
  Qmin (pauseTimeRef s + (now - startTimeRef s) * playbackRate s)
       (duration audioBuffer).

(** The clamp of [seekTo] and [skip]:
    [Math.max(0, Math.min(duration, t))]. *)
Definition clamp (audioBuffer : option Q) (t : Q) : Q :=
  Qmax 0 (Qmin (duration audioBuffer) t).

(** [updateTime] called at each of the clock readings [times] in turn: the
    frames of a stretch of playback. *)
Definition ticks (audioBuffer : option Q) (times : list Q) (s : Player)
  : Player :=
  fold_left (fun s now => updateTime audioBuffer now s) times s.

(** The controller is idle: nothing plays and the position is back at 0. *)
Definition idle (s : Player) : Prop :=
  isPlaying s = false /\ isPlayingRef s = false /\
  pauseTimeRef s = 0 /\ currentTime s = 0.

End AudioPlayer.

(** ** The waveform view and its cut points: [Waveform.tsx] *)
Module Waveform.

Definition MIN_ZOOM : Q := 1.
Definition MAX_ZOOM : Q := 8.
Definition WAVEFORM_HEIGHT : Q := 128.

(** [CutPoint] of [utils/audioProcessor], as this component reads it. *)
Record CutPoint : Type := mkCutPoint {
  id : string;
  time : Q
}.

(** The [AudioBuffer] prop: its duration and [getChannelData(0)]. *)
Record AudioBuffer : Type := mkAudioBuffer {
  bufferDuration : Q;
  channelData : list Q
}.

(** What [containerRef.current] gives when it is mounted. *)
Record Container : Type := mkContainer {
  rectLeft : Q;        (* getBoundingClientRect().left *)
  scrollLeft : Q;
  clientWidth : Q
}.

(** A call of one of the callbacks received as props. *)
Inductive Call : Type :=
| onAddCutPoint : Q -> Call
| onRemoveCutPoint : string -> Call.

(** What [draw] puts on the canvas path. *)
Inductive PathCmd : Type :=
| fillRect : Q -> Q -> Q -> Q -> PathCmd
| beginPath : PathCmd
| moveTo : Q -> Q -> PathCmd
| lineTo : Q -> Q -> PathCmd
| stroke : PathCmd.

(** [Array.prototype.sort((a, b) => a.time - b.time)]: the sort is stable,
    which fixes its result; here by insertion from the right. *)
Fixpoint insertByTime (p : CutPoint) (l : list CutPoint) : list CutPoint :=
  match l with
  | [] => [p]
  | q :: rest =>
      if Qle_bool (time p) (time q) then p :: q :: rest
      else q :: insertByTime p rest
  end.

Fixpoint sortByTime (l : list CutPoint) : list CutPoint :=
  match l with
  | [] => []
  | p :: rest => insertByTime p (sortByTime rest)
  end.

(** The inner loop of [draw], [for (let j = 0; j < step; j++)], with
    [idx = i * step + j] and [n] iterations left. *)
Fixpoint scanColumn (data : list Q) (idx n : nat) (min max : Q) : Q * Q :=
  match n with
  | O => (min, max)
  | S n' =>
      match nth_error data idx with
      | None => (min, max)                       (* idx >= data.length: break *)
      | Some datum =>
          let min := if JS.Qltb datum min then datum else min in
          let max := if JS.Qltb max datum then datum else max in
          scanColumn data (S idx) n' min max
      end
  end.

Section Component.

Variable audioBuffer : option AudioBuffer.
Variable currentTime : Q.
(* useState *)
Variable zoomLevel : Q.
Variable containerWidth : Q.
(* containerRef.current *)
Variable container : option Container.

(** [Math.max(1, Math.floor(containerWidth * zoomLevel))]. *)
Definition canvasWidth : Z := Z.max 1 (Qfloor (containerWidth * zoomLevel)).

(** [audioBuffer?.duration ?? 0]. *)
Definition duration : Q :=
  match audioBuffer with
  | Some b => bufferDuration b
  | None => 0
  end.

(** [Math.ceil(data.length / width)]. *)
Definition stepOf (data : list Q) (width : Z) : Z :=
  Qceiling (inject_Z (Z.of_nat (List.length data)) / inject_Z width).

(** The [min] and [max] that the loop body of [draw] has for column [i]. *)
Definition columnMinMax (data : list Q) (step : nat) (i : nat) : Q * Q :=
  scanColumn data (i * step) step 1 (-(1)).

(** The body of [for (let i = 0; i < width; i++)] for one [i]. *)
Definition drawColumn (data : list Q) (step : nat) (amp : Q) (i : nat)
  : list PathCmd :=
  let (min, max) := columnMinMax data step i in
  let x := inject_Z (Z.of_nat i) in
  let y1 := (1 + min) * amp in
  let y2 := (1 + max) * amp in
  [if Nat.eqb i 0 then moveTo x y1 else lineTo x y1; lineTo x y2].

(** [draw], up to the stroke of the waveform; [None] when it returns before
    drawing.  The canvas and its 2d context are taken to exist. *)
Definition draw : option (list PathCmd) :=
  match audioBuffer with
  | None => None
  | Some b =>
      if Qle_bool containerWidth 0 then None
      else
        let width := canvasWidth in
        let height := WAVEFORM_HEIGHT in
        let data := channelData b in
        let step := stepOf data width in
        let amp := height / 2 in
        Some (fillRect 0 0 (inject_Z width) height
              :: beginPath
              :: flat_map (drawColumn data (Z.to_nat step) amp)
                   (seq 0 (Z.to_nat width))
              ++ [stroke])
  end.

Definition getCanvasX (clientX : Q) : Q :=
  match container with
  | None => 0
  | Some c => clientX - rectLeft c + scrollLeft c
  end.

Definition clientXToTime (clientX : Q) : Q :=
  if Qle_bool duration 0 then 0
  else
    let x := getCanvasX clientX in
    let t := (x / inject_Z canvasWidth) * duration in
    Qmax 0 (Qmin duration t).

Definition timeToX (time : Q) : Q :=
  if JS.Qltb 0 duration then (time / duration) * inject_Z canvasWidth else 0.

(** The predicate given to [cutPoints.find] by the click and the hover
    handlers. *)
Definition nearClick (clickX : Q) (point : CutPoint) : bool :=
  let pointX := timeToX (time point) in
  JS.Qltb (Qabs (pointX - clickX)) 10.

(** [handleCanvasClick]: the callback it calls, if any, on the array
    [cutPoints] as it stands when the click arrives. *)
Definition handleCanvasClick (cutPoints : list CutPoint) (clientX : Q)
  : option Call :=
  match audioBuffer with
  | None => None
  | Some _ =>
      let time := clientXToTime clientX in
      let clickX := getCanvasX clientX in
      match find (nearClick clickX) cutPoints with
      | Some clickedPoint => Some (onRemoveCutPoint (id clickedPoint))
      | None => Some (onAddCutPoint time)
      end
  end.

(** [handleMouseMove]: the new value of [hoveredPoint]. *)
Definition handleMouseMove (cutPoints : list CutPoint) (clientX : Q)
  : option (option string) :=
  match container, audioBuffer with
  | Some _, Some _ =>
      let clickX := getCanvasX clientX in
      Some (option_map id (find (nearClick clickX) cutPoints))
  | _, _ => None
  end.

End Component.

(** The list of cut points in the returned JSX:
    [cutPoints.length > 0 && ( ... cutPoints.sort(...).map(...) ... )].
    [sort] works in place on the array received as a prop, so rendering
    returns both the array as it is afterwards and the rows shown, each with
    its number [index + 1]. *)
Definition renderCutPoints (cutPoints : list CutPoint)
  : list CutPoint * list (nat * CutPoint) :=
  match cutPoints with
  | [] => (cutPoints, [])
  | _ :: _ =>
      let sorted := sortByTime cutPoints in
      (sorted, combine (seq 1 (List.length sorted)) sorted)
  end.

(** The array the handlers of a render close over. *)
Definition arrayAfterRender (cutPoints : list CutPoint) : list CutPoint :=
  fst (renderCutPoints cutPoints).

(** The rows in the order shown. *)
Definition presented (cutPoints : list CutPoint) : list CutPoint :=
  map snd (snd (renderCutPoints cutPoints)).

(** Names used by the statements below. *)

(** Ascending by time. *)
Definition byTime (a b : CutPoint) : Prop := time a <= time b.

(** The samples that column [i] scans:
    indices [i * step] up to [min((i + 1) * step, data.length)]. *)
Definition columnSamples (data : list Q) (step i : nat) : list Q :=
  firstn step (skipn (i * step) data).

(** The two tests of the inner loop, folded over a list of samples. *)
Definition foldMinMax (samples : list Q) (min max : Q) : Q * Q :=
  fold_left
    (fun acc datum =>
       (if JS.Qltb datum (fst acc) then datum else fst acc,
        if JS.Qltb (snd acc) datum then datum else snd acc))
    samples (min, max).

End Waveform.

(** ** The speed button of [AudioPlayer.tsx] *)
Module PlayerEvents.
Import AudioPlayer.

Definition set_playbackRate (r : Q) (s : Player) : Player :=
  mkPlayer (isPlaying s) (currentTime s) r (timeInput s) (audioContextRef s)
    (sourceRef s) (startTimeRef s) (pauseTimeRef s) (animFrameRef s)
    (isPlayingRef s) (intentionalStopRef s) (nodes s) (rafQueue s) (rafNext s)
    (timeUpdates s).

Section Component.

Variable audioBuffer : option Q.

(** The click handler of the speed button:
    [setPlaybackRate(r => r === 1 ? 2 : 1); if (isPlaying) { pause();
    setTimeout(() => play(), 0) }].  [pause] runs before the render that
    brings the new rate into [playbackRateRef], so with the old rate; the
    boolean tells whether the timeout was set. *)
Definition handleRateClick (now : Q) (s : Player) : Player * bool :=
  let playing := isPlaying s in
  let rate := if Qeq_bool (playbackRate s) 1 then 2 else 1 in
  let s := if playing then pause audioBuffer now s else s in
  (set_playbackRate rate s, playing).

End Component.

End PlayerEvents.

(** ** [AudioPlayer.tsx] as a machine that reacts to events

    [handleTimeInputSubmit] hands to [seekTo] whatever [parseTimeInput]
    returned, and that can be [NaN]; [NaN] then sits in [pauseTimeRef] and
    in the state [currentTime], is published, and makes [source.start]
    throw.  So here the stored, the displayed and the published positions
    are JavaScript numbers, and every handler is translated again with the
    arithmetic of numbers ([JS.add], [JS.minimum], [JS.max0], [JS.geq]); the
    clock readings and the rate stay rationals. *)
Module Machine.
Import AudioPlayer.

Record State : Type := mkState {
  (* useState *)
  isPlaying : bool;
  currentTime : JS.number;
  playbackRate : Q;                (* also [playbackRateRef.current] *)
  timeInput : string;
  (* useRef *)
  audioContextRef : bool;          (* [true] once the AudioContext exists *)
  sourceRef : option nat;          (* index of the node in [nodes] *)
  startTimeRef : Q;
  pauseTimeRef : JS.number;
  animFrameRef : option nat;       (* last requestAnimationFrame handle *)
  isPlayingRef : bool;
  intentionalStopRef : bool;
  (* the environment the component acts on *)
  nodes : list Node;               (* source nodes started so far *)
  rafQueue : list nat;             (* animation frames currently requested *)
  rafNext : nat;                   (* next handle the browser hands out *)
  timeUpdates : list JS.number     (* calls of [onTimeUpdate], newest first *)
}.

Definition set_isPlaying (b : bool) (s : State) : State :=
  mkState b (currentTime s) (playbackRate s) (timeInput s) (audioContextRef s)
    (sourceRef s) (startTimeRef s) (pauseTimeRef s) (animFrameRef s)
    (isPlayingRef s) (intentionalStopRef s) (nodes s) (rafQueue s) (rafNext s)
    (timeUpdates s).

Definition set_currentTime (t : JS.number) (s : State) : State :=
  mkState (isPlaying s) t (playbackRate s) (timeInput s) (audioContextRef s)
    (sourceRef s) (startTimeRef s) (pauseTimeRef s) (animFrameRef s)
    (isPlayingRef s) (intentionalStopRef s) (nodes s) (rafQueue s) (rafNext s)
    (timeUpdates s).

Definition set_playbackRate (r : Q) (s : State) : State :=
  mkState (isPlaying s) (currentTime s) r (timeInput s) (audioContextRef s)
    (sourceRef s) (startTimeRef s) (pauseTimeRef s) (animFrameRef s)
    (isPlayingRef s) (intentionalStopRef s) (nodes s) (rafQueue s) (rafNext s)
    (timeUpdates s).

Definition set_timeInput (v : string) (s : State) : State :=
  mkState (isPlaying s) (currentTime s) (playbackRate s) v (audioContextRef s)
    (sourceRef s) (startTimeRef s) (pauseTimeRef s) (animFrameRef s)
    (isPlayingRef s) (intentionalStopRef s) (nodes s) (rafQueue s) (rafNext s)
    (timeUpdates s).

Definition set_audioContextRef (b : bool) (s : State) : State :=
  mkState (isPlaying s) (currentTime s) (playbackRate s) (timeInput s) b
    (sourceRef s) (startTimeRef s) (pauseTimeRef s) (animFrameRef s)
    (isPlayingRef s) (intentionalStopRef s) (nodes s) (rafQueue s) (rafNext s)
    (timeUpdates s).

Definition set_sourceRef (r : option nat) (s : State) : State :=
  mkState (isPlaying s) (currentTime s) (playbackRate s) (timeInput s)
    (audioContextRef s) r (startTimeRef s) (pauseTimeRef s) (animFrameRef s)
    (isPlayingRef s) (intentionalStopRef s) (nodes s) (rafQueue s) (rafNext s)
    (timeUpdates s).

Definition set_startTimeRef (t : Q) (s : State) : State :=
  mkState (isPlaying s) (currentTime s) (playbackRate s) (timeInput s)
    (audioContextRef s) (sourceRef s) t (pauseTimeRef s) (animFrameRef s)
    (isPlayingRef s) (intentionalStopRef s) (nodes s) (rafQueue s) (rafNext s)
    (timeUpdates s).

Definition set_pauseTimeRef (t : JS.number) (s : State) : State :=
  mkState (isPlaying s) (currentTime s) (playbackRate s) (timeInput s)
    (audioContextRef s) (sourceRef s) (startTimeRef s) t (animFrameRef s)
    (isPlayingRef s) (intentionalStopRef s) (nodes s) (rafQueue s) (rafNext s)
    (timeUpdates s).

Definition set_isPlayingRef (b : bool) (s : State) : State :=
  mkState (isPlaying s) (currentTime s) (playbackRate s) (timeInput s)
    (audioContextRef s) (sourceRef s) (startTimeRef s) (pauseTimeRef s)
    (animFrameRef s) b (intentionalStopRef s) (nodes s) (rafQueue s) (rafNext s)
    (timeUpdates s).

Definition set_intentionalStopRef (b : bool) (s : State) : State :=
  mkState (isPlaying s) (currentTime s) (playbackRate s) (timeInput s)
    (audioContextRef s) (sourceRef s) (startTimeRef s) (pauseTimeRef s)
    (animFrameRef s) (isPlayingRef s) b (nodes s) (rafQueue s) (rafNext s)
    (timeUpdates s).

Definition set_nodes (ns : list Node) (s : State) : State :=
  mkState (isPlaying s) (currentTime s) (playbackRate s) (timeInput s)
    (audioContextRef s) (sourceRef s) (startTimeRef s) (pauseTimeRef s)
    (animFrameRef s) (isPlayingRef s) (intentionalStopRef s) ns (rafQueue s)
    (rafNext s) (timeUpdates s).

(** [onTimeUpdate(t)]: the call is appended to the record of calls. *)
Definition onTimeUpdate (t : JS.number) (s : State) : State :=
  mkState (isPlaying s) (currentTime s) (playbackRate s) (timeInput s)
    (audioContextRef s) (sourceRef s) (startTimeRef s) (pauseTimeRef s)
    (animFrameRef s) (isPlayingRef s) (intentionalStopRef s) (nodes s)
    (rafQueue s) (rafNext s) (t :: timeUpdates s).

(** [animFrameRef.current = requestAnimationFrame(updateTime)]. *)
Definition requestAnimationFrame (s : State) : State :=
  mkState (isPlaying s) (currentTime s) (playbackRate s) (timeInput s)
    (audioContextRef s) (sourceRef s) (startTimeRef s) (pauseTimeRef s)
    (Some (rafNext s)) (isPlayingRef s) (intentionalStopRef s) (nodes s)
    (rafNext s :: rafQueue s) (S (rafNext s)) (timeUpdates s).

(** [if (animFrameRef.current) cancelAnimationFrame(animFrameRef.current)];
    handles start at 1, so a handle is truthy. *)
Definition cancelAnimationFrame (s : State) : State :=
  mkState (isPlaying s) (currentTime s) (playbackRate s) (timeInput s)
    (audioContextRef s) (sourceRef s) (startTimeRef s) (pauseTimeRef s)
    (animFrameRef s) (isPlayingRef s) (intentionalStopRef s) (nodes s)
    match animFrameRef s with
    | Some h => filter (fun h' => negb (Nat.eqb h' h)) (rafQueue s)
    | None => rafQueue s
    end
    (rafNext s) (timeUpdates s).

(** Has the node the ref points to been told to stop? *)
Definition sourceStopped (s : State) : option bool :=
  match sourceRef s with
  | None => None
  | Some i => option_map nodeStopped (nth_error (nodes s) i)
  end.

Definition initial : State :=
  mkState false (JS.Fin 0) 1 EmptyString false None 0 (JS.Fin 0) None false
    false [] [] 1%nat [].

(** [source.start(0, offset)] takes a finite offset that is not negative:
    it throws a TypeError for [NaN] and the infinities and a RangeError for
    a negative offset.  [None] is the throw. *)
Definition startOffset (offset : JS.number) : option Q :=
  match offset with
  | JS.Fin q => if JS.Qltb q 0 then None else Some q
  | _ => None
  end.

(** Something the browser or the user does to the mounted component.  The
    events that read the hardware clock carry its reading. *)
Inductive Event : Type :=
| ClickPlayPause (now : Q)          (* the round button *)
| ClickSkip (seconds now : Q)       (* [skip(-5)] and [skip(5)] *)
| SliderChange (t now : Q)          (* [handleSeek], the slider at [t] *)
| TypeTimeInput (text : string)     (* [setTimeInput(e.target.value)] *)
| SubmitTimeInput (now : Q)         (* [handleTimeInputSubmit] *)
| ClickRate (now : Q)               (* the speed button *)
| TimerPlay (now : Q)               (* the timeout set by the speed button *)
| AnimationFrame (h : nat) (now : Q)
| NodeEnded.                        (* [source.onended] *)

Definition clockOf (e : Event) : option Q :=
  match e with
  | ClickPlayPause now | ClickSkip _ now | SliderChange _ now
  | SubmitTimeInput now | ClickRate now | TimerPlay now
  | AnimationFrame _ now => Some now
  | TypeTimeInput _ | NodeEnded => None
  end.

(** The clock readings of a sequence of events never go back, starting
    from [c]. *)
Fixpoint clockOrdered (c : Q) (events : list Event) : Prop :=
  match events with
  | [] => True
  | e :: rest =>
      match clockOf e with
      | Some now => c <= now /\ clockOrdered now rest
      | None => clockOrdered c rest
      end
  end.

(** No text typed into the "go to" box is one that [parseTimeInput] turns
    into [NaN]. *)
Definition tame (events : list Event) : Prop :=
  Forall (fun e =>
            match e with
            | TypeTimeInput text => parseTimeInput text <> Some JS.NaN
            | _ => True
            end) events.

Section Component.

Variable audioBuffer : option Q.

(** [const duration = audioBuffer?.duration || 0], as in [AudioPlayer]. *)
Definition duration : Q := AudioPlayer.duration audioBuffer.

Definition updateTime (now : Q) (s : State) : State :=
  if negb (audioContextRef s) || negb (isPlayingRef s) then s
  else
    let elapsed := (now - startTimeRef s) * playbackRate s in
    let newTime :=
      JS.minimum (JS.add (pauseTimeRef s) (JS.Fin elapsed)) (JS.Fin duration) in
    let s := set_currentTime newTime s in
    let s := onTimeUpdate newTime s in
    if JS.geq newTime (JS.Fin (duration - (1#100))) then
      let s := set_isPlaying false s in
      let s := set_isPlayingRef false s in
      let s := set_pauseTimeRef (JS.Fin 0) s in
      set_currentTime (JS.Fin 0) s
    else requestAnimationFrame s.

(** The browser runs a requested frame: the handle leaves the queue and
    [updateTime] is called. *)
Definition runFrame (h : nat) (now : Q) (s : State) : State :=
  if existsb (Nat.eqb h) (rafQueue s) then
    updateTime now
      (mkState (isPlaying s) (currentTime s) (playbackRate s) (timeInput s)
         (audioContextRef s) (sourceRef s) (startTimeRef s) (pauseTimeRef s)
         (animFrameRef s) (isPlayingRef s) (intentionalStopRef s) (nodes s)
         (filter (fun h' => negb (Nat.eqb h' h)) (rafQueue s)) (rafNext s)
         (timeUpdates s))
  else s.

(** [source.onended], the same closure for every node created by [play]. *)
Definition onended (s : State) : State :=
  if intentionalStopRef s then set_intentionalStopRef false s
  else
    let s := set_pauseTimeRef (JS.Fin 0) s in
    let s := set_currentTime (JS.Fin 0) s in
    let s := set_isPlaying false s in
    set_isPlayingRef false s.

(** [play].  When [source.start] throws, the statements after it do not
    run: the context and the stop of the previous node stay, the node that
    was created is never started and is dropped. *)
Definition play (now : Q) (s : State) : State :=
  match audioBuffer with
  | None => s
  | Some _ =>
    let s := if audioContextRef s then s else set_audioContextRef true s in
    let s :=
      match sourceRef s with
      | Some i =>
          let s := set_intentionalStopRef true s in
          set_nodes (stopNode i (nodes s)) s
      | None => s
      end in
    match startOffset (pauseTimeRef s) with
    | None => s
    | Some offset =>
      let source := mkNode offset (playbackRate s) now false in
      let idx := List.length (nodes s) in
      let s := set_nodes (nodes s ++ [source]) s in
      let s := set_startTimeRef now s in
      let s := set_sourceRef (Some idx) s in
      let s := set_isPlayingRef true s in
      let s := set_isPlaying true s in
      requestAnimationFrame s
    end
  end.

Definition pause (now : Q) (s : State) : State :=
  match sourceRef s with
  | None => s
  | Some i =>
    if negb (audioContextRef s) then s
    else
      let s :=
        set_pauseTimeRef
          (JS.add (pauseTimeRef s)
                  (JS.Fin ((now - startTimeRef s) * playbackRate s))) s in
      let position := JS.minimum (pauseTimeRef s) (JS.Fin duration) in
      let s := set_pauseTimeRef position s in
      let s := set_currentTime position s in
      let s := onTimeUpdate position s in
      let s := set_intentionalStopRef true s in
      let s := set_nodes (stopNode i (nodes s)) s in
      let s := set_isPlayingRef false s in
      let s := set_isPlaying false s in
      cancelAnimationFrame s
  end.

(** [togglePlayPause], [skip] and [seekTo] test the React state [isPlaying]
    of the render they belong to: its value on entry. *)
Definition togglePlayPause (now : Q) (s : State) : State :=
  if isPlaying s then pause now s else play now s.

Definition skip (seconds : Q) (now : Q) (s : State) : State :=
  let playing := isPlaying s in
  let newTime :=
    JS.max0 (JS.minimum (JS.Fin duration)
                        (JS.add (pauseTimeRef s) (JS.Fin seconds))) in
  let s := set_pauseTimeRef newTime s in
  let s := set_currentTime newTime s in
  let s := onTimeUpdate newTime s in
  if playing then play now (pause now s) else s.

Definition seekTo (newTime : JS.number) (now : Q) (s : State) : State :=
  let playing := isPlaying s in
  let t := JS.max0 (JS.minimum (JS.Fin duration) newTime) in
  let s := set_pauseTimeRef t s in
  let s := set_currentTime t s in
  let s := onTimeUpdate t s in
  let s := set_timeInput EmptyString s in
  if playing then play now (pause now s) else s.

(** [handleTimeInputSubmit]: [seekTo] is called with every result of
    [parseTimeInput] other than [null]. *)
Definition handleTimeInputSubmit (now : Q) (s : State) : State :=
  match parseTimeInput (timeInput s) with
  | None => s
  | Some parsed => seekTo parsed now s
  end.

(** The click handler of the speed button, as in [PlayerEvents]. *)
Definition handleRateClick (now : Q) (s : State) : State * bool :=
  let playing := isPlaying s in
  let rate := if Qeq_bool (playbackRate s) 1 then 2 else 1 in
  let s := if playing then pause now s else s in
  (set_playbackRate rate s, playing).

(** The cleanup returned by the mount effect: stop the node, cancel the
    frame.  It does not set [intentionalStopRef]. *)
Definition unmount (s : State) : State :=
  let s :=
    match sourceRef s with
    | Some i => set_nodes (stopNode i (nodes s)) s
    | None => s
    end in
  cancelAnimationFrame s.

(** [handleSeek] is [seekTo(parseFloat(e.target.value))]; the value of a
    range input is the decimal of a number, here [t]. *)
Definition handle (e : Event) (s : State) : State :=
  match e with
  | ClickPlayPause now => togglePlayPause now s
  | ClickSkip seconds now => skip seconds now s
  | SliderChange t now => seekTo (JS.Fin t) now s
  | TypeTimeInput text => set_timeInput text s
  | SubmitTimeInput now => handleTimeInputSubmit now s
  | ClickRate now => fst (handleRateClick now s)
  | TimerPlay now => play now s
  | AnimationFrame h now => runFrame h now s
  | NodeEnded => onended s
  end.

(** The state after a sequence of events, in any order. *)
Definition run (events : list Event) (s : State) : State :=
  fold_left (fun s e => handle e s) events s.

(** A position is [NaN] or lies in [0, duration]. *)
Definition within (v : JS.number) : Prop :=
  match v with
  | JS.NaN => True
  | JS.Fin t => 0 <= t <= duration
  | JS.Infinity _ => False
  end.

(** A position is a number in [0, duration]. *)
Definition inside (v : JS.number) : Prop :=
  exists t, v = JS.Fin t /\ 0 <= t <= duration.

(** Stored and displayed position, and every position published so far,
    are [NaN] or lie in [0, duration]. *)
Definition inRange (s : State) : Prop :=
  within (pauseTimeRef s) /\ within (currentTime s) /\
  Forall within (timeUpdates s).

(** [inRange] at clock reading [now]: moreover the reference timestamp is
    not in the future and the rate is not negative. *)
Definition inRangeAt (now : Q) (s : State) : Prop :=
  inRange s /\ startTimeRef s <= now /\ 0 <= playbackRate s.

End Component.

(** No position is [NaN], and the text in the "go to" box is not one that
    would bring [NaN]. *)
Definition clean (s : State) : Prop :=
  pauseTimeRef s <> JS.NaN /\ currentTime s <> JS.NaN /\
  Forall (fun v => v <> JS.NaN) (timeUpdates s) /\
  parseTimeInput (timeInput s) <> Some JS.NaN.

(** Nothing has ever been started, and every position is 0 or [NaN]. *)
Definition inert (s : State) : Prop :=
  let zero v := v = JS.Fin 0 \/ v = JS.NaN in
  nodes s = [] /\ sourceRef s = None /\ audioContextRef s = false /\
  isPlaying s = false /\ isPlayingRef s = false /\ rafQueue s = [] /\
  zero (pauseTimeRef s) /\ zero (currentTime s) /\
  Forall zero (timeUpdates s).

(** State and ref agree on the phase; playing needs a context and a node;
    a node exists only with a context; and a node that has not been told to
    stop is the one [sourceRef] points to. *)
Definition wellFormed (s : State) : Prop :=
  isPlayingRef s = isPlaying s /\
  (isPlaying s = true -> sourceRef s <> None) /\
  (sourceRef s <> None -> audioContextRef s = true) /\
  (forall j n, nth_error (nodes s) j = Some n -> nodeStopped n = false ->
     sourceRef s = Some j).


End Machine.

(** ** The rest of [Waveform.tsx]: zoom, overlay of [draw], scrolling, and
    the edit box of a cut point *)
Module WaveformView.
Import Waveform.

(** [a / b] where [b] may be 0. *)
Definition divide (a b : Q) : JS.number :=
  if Qeq_bool b 0 then
    if Qeq_bool a 0 then JS.NaN else JS.Infinity (JS.Qltb a 0)
  else JS.Fin (a / b).

(** The zoom buttons:
    [setZoomLevel((z) => Math.max(MIN_ZOOM, z - 1))], disabled when
    [zoomLevel <= MIN_ZOOM], and
    [setZoomLevel((z) => Math.min(MAX_ZOOM, z + 1))], disabled when
    [zoomLevel >= MAX_ZOOM]. *)
Definition clickZoomOut (zoomLevel : Q) : Q :=
  if Qle_bool zoomLevel MIN_ZOOM then zoomLevel
  else Qmax MIN_ZOOM (zoomLevel - 1).

Definition clickZoomIn (zoomLevel : Q) : Q :=
  if Qle_bool MAX_ZOOM zoomLevel then zoomLevel
  else Qmin MAX_ZOOM (zoomLevel + 1).

Inductive ZoomClick : Type := ZoomOut | ZoomIn.

Definition clickZoom (c : ZoomClick) (zoomLevel : Q) : Q :=
  match c with
  | ZoomOut => clickZoomOut zoomLevel
  | ZoomIn => clickZoomIn zoomLevel
  end.

Section Component.

Variable audioBuffer : option AudioBuffer.
Variable currentTime : Q.
Variable zoomLevel : Q.
Variable containerWidth : Q.
Variable container : option Container.

(** In [draw], after the waveform:
    [progressX = duration > 0 ? (currentTime / duration) * width : 0]. *)
Definition progressX : Q :=
  if JS.Qltb 0 (duration audioBuffer)
  then (currentTime / duration audioBuffer)
       * inject_Z (canvasWidth zoomLevel containerWidth)
  else 0.

(** In [draw], the x of the dashed line of a cut point:
    [(point.time / duration) * width], with no test of the duration. *)
Definition markerX (point : CutPoint) : JS.number :=
  JS.mul (divide (time point) (duration audioBuffer))
         (JS.Fin (inject_Z (canvasWidth zoomLevel containerWidth))).

(** The x of the playhead line and of the marker lines that [draw] strokes,
    [None] when [draw] returns before drawing. *)
Definition drawOverlay (cutPoints : list CutPoint)
  : option (Q * list JS.number) :=
  match audioBuffer with
  | None => None
  | Some _ =>
      if Qle_bool containerWidth 0 then None
      else Some (progressX, map markerX cutPoints)
  end.

(** [scrollPlayheadIntoView]: the value assigned to [container.scrollLeft],
    [None] when nothing is assigned. *)
Definition scrollPlayheadIntoView : option Q :=
  match container with
  | None => None
  | Some c =>
      if Qle_bool (duration audioBuffer) 0 then None
      else
        let progressX :=
          (currentTime / duration audioBuffer)
          * inject_Z (canvasWidth zoomLevel containerWidth) in
        let visibleRight := scrollLeft c + clientWidth c in
        if JS.Qltb progressX (scrollLeft c)
           || JS.Qltb (visibleRight - 20) progressX
        then Some (Qmax 0 (progressX - clientWidth c / 2))
        else None
  end.

(** [parseTimeToSeconds] of [utils/audioProcessor], which these sources do
    not contain: whatever it is, it gives seconds or [null]. *)
Variable parseTimeToSeconds : string -> option Q.

(** [commitEdit] of the row of [point]: the call of [onUpdateCutPoint], if
    any, as the pair of its arguments, and the new [editingId]. *)
Definition commitEdit (point : CutPoint)
    (editingId : option string) (editingValue : string)
  : option (string * Q) * option string :=
  let isEditing :=
    match editingId with
    | Some i => String.eqb i (id point)
    | None => false
    end in
  if negb isEditing then (None, editingId)
  else
    let parsed := parseTimeToSeconds editingValue in
    let duration := duration audioBuffer in
    (match parsed with
     | Some v =>
         if JS.Qltb 0 duration
         then Some (id point, Qmax 0 (Qmin duration v))
         else None
     | None => None
     end,
     None).

End Component.

End WaveformView.

(** ** Shapes of text, for statements about [parseTimeInput] *)
Module TextShape.

(** Every character of the text passes the test. *)
Fixpoint every (test : ascii -> bool) (s : string) : bool :=
  match s with
  | EmptyString => true
  | String c rest => test c && every test rest
  end.

(** A non-empty run of decimal digits. *)
Definition digits (s : string) : Prop :=
  s <> EmptyString /\ every JS.isDigit s = true.

(** White space only, possibly none. *)
Definition blank (s : string) : Prop := every JS.isWhiteSpace s = true.

(** A character that is not white space, a colon or a comma. *)
Definition plain (c : ascii) : bool :=
  negb (JS.isWhiteSpace c) && negb (Ascii.eqb c ":") && negb (Ascii.eqb c ",").

(** The number a run of digits denotes. *)
Definition valueOf (s : string) : Q := inject_Z (JS.digitsValue 0 s).

(** [n] times the character [c]. *)
Fixpoint repeated (n : nat) (c : ascii) : string :=
  match n with
  | O => EmptyString
  | S k => String c (repeated k c)
  end.

(** After white space and an optional sign the text goes on with a digit. *)
Definition startsInteger (p : string) : bool :=
  match snd (JS.sign (JS.trimStart p)) with
  | String c _ => JS.isDigit c
  | EmptyString => false
  end.

(** After white space and an optional sign the text goes on with
    [Infinity], with a digit, or with a point and a digit. *)
Definition startsDecimal (p : string) : bool :=
  let r := snd (JS.sign (JS.trimStart p)) in
  String.prefix "Infinity" r
  || match r with
     | String c rest =>
         JS.isDigit c
         || (Ascii.eqb c "."
             && match rest with
                | String c' _ => JS.isDigit c'
                | EmptyString => false
                end)
     | EmptyString => false
     end.


(** A character at which a decimal literal that so far has digits only
    ends. *)
Definition ends (c : ascii) : bool :=
  negb (JS.isDigit c) && negb (Ascii.eqb c ".")
  && negb (Ascii.eqb c "e") && negb (Ascii.eqb c "E").


End TextShape.

(** * Properties *)

From Stdlib Require Import Lqa Qpower.

(** ** Arithmetic helpers shared by the proofs *)

Lemma Qle_bool_false (a b : Q) : Qle_bool a b = false <-> b < a.
Proof.
  split; intro H.
  - apply Qnot_le_lt. intro Hle. apply Qle_bool_iff in Hle. congruence.
  - destruct (Qle_bool a b) eqn:E; [|reflexivity].
    apply Qle_bool_iff in E. exfalso. apply (Qlt_not_le _ _ H E).
Qed.

Lemma Qltb_true (a b : Q) : JS.Qltb a b = true <-> a < b.
Proof.
  unfold JS.Qltb. rewrite negb_true_iff. apply Qle_bool_false.
Qed.

Lemma Qltb_false (a b : Q) : JS.Qltb a b = false <-> b <= a.
Proof.
  unfold JS.Qltb. rewrite negb_false_iff. apply Qle_bool_iff.
Qed.

(** Case analysis on every [Qmin] and [Qmax] of the goal. *)
Ltac minmax :=
  repeat match goal with
  | |- context [Qmin ?a ?b] =>
      let H := fresh "Hmin" in
      destruct (Q.min_spec a b) as [[? H]|[? H]];
      revert H; generalize (Qmin a b); intros
  | |- context [Qmax ?a ?b] =>
      let H := fresh "Hmax" in
      destruct (Q.max_spec a b) as [[? H]|[? H]];
      revert H; generalize (Qmax a b); intros
  end.

Module PlayerFacts.
Import AudioPlayer.

Arguments duration : simpl never.

(** Open the record of a state, so that every field read reduces. *)
(** Reduce field reads of states built by the setters, and nothing else. *)
Ltac fields :=
  cbn [isPlaying currentTime playbackRate timeInput audioContextRef sourceRef
       startTimeRef pauseTimeRef animFrameRef isPlayingRef intentionalStopRef
       nodes rafQueue rafNext timeUpdates
       set_isPlaying set_currentTime set_timeInput set_audioContextRef
       set_sourceRef set_startTimeRef set_pauseTimeRef set_isPlayingRef
       set_intentionalStopRef set_nodes onTimeUpdate requestAnimationFrame
       cancelAnimationFrame initial negb orb andb option_map hd_error].

Ltac fields_everywhere :=
  cbn [isPlaying currentTime playbackRate timeInput audioContextRef sourceRef
       startTimeRef pauseTimeRef animFrameRef isPlayingRef intentionalStopRef
       nodes rafQueue rafNext timeUpdates] in *.

Ltac open_player s :=
  destruct s as [playing ct rate ti ctx src st pt af pref flag ns q nx tu];
  fields_everywhere; subst; fields.

Lemma length_stopNode (i : nat) (ns : list Node) :
  List.length (stopNode i ns) = List.length ns.
Proof.
  revert i. induction ns as [|n ns IH]; intros [|i]; cbn; auto.
Qed.

Lemma clamp_range (ab : option Q) (t : Q) :
  0 <= duration ab -> 0 <= clamp ab t <= duration ab.
Proof. unfold clamp. intro H. minmax; lra. Qed.

Lemma duration_nonneg (d : Q) : 0 <= d -> 0 <= duration (Some d).
Proof.
  intro H. unfold duration. destruct (Qeq_bool d 0); [apply Qle_refl | exact H].
Qed.

Lemma duration_pos (d : Q) : 0 < d -> duration (Some d) = d.
Proof.
  intro H. unfold duration. destruct (Qeq_bool d 0) eqn:E; [|reflexivity].
  apply Qeq_bool_iff in E. lra.
Qed.

(** [updateTime] while the position is short of the end: the position is
    shown and published, another frame is requested, the refs stay. *)
Lemma updateTime_running (ab : option Q) (now : Q) (s : Player) :
  audioContextRef s = true -> isPlayingRef s = true ->
  tickTime ab now s < duration ab - (1#100) ->
  updateTime ab now s =
    requestAnimationFrame
      (onTimeUpdate (tickTime ab now s) (set_currentTime (tickTime ab now s) s)).
Proof.
  intros Hc Hp Hlt. unfold updateTime. rewrite Hc, Hp. cbn [negb orb].
  fold (tickTime ab now s).
  apply Qle_bool_false in Hlt. rewrite Hlt. reflexivity.
Qed.

(** [updateTime] once the position is within 0.01 s of the end. *)
Lemma updateTime_finished (ab : option Q) (now : Q) (s : Player) :
  audioContextRef s = true -> isPlayingRef s = true ->
  duration ab - (1#100) <= tickTime ab now s ->
  updateTime ab now s =
    set_currentTime 0
      (set_pauseTimeRef 0
        (set_isPlayingRef false
          (set_isPlaying false
            (onTimeUpdate (tickTime ab now s)
              (set_currentTime (tickTime ab now s) s))))).
Proof.
  intros Hc Hp Hle. unfold updateTime. rewrite Hc, Hp. cbn [negb orb].
  fold (tickTime ab now s).
  apply Qle_bool_iff in Hle. rewrite Hle. reflexivity.
Qed.

(** [seekTo] when nothing is playing: the clamped time is the stored and
    the displayed position, and it is published. *)
Lemma seekTo_not_playing (ab : option Q) (t now : Q) (s : Player) :
  isPlaying s = false ->
  seekTo ab t now s =
    set_timeInput EmptyString
      (onTimeUpdate (clamp ab t)
        (set_currentTime (clamp ab t) (set_pauseTimeRef (clamp ab t) s))).
Proof. intro H. unfold seekTo. rewrite H. reflexivity. Qed.

(** [seekTo] while playing: [pause] adds the time played since the last
    start to the position that [seekTo] has just stored, and [play] starts
    the new node there. *)
Lemma seekTo_playing_position (ab : option Q) (t now : Q) (s : Player) (i : nat) :
  isPlaying s = true -> sourceRef s = Some i -> audioContextRef s = true ->
  ab <> None ->
  let landed :=
    Qmin (clamp ab t + (now - startTimeRef s) * playbackRate s) (duration ab) in
  let s' := seekTo ab t now s in
  pauseTimeRef s' = landed /\ currentTime s' = landed /\
  hd_error (timeUpdates s') = Some landed /\
  isPlaying s' = true /\
  option_map nodeOffset (nth_error (nodes s') (List.length (nodes s)))
    = Some landed.
Proof.
  intros Hp Hs Hc Hab. destruct ab as [d|]; [|congruence].
  unfold seekTo, pause, play, clamp. open_player s.
  repeat split.
  rewrite nth_error_app2; rewrite !length_stopNode; [|lia].
  rewrite Nat.sub_diag. reflexivity.
Qed.


(** When nothing is playing and the display shows the stored position,
    [skip] moves to the clamp of the current position plus the offset. *)
Lemma skip_not_playing (ab : option Q) (seconds now : Q) (s : Player) :
  isPlaying s = false ->
  pauseTimeRef (skip ab seconds now s) = clamp ab (pauseTimeRef s + seconds) /\
  currentTime (skip ab seconds now s) = clamp ab (pauseTimeRef s + seconds).
Proof. intro H. unfold skip. rewrite H. split; reflexivity. Qed.

(** C1 (the code departs from the claim).  The controller plays a 100 s
    buffer from position 0 since clock reading 0; at clock reading 30 the
    user seeks to 10.  [seekTo] stores and publishes 10, then its internal
    [pause] adds the 30 s played so far: the stored and displayed position,
    the last published one and the offset of the new output node are all
    40, not the clamped 10. *)
Theorem seekTo_while_playing_lands_late :
  let ab := Some 100 in
  let s := play ab 0 initial in
  let s' := seekTo ab 10 30 s in
  isPlaying s = true /\ clamp ab 10 == 10 /\
  pauseTimeRef s' == 40 /\ currentTime s' == 40 /\
  map Qred (timeUpdates s') = [40; 10] /\
  option_map nodeOffset (nth_error (nodes s') 1) = Some (pauseTimeRef s') /\
  isPlaying s' = true /\
  ~ pauseTimeRef s' == clamp ab 10.
Proof.
  vm_compute. repeat split; try reflexivity. discriminate.
Qed.

(** C5 (the code departs from the claim).  Same controller, at clock
    reading 10: the current position is 10 while the stored one is still 0.
    [skip(5)] lands on 15, but [seekTo(position + 5)] lands on 25: the two
    are not equivalent while playing.  At clock reading 3, [skip(-5)] clamps
    the stored position and lands on 3, not on the clamp of [3 - 5]. *)
Theorem skip_is_not_seek_of_current_position :
  let ab := Some 100 in
  let s := play ab 0 initial in
  let position := tickTime ab 10 s in
  isPlaying s = true /\ position == 10 /\ pauseTimeRef s == 0 /\
  pauseTimeRef (skip ab 5 10 s) == 15 /\
  pauseTimeRef (seekTo ab (position + 5) 10 s) == 25 /\
  ~ pauseTimeRef (skip ab 5 10 s)
    == pauseTimeRef (seekTo ab (position + 5) 10 s) /\
  tickTime ab 3 s == 3 /\ pauseTimeRef (skip ab (-(5)) 3 s) == 3.
Proof.
  vm_compute. repeat split; try reflexivity. discriminate.
Qed.

Lemma onended_natural (s : Player) :
  intentionalStopRef s = false ->
  onended s =
    set_isPlayingRef false
      (set_isPlaying false (set_currentTime 0 (set_pauseTimeRef 0 s))).
Proof. intro H. unfold onended. rewrite H. reflexivity. Qed.

(** Both places where the controller stops a node set the flag first and
    mark the node stopped. *)
Lemma pause_stops_intentionally (ab : option Q) (now : Q) (s : Player) (i : nat) :
  sourceRef s = Some i -> audioContextRef s = true ->
  intentionalStopRef (pause ab now s) = true /\
  nodes (pause ab now s) = stopNode i (nodes s).
Proof. intros Hs Hc. unfold pause. open_player s. split; reflexivity. Qed.

Lemma play_stops_intentionally (d now : Q) (s : Player) (i : nat) :
  sourceRef s = Some i ->
  intentionalStopRef (play (Some d) now s) = true /\
  firstn (List.length (nodes s)) (nodes (play (Some d) now s))
    = stopNode i (nodes s).
Proof.
  intros Hs. unfold play. open_player s.
  destruct ctx; cbn; (split; [reflexivity|]);
    rewrite <- (length_stopNode i ns), firstn_app, Nat.sub_diag, firstn_all;
    cbn; apply app_nil_r.
Qed.

(** What [onended] does, by the flag it finds.  Set: it only clears the
    flag, position and phase stay; [pause], and [play] when it stops the node
    of an earlier start, leave the flag set, and [updateTime] does not touch
    it.  Unset: it resets the stored and displayed position to 0 and leaves
    the playing phase; applied again, or to an idle controller, it changes
    nothing. *)
Lemma onended_by_flag (ab : option Q) (now : Q) (s : Player) :
  (intentionalStopRef s = true ->
     onended s = set_intentionalStopRef false s /\
     intentionalStopRef (onended s) = false /\
     pauseTimeRef (onended s) = pauseTimeRef s /\
     currentTime (onended s) = currentTime s /\
     isPlaying (onended s) = isPlaying s /\
     isPlayingRef (onended s) = isPlayingRef s)
  /\
  (forall i, sourceRef s = Some i -> audioContextRef s = true ->
     let paused := pause ab now s in
     intentionalStopRef paused = true /\
     onended paused = set_intentionalStopRef false paused)
  /\
  (intentionalStopRef s = false ->
     pauseTimeRef (onended s) = 0 /\ currentTime (onended s) = 0 /\
     isPlaying (onended s) = false /\ isPlayingRef (onended s) = false /\
     idle (onended s) /\
     onended (onended s) = onended s)
  /\
  (idle s ->
     (intentionalStopRef s = false -> onended s = s) /\
     idle (onended s) /\
     set_intentionalStopRef false (onended s) = set_intentionalStopRef false s)
  /\
  (forall i d, sourceRef s = Some i ->
     let restarted := play (Some d) now s in
     intentionalStopRef restarted = true /\
     onended restarted = set_intentionalStopRef false restarted)
  /\
  (forall now', intentionalStopRef (updateTime ab now' s)
                = intentionalStopRef s).
Proof.
  split; [|split; [|split; [|split; [|split]]]].
  - intro Hf. unfold onended. rewrite Hf. repeat split.
  - intros i Hs Hc paused.
    destruct (pause_stops_intentionally ab now s i Hs Hc) as [Hflag _].
    split; [exact Hflag|].
    unfold onended. fold paused in Hflag. rewrite Hflag. reflexivity.
  - intro Hf. rewrite (onended_natural s Hf). unfold idle. repeat split.
    rewrite onended_natural by (destruct s; exact Hf). reflexivity.
  - intros (H1 & H2 & H3 & H4). unfold onended, idle. open_player s.
    destruct flag; repeat split. discriminate.
  - intros i d Hs restarted.
    destruct (play_stops_intentionally d now s i Hs) as [Hflag _].
    split; [exact Hflag|].
    unfold onended. fold restarted in Hflag. rewrite Hflag. reflexivity.
  - intro now'. unfold updateTime.
    destruct (negb (audioContextRef s) || negb (isPlayingRef s));
      [reflexivity|].
    destruct (Qle_bool _ _); reflexivity.
Qed.

(** C6 (the code departs from the claim).  There is one flag,
    [intentionalStopRef], for all nodes.  A 100 s buffer plays from clock
    reading 0; the slider is dragged: to 10 at clock reading 1 and to 20 at
    clock reading 1.003, before any "ended" notification is delivered.  Each
    [seekTo] stops the playing node through [pause], which sets the flag, and
    starts another: nodes 0 and 1 are stopped, both intentionally, node 2
    plays, and the flag is set once.  The notification of node 0 consumes the
    flag.  The notification of node 1, also stopped intentionally, finds it
    unset and runs the reset: stored and displayed position 0, not playing,
    while node 2 has not been told to stop. *)
Theorem second_intentional_stop_resets :
  let ab := Some 100 in
  let s0 := play ab 0 initial in
  let s1 := seekTo ab 10 1 s0 in
  let s2 := seekTo ab 20 (1003#1000) s1 in
  let s3 := onended s2 in
  let s4 := onended s3 in
  map nodeStopped (nodes s0) = [false] /\
  map nodeStopped (nodes s1) = [true; false] /\
  intentionalStopRef s1 = true /\
  map nodeStopped (nodes s2) = [true; true; false] /\
  intentionalStopRef s2 = true /\
  isPlaying s2 = true /\ sourceRef s2 = Some 2%nat /\
  s3 = set_intentionalStopRef false s2 /\
  isPlaying s3 = true /\ pauseTimeRef s3 = pauseTimeRef s2 /\
  intentionalStopRef s3 = false /\
  isPlaying s4 = false /\ isPlayingRef s4 = false /\
  pauseTimeRef s4 = 0 /\ currentTime s4 = 0 /\ idle s4 /\
  map nodeStopped (nodes s4) = [true; true; false] /\
  sourceStopped s4 = Some false /\
  ~ (isPlaying s4 = isPlaying s3 /\ pauseTimeRef s4 == pauseTimeRef s3).
Proof.
  vm_compute. repeat split; try reflexivity.
  intros [H _]. discriminate H.
Qed.

(** C4, against the claim as stated.  A 10 s buffer plays from 0 since clock
    reading 0 and the frame requested by [play] runs at 9.995: the position
    is within 0.01 s of the end, the stored position is reset and the
    playing phase left, but the output node has not been told to stop. *)
Lemma near_end_tick_leaves_node_running :
  let ab := Some 10 in
  let s := play ab 0 initial in
  let s' := runFrame ab 1 (9995#1000) s in
  duration ab - (1#100) <= tickTime ab (9995#1000) s /\
  sourceStopped s' = Some false /\
  ~ (sourceStopped s' = Some true /\ pauseTimeRef s' == 0
     /\ isPlaying s' = false).
Proof.
  vm_compute. split; [discriminate|]. split; [reflexivity|].
  intros [H _]. discriminate H.
Qed.

(** C4, amended.  When the position that [updateTime] recomputes is at least
    [duration - 0.01], the callback publishes that position, then resets the
    stored and the displayed position to 0 and leaves the playing phase, in
    state and in ref; it requests no further frame, and it leaves the output
    node, the source ref and the intentional-stop flag as they are: the node
    is not stopped and runs out on its own. *)
Theorem updateTime_near_end_resets (ab : option Q) (now : Q) (s : Player) :
  audioContextRef s = true -> isPlayingRef s = true ->
  duration ab - (1#100) <= tickTime ab now s ->
  let s' := updateTime ab now s in
  pauseTimeRef s' = 0 /\ currentTime s' = 0 /\
  isPlaying s' = false /\ isPlayingRef s' = false /\ idle s' /\
  timeUpdates s' = tickTime ab now s :: timeUpdates s /\
  rafQueue s' = rafQueue s /\ animFrameRef s' = animFrameRef s /\
  nodes s' = nodes s /\ sourceRef s' = sourceRef s /\
  sourceStopped s' = sourceStopped s /\
  intentionalStopRef s' = intentionalStopRef s.
Proof.
  intros Hc Hp Hle s'. subst s'.
  rewrite (updateTime_finished ab now s Hc Hp Hle).
  unfold idle. repeat split.
Qed.

Lemma updateTime_near_end_resets_witness :
  let ab := Some 10 in
  let s := play ab 0 initial in
  let s' := updateTime ab (9995#1000) s in
  tickTime ab (9995#1000) s == 9995#1000 /\
  pauseTimeRef s' = 0 /\ isPlaying s' = false /\
  sourceStopped s' = sourceStopped s.
Proof.
  split; [vm_compute; reflexivity|].
  assert (Hc : audioContextRef (play (Some 10) 0 initial) = true)
    by reflexivity.
  assert (Hp : isPlayingRef (play (Some 10) 0 initial) = true)
    by reflexivity.
  assert (Hle : duration (Some 10) - (1#100)
                <= tickTime (Some 10) (9995#1000) (play (Some 10) 0 initial))
    by (vm_compute; discriminate).
  destruct (updateTime_near_end_resets (Some 10) (9995#1000)
              (play (Some 10) 0 initial) Hc Hp Hle)
    as (H1 & _ & H3 & _ & _ & _ & _ & _ & _ & _ & H11 & _).
  split; [exact H1|]. split; [exact H3|exact H11].
Defined.

(** [play] on a buffer that is there: it starts from the stored position,
    which it keeps, and takes the clock reading as reference timestamp. *)
Lemma play_fields (d now : Q) (s : Player) :
  let s' := play (Some d) now s in
  pauseTimeRef s' = pauseTimeRef s /\ startTimeRef s' = now /\
  playbackRate s' = playbackRate s /\ audioContextRef s' = true /\
  isPlayingRef s' = true /\ isPlaying s' = true /\
  currentTime s' = currentTime s /\
  sourceRef s' = Some (List.length (nodes s)) /\
  option_map nodeOffset (nth_error (nodes s') (List.length (nodes s)))
    = Some (pauseTimeRef s).
Proof.
  unfold play. open_player s.
  destruct ctx, src; fields; repeat split;
    rewrite ?length_stopNode; try reflexivity;
    (rewrite nth_error_app2; rewrite ?length_stopNode; [|lia]);
    rewrite Nat.sub_diag; reflexivity.
Qed.

(** [pause] with a node and a context: the time played since the reference
    timestamp, scaled by the rate, is added to the stored position, which
    is clamped to the duration, shown and published. *)
Lemma pause_fields (ab : option Q) (now : Q) (s : Player) (i : nat) :
  sourceRef s = Some i -> audioContextRef s = true ->
  let s' := pause ab now s in
  pauseTimeRef s' =
    Qmin (pauseTimeRef s + (now - startTimeRef s) * playbackRate s)
         (duration ab) /\
  currentTime s' = pauseTimeRef s' /\
  timeUpdates s' = pauseTimeRef s' :: timeUpdates s /\
  isPlaying s' = false /\ isPlayingRef s' = false /\
  playbackRate s' = playbackRate s /\ sourceRef s' = sourceRef s /\
  audioContextRef s' = true.
Proof.
  intros Hs Hc. unfold pause. open_player s. repeat split.
Qed.

(** A frame in the middle of playback changes neither the stored position
    nor the reference timestamp nor the rate. *)
Lemma updateTime_keeps_refs (ab : option Q) (now : Q) (s : Player) :
  tickTime ab now s < duration ab - (1#100) ->
  let s' := updateTime ab now s in
  pauseTimeRef s' = pauseTimeRef s /\ startTimeRef s' = startTimeRef s /\
  playbackRate s' = playbackRate s /\
  audioContextRef s' = audioContextRef s /\ isPlayingRef s' = isPlayingRef s.
Proof.
  intros Hlt s'. subst s'. unfold updateTime.
  destruct (negb (audioContextRef s) || negb (isPlayingRef s));
    [repeat split|].
  fold (tickTime ab now s). apply Qle_bool_false in Hlt. rewrite Hlt.
  repeat split.
Qed.

(** What [updateTime] shows depends on the state only through the refs it
    reads. *)
Lemma updateTime_currentTime_ext (ab : option Q) (now : Q) (s1 s2 : Player) :
  pauseTimeRef s1 = pauseTimeRef s2 -> startTimeRef s1 = startTimeRef s2 ->
  playbackRate s1 = playbackRate s2 ->
  audioContextRef s1 = true -> isPlayingRef s1 = true ->
  audioContextRef s2 = true -> isPlayingRef s2 = true ->
  currentTime (updateTime ab now s1) = currentTime (updateTime ab now s2).
Proof.
  intros Hp Hs Hr Hc1 Hp1 Hc2 Hp2. unfold updateTime.
  rewrite Hc1, Hp1, Hc2, Hp2, Hp, Hs, Hr. cbn [negb orb].
  destruct (Qle_bool _ _); reflexivity.
Qed.

(** A frame short of the end, field by field. *)
Lemma updateTime_running_fields (ab : option Q) (now : Q) (s : Player) :
  audioContextRef s = true -> isPlayingRef s = true ->
  tickTime ab now s < duration ab - (1#100) ->
  let s' := updateTime ab now s in
  pauseTimeRef s' = pauseTimeRef s /\ startTimeRef s' = startTimeRef s /\
  playbackRate s' = playbackRate s /\ audioContextRef s' = true /\
  isPlayingRef s' = true /\ isPlaying s' = isPlaying s /\
  sourceRef s' = sourceRef s /\ currentTime s' = tickTime ab now s.
Proof.
  intros Hc Hp Hlt s'. subst s'.
  rewrite (updateTime_running ab now s Hc Hp Hlt).
  repeat split; assumption.
Qed.

(** Any number of frames short of the end leave the refs as they are:
    nothing is carried from one frame to the next. *)
Lemma ticks_keep_refs (ab : option Q) (times : list Q) (s : Player) :
  audioContextRef s = true -> isPlayingRef s = true ->
  Forall (fun t => tickTime ab t s < duration ab - (1#100)) times ->
  let s' := ticks ab times s in
  pauseTimeRef s' = pauseTimeRef s /\ startTimeRef s' = startTimeRef s /\
  playbackRate s' = playbackRate s /\ audioContextRef s' = true /\
  isPlayingRef s' = true /\ isPlaying s' = isPlaying s /\
  sourceRef s' = sourceRef s.
Proof.
  revert s. induction times as [|t rest IH]; intros s Hc Hp Hall.
  - cbn. repeat split; assumption.
  - inversion Hall as [|? ? Ht Hrest]; subst.
    destruct (updateTime_running_fields ab t s Hc Hp Ht)
      as (K1 & K2 & K3 & K4 & K5 & K6 & K7 & _).
    assert (Hrest' : Forall (fun u => tickTime ab u (updateTime ab t s)
                                      < duration ab - (1#100)) rest).
    { revert Hrest. apply Forall_impl. intro u. unfold tickTime.
      rewrite K1, K2, K3. exact (fun H => H). }
    destruct (IH (updateTime ab t s) K4 K5 Hrest')
      as (J1 & J2 & J3 & J4 & J5 & J6 & J7).
    change (ticks ab (t :: rest) s) with (ticks ab rest (updateTime ab t s)).
    cbv zeta. repeat split; congruence.
Qed.

(** C2.  While playing, every call of [updateTime] publishes
    [min(storedPosition + elapsed * rate, duration)], computed from the
    clock reading and the refs alone, also when the minimum is the duration.
    Short of the end it shows that position and leaves the refs untouched;
    within 0.01 s of the end it resets.  Nothing is accumulated from frame
    to frame: on a buffer longer than 3.01 s, play at position 0 at clock
    reading [c0], let any frames run, at any clock readings up to [c0 + 2];
    a frame at [c0 + 2] shows 2, and [pause] at [c0 + 2], whenever the last
    frame ran, stores, shows and publishes 2.  Play again at any clock
    reading [c1], let any frames run up to [c1 + 1]: a frame at [c1 + 1]
    shows 3, and a pause there stores 3. *)
Theorem position_recomputed_from_clock
    (ab : option Q) (s : Player) (now : Q) (d c0 c1 : Q)
    (frames frames' : list Q) :
  audioContextRef s = true -> isPlayingRef s = true ->
  3 + (1#100) < d ->
  Forall (fun t => t <= c0 + 2) frames ->
  Forall (fun t => t <= c1 + 1) frames' ->
  (let position :=
     Qmin (pauseTimeRef s + (now - startTimeRef s) * playbackRate s)
          (duration ab) in
   let s' := updateTime ab now s in
   timeUpdates s' = position :: timeUpdates s /\
   startTimeRef s' = startTimeRef s /\ playbackRate s' = playbackRate s /\
   (position < duration ab - (1#100) ->
      currentTime s' = position /\ pauseTimeRef s' = pauseTimeRef s /\
      isPlayingRef s' = true) /\
   (duration ab - (1#100) <= position ->
      currentTime s' = 0 /\ pauseTimeRef s' = 0 /\ isPlayingRef s' = false))
  /\
  (let s1 := ticks (Some d) frames (play (Some d) c0 initial) in
   let s2 := pause (Some d) (c0 + 2) s1 in
   let s3 := ticks (Some d) frames' (play (Some d) c1 s2) in
   isPlaying s1 = true /\
   currentTime (updateTime (Some d) (c0 + 2) s1) == 2 /\
   pauseTimeRef s2 == 2 /\ currentTime s2 == 2 /\ isPlaying s2 = false /\
   (exists p, hd_error (timeUpdates s2) = Some p /\ p == 2) /\
   isPlaying s3 = true /\
   currentTime (updateTime (Some d) (c1 + 1) s3) == 3 /\
   pauseTimeRef (pause (Some d) (c1 + 1) s3) == 3).
Proof.
  intros Hc Hp Hd Hf Hf'. split.
  - intros position s'. fold (tickTime ab now s) in position.
    destruct (Qlt_le_dec position (duration ab - (1#100))) as [Hlt|Hle].
    + assert (E : s' = requestAnimationFrame
                    (onTimeUpdate position (set_currentTime position s)))
        by (apply updateTime_running; assumption).
      rewrite E. repeat split; try assumption; exfalso; lra.
    + assert (E : s' = set_currentTime 0
                        (set_pauseTimeRef 0
                           (set_isPlayingRef false
                              (set_isPlaying false
                                 (onTimeUpdate position
                                    (set_currentTime position s))))))
        by (apply updateTime_finished; assumption).
      rewrite E. repeat split; try assumption; exfalso; lra.
  - assert (Ed : duration (Some d) = d) by (apply duration_pos; lra).
    cbv zeta.
    (* the first stretch *)
    destruct (play_fields d c0 initial)
      as (A1 & A2 & A3 & A4 & A5 & A6 & _ & A8 & _).
    change (pauseTimeRef initial) with 0 in A1.
    change (playbackRate initial) with 1 in A3.
    change (List.length (nodes initial)) with 0%nat in A8.
    generalize dependent (play (Some d) c0 initial).
    intros p0 A1 A2 A3 A4 A5 A6 A8.
    assert (F0 : Forall (fun t => tickTime (Some d) t p0
                                  < duration (Some d) - (1#100)) frames).
    { revert Hf. apply Forall_impl. intros t Ht. unfold tickTime.
      rewrite A1, A2, A3, Ed. minmax; lra. }
    destruct (ticks_keep_refs (Some d) frames p0 A4 A5 F0)
      as (B1 & B2 & B3 & B4 & B5 & B6 & B7).
    rewrite A1 in B1. rewrite A2 in B2. rewrite A3 in B3. rewrite A6 in B6.
    rewrite A8 in B7. clear F0.
    generalize dependent (ticks (Some d) frames p0).
    intros s1 B1 B2 B3 B4 B5 B6 B7.
    assert (T1 : tickTime (Some d) (c0 + 2) s1 == 2).
    { unfold tickTime. rewrite B1, B2, B3, Ed. minmax; lra. }
    destruct (updateTime_running_fields (Some d) (c0 + 2) s1 B4 B5)
      as (_ & _ & _ & _ & _ & _ & _ & U); [rewrite T1, Ed; lra|].
    destruct (pause_fields (Some d) (c0 + 2) s1 0%nat B7 B4)
      as (C1 & C2 & C3 & C4 & _ & C6 & _).
    fold (tickTime (Some d) (c0 + 2) s1) in C1.
    rewrite B3 in C6.
    generalize dependent (updateTime (Some d) (c0 + 2) s1). intros u1 U.
    generalize dependent (pause (Some d) (c0 + 2) s1).
    intros s2 C1 C2 C3 C4 C6.
    (* the second stretch *)
    destruct (play_fields d c1 s2)
      as (D1 & D2 & D3 & D4 & D5 & D6 & _ & D8 & _).
    rewrite C6 in D3.
    generalize dependent (play (Some d) c1 s2).
    intros p1 D1 D2 D3 D4 D5 D6 D8.
    assert (P2 : pauseTimeRef s2 == 2) by (rewrite C1; exact T1).
    assert (F1 : Forall (fun t => tickTime (Some d) t p1
                                  < duration (Some d) - (1#100)) frames').
    { revert Hf'. apply Forall_impl. intros t Ht. unfold tickTime.
      rewrite D1, D2, D3, Ed. revert P2. generalize (pauseTimeRef s2).
      intros q P2. minmax; lra. }
    destruct (ticks_keep_refs (Some d) frames' p1 D4 D5 F1)
      as (E1 & E2 & E3 & E4 & E5 & E6 & E7).
    rewrite D1 in E1. rewrite D2 in E2. rewrite D3 in E3. rewrite D6 in E6.
    rewrite D8 in E7. clear F1.
    generalize dependent (ticks (Some d) frames' p1).
    intros s3 E1 E2 E3 E4 E5 E6 E7.
    assert (T3 : tickTime (Some d) (c1 + 1) s3 == 3).
    { unfold tickTime. rewrite E1, E2, E3, Ed. revert P2.
      generalize (pauseTimeRef s2). intros q P2. minmax; lra. }
    destruct (updateTime_running_fields (Some d) (c1 + 1) s3 E4 E5)
      as (_ & _ & _ & _ & _ & _ & _ & V); [rewrite T3, Ed; lra|].
    destruct (pause_fields (Some d) (c1 + 1) s3 _ E7 E4) as (G1 & _).
    fold (tickTime (Some d) (c1 + 1) s3) in G1.
    split; [exact B6|]. split; [rewrite U; exact T1|].
    split; [exact P2|]. split; [rewrite C2; exact P2|].
    split; [exact C4|].
    split; [exists (pauseTimeRef s2); split; [rewrite C3; reflexivity|exact P2]|].
    split; [exact E6|]. split; [rewrite V; exact T3|].
    rewrite G1. exact T3.
Qed.

Lemma position_recomputed_from_clock_witness :
  let ab := Some 10 in
  let s := play ab 0 initial in
  let frames := [1 # 2; 1] in
  let frames' := [15 # 2] in
  (audioContextRef s = true /\ isPlayingRef s = true /\ 3 + (1#100) < 10 /\
   Forall (fun t => t <= 0 + 2) frames /\
   Forall (fun t => t <= 7 + 1) frames' /\
   duration ab - (1#100) <= Qmin (pauseTimeRef s + (12 - startTimeRef s)
                                  * playbackRate s) (duration ab)) /\
  hd_error (timeUpdates (updateTime ab 12 s)) = Some (duration ab) /\
  currentTime (updateTime ab 12 s) = 0 /\
  pauseTimeRef (pause ab (0 + 2) (ticks ab frames s)) == 2 /\
  currentTime
    (updateTime ab (7 + 1)
       (ticks ab frames' (play ab 7 (pause ab (0 + 2) (ticks ab frames s)))))
  == 3.
Proof.
  intros ab s frames frames'.
  assert (Hc : audioContextRef s = true) by reflexivity.
  assert (Hp : isPlayingRef s = true) by reflexivity.
  assert (Hd : 3 + (1#100) < 10) by reflexivity.
  assert (Hf : Forall (fun t => t <= 0 + 2) frames)
    by (repeat constructor; vm_compute; discriminate).
  assert (Hf' : Forall (fun t => t <= 7 + 1) frames')
    by (repeat constructor; vm_compute; discriminate).
  assert (He : duration ab - (1#100)
               <= Qmin (pauseTimeRef s + (12 - startTimeRef s) * playbackRate s)
                       (duration ab))
    by (vm_compute; discriminate).
  split; [exact (conj Hc (conj Hp (conj Hd (conj Hf (conj Hf' He)))))|].
  destruct (position_recomputed_from_clock ab s 12 10 0 7 frames frames'
              Hc Hp Hd Hf Hf')
    as [(A1 & _ & _ & _ & A5) (_ & _ & B3 & _ & _ & _ & _ & B8 & _)].
  destruct (A5 He) as (A6 & _).
  split; [rewrite A1; vm_compute; reflexivity|].
  split; [exact A6|]. split; [exact B3|exact B8].
Defined.


End PlayerFacts.

(** ** binary64 rounding *)
Module NumberFacts.
Import JS.

(** [double] looks at the value of the rational only, not at the fraction
    that represents it. *)
Lemma double_comp (q q' : Q) : q == q' -> double q = double q'.
Proof.
  intro E. unfold double.
  rewrite (Qcompare_comp q q' E 0 0 (Qeq_refl 0)).
  rewrite (Qred_complete q q' E).
  assert (E' : - q == - q') by (rewrite E; reflexivity).
  rewrite (Qred_complete _ _ E'). reflexivity.
Qed.

Lemma double_not_NaN (q : Q) : double q <> NaN.
Proof.
  unfold double. destruct (q ?= 0); try discriminate;
    destruct (roundPositive _); discriminate.
Qed.

Lemma roundHalfEven_nonneg (m : Q) : 0 <= m -> (0 <= roundHalfEven m)%Z.
Proof.
  intro H. unfold roundHalfEven.
  assert (F : (0 <= Qfloor m)%Z).
  { change 0%Z with (Qfloor 0). apply Qfloor_resp_le, H. }
  destruct (_ ?= _); [destruct (Z.even _)| |]; lia.
Qed.

Lemma roundPositive_nonneg (a x : Q) :
  0 <= a -> roundPositive a = Some x -> 0 <= x.
Proof.
  intros Ha. unfold roundPositive.
  set (k := (Z.max (binade a) (-1022) - 52)%Z).
  destruct (Qle_bool _ _); [discriminate|]. intro E.
  apply (f_equal (fun o => match o with Some y => y | None => x end)) in E.
  rewrite <- E. refine (proj2 (Qred_le 0 _) _).
  assert (P : 0 < Qpower 2 k) by (apply Qpower_0_lt; reflexivity).
  apply Qmult_le_0_compat; [|apply Qlt_le_weak, P].
  change 0 with (inject_Z 0). rewrite <- Zle_Qle.
  apply roundHalfEven_nonneg. apply Qle_shift_div_l; [exact P|]. lra.
Qed.

(** Rounding keeps the sign. *)
Lemma double_nonneg (q : Q) :
  0 <= q -> (exists x, double q = Fin x /\ 0 <= x) \/ double q = Infinity false.
Proof.
  intro H. unfold double.
  destruct (Qcompare_spec q 0) as [E|L|G].
  - left. exists 0. split; [reflexivity|lra].
  - lra.
  - destruct (roundPositive (Qred q)) as [x|] eqn:R; [left|right; reflexivity].
    exists x. split; [reflexivity|].
    apply (roundPositive_nonneg (Qred q) x); [|exact R].
    refine (proj2 (Qred_le 0 _) _). exact H.
Qed.


Lemma pow2_nonneg (e : Z) : (0 <= e)%Z -> Qpower 2 e == inject_Z (2 ^ e).
Proof. intro H. rewrite (Zpower_Qpower 2 e H). reflexivity. Qed.

Lemma binade_integer (z : Z) : (0 < z)%Z -> binade (inject_Z z) = Z.log2 z.
Proof.
  intro H. unfold binade. cbn [Qnum Qden inject_Z].
  change (Z.log2 1) with 0%Z. rewrite Z.sub_0_r.
  pose proof (Z.log2_nonneg z) as Hn.
  destruct (Z.log2_spec z H) as [Hlo _].
  assert (E : Qle_bool (Qpower 2 (Z.log2 z)) (inject_Z z) = true).
  { apply Qle_bool_iff. rewrite (pow2_nonneg _ Hn).
    rewrite <- Zle_Qle. exact Hlo. }
  rewrite E. reflexivity.
Qed.

Lemma roundHalfEven_integer (m : Q) (z : Z) :
  m == inject_Z z -> roundHalfEven m = z.
Proof.
  intro E. unfold roundHalfEven.
  rewrite (Qfloor_comp _ _ E), Qfloor_Z.
  destruct (Qcompare_spec (m - inject_Z z) (1 # 2)) as [C|C|C];
    [exfalso; rewrite E in C; lra|reflexivity|exfalso; rewrite E in C; lra].
Qed.

Lemma Qred_integer (z : Z) : Qred (inject_Z z) = inject_Z z.
Proof.
  unfold Qred, inject_Z.
  pose proof (Z.ggcd_gcd z 1) as G.
  pose proof (Z.ggcd_correct_divisors z 1) as D.
  destruct (Z.ggcd z 1) as (g, (aa, bb)). cbn [fst snd] in *.
  rewrite Z.gcd_1_r in G. subst g. destruct D as [D1 D2].
  replace aa with z by lia. replace bb with 1%Z by lia. reflexivity.
Qed.

Lemma roundPositive_integer (z : Z) :
  (0 < z < 2 ^ 53)%Z -> roundPositive (inject_Z z) = Some (inject_Z z).
Proof.
  intros [Hpos Hlt]. unfold roundPositive.
  rewrite (binade_integer z Hpos).
  pose proof (Z.log2_nonneg z) as Hn.
  assert (He : (Z.log2 z < 53)%Z) by (apply Z.log2_lt_pow2; lia).
  rewrite Z.max_l by lia.
  set (j := (52 - Z.log2 z)%Z).
  assert (Hj : (0 <= j)%Z) by (unfold j; lia).
  replace (Z.log2 z - 52)%Z with (- j)%Z by (unfold j; lia).
  assert (P : Qpower 2 (- j) == / inject_Z (2 ^ j)).
  { rewrite Qpower_opp, (pow2_nonneg j Hj). reflexivity. }
  assert (Pj : (0 < 2 ^ j)%Z) by (apply Z.pow_pos_nonneg; lia).
  assert (Pq : 0 < inject_Z (2 ^ j)).
  { change 0 with (inject_Z 0). rewrite <- Zlt_Qlt. exact Pj. }
  assert (M : inject_Z z / Qpower 2 (- j) == inject_Z (z * 2 ^ j)).
  { rewrite P, inject_Z_mult. field. intro K. rewrite K in Pq. lra. }
  rewrite (roundHalfEven_integer _ _ M).
  assert (X : inject_Z (z * 2 ^ j) * Qpower 2 (- j) == inject_Z z).
  { rewrite P, inject_Z_mult. field. intro K. rewrite K in Pq. lra. }
  rewrite (Qred_complete _ _ X), Qred_integer.
  assert (O : Qle_bool (Qpower 2 1024) (inject_Z z) = false).
  { apply Qle_bool_false. rewrite (pow2_nonneg 1024) by lia.
    rewrite <- Zlt_Qlt.
    apply (Z.lt_trans _ _ _ Hlt). apply Z.pow_lt_mono_r; lia. }
  rewrite O. reflexivity.
Qed.

(** An integer below 2^53 in absolute value is a binary64 value: rounding
    leaves it as it is. *)
Lemma double_integer (z : Z) :
  (Z.abs z < 2 ^ 53)%Z -> double (inject_Z z) = Fin (inject_Z z).
Proof.
  intro H. unfold double.
  pose proof Qred_integer as R.
  destruct (Qcompare_spec (inject_Z z) 0) as [E|L|G].
  - assert (Z0 : z = 0%Z) by (apply inject_Z_injective; exact E).
    rewrite Z0. reflexivity.
  - change 0 with (inject_Z 0) in L. rewrite <- Zlt_Qlt in L.
    change (- inject_Z z) with (inject_Z (- z)). rewrite R.
    rewrite roundPositive_integer by lia.
    change (- inject_Z (- z)) with (inject_Z (- - z)).
    rewrite Z.opp_involutive. reflexivity.
  - change 0 with (inject_Z 0) in G. rewrite <- Zlt_Qlt in G.
    rewrite R, roundPositive_integer by lia. reflexivity.
Qed.

(** Sums and products of such integers, as [plus] and [times] compute
    them. *)
Lemma plus_integers (a b : Z) :
  (Z.abs (a + b) < 2 ^ 53)%Z ->
  plus (Fin (inject_Z a)) (Fin (inject_Z b)) = Fin (inject_Z (a + b)).
Proof.
  intro H. unfold plus. cbn [add round].
  rewrite (double_comp _ (inject_Z (a + b))) by (rewrite inject_Z_plus; reflexivity).
  apply double_integer, H.
Qed.

Lemma times_integers (a b : Z) :
  (Z.abs (a * b) < 2 ^ 53)%Z ->
  times (Fin (inject_Z a)) (Fin (inject_Z b)) = Fin (inject_Z (a * b)).
Proof.
  intro H. unfold times. cbn [mul round].
  rewrite (double_comp _ (inject_Z (a * b))) by (rewrite inject_Z_mult; reflexivity).
  apply double_integer, H.
Qed.


Lemma Qmax_0_integer (z : Z) :
  (0 <= z)%Z -> Qmax 0 (inject_Z z) = inject_Z z.
Proof.
  intro H. unfold Qmax, GenericMinMax.gmax.
  destruct (Qcompare_spec 0 (inject_Z z)) as [E|L|G]; try reflexivity.
  - assert (Z0 : z = 0%Z)
      by (symmetry; apply inject_Z_injective; exact E).
    rewrite Z0. reflexivity.
  - change 0 with (inject_Z 0) in G. rewrite <- Zlt_Qlt in G. lia.
Qed.

(** What [Math.max(0, v)] gives is [NaN] or not below zero. *)
Lemma max0_NaN_or_nonNegative (v : number) :
  max0 v = NaN \/ nonNegative (max0 v).
Proof.
  destruct v as [|x|[|]]; cbn; auto.
  - right. apply Q.le_max_l.
  - right. apply Qle_refl.
Qed.

End NumberFacts.

(** ** Text: trimming, splitting and runs of digits *)
Module TextLemmas.
Import JS AudioPlayer TextShape.
Local Open Scope string_scope.

Ltac each_char c := destruct c as [[] [] [] [] [] [] [] []].

(** A digit is not white space, not a colon, a comma, a dot or a sign, and
    not the first letter of [Infinity]. *)
Lemma digit_is_plain (c : ascii) :
  isDigit c = true ->
  isWhiteSpace c = false /\ Ascii.eqb c ":" = false /\
  Ascii.eqb c "," = false /\
  sign (String c EmptyString) = (false, String c EmptyString) /\
  Ascii.eqb "I" c = false.
Proof.
  each_char c; cbn; intro H; try discriminate H; repeat split.
Qed.

Lemma sign_digit (c : ascii) (rest : string) :
  isDigit c = true -> sign (String c rest) = (false, String c rest).
Proof. each_char c; cbn; intro H; try discriminate H; reflexivity. Qed.

Lemma append_empty (s : string) : s ++ "" = s.
Proof. induction s as [|c s IH]; cbn; [reflexivity|rewrite IH; reflexivity]. Qed.

Lemma every_app (test : ascii -> bool) (a b : string) :
  every test (a ++ b) = every test a && every test b.
Proof.
  induction a as [|c a IH]; cbn; [reflexivity|].
  rewrite IH. apply andb_assoc.
Qed.

Lemma every_weaken (p q : ascii -> bool) (s : string) :
  (forall c, p c = true -> q c = true) ->
  every p s = true -> every q s = true.
Proof.
  intro H. induction s as [|c s IH]; cbn; [reflexivity|].
  intro E. apply andb_true_iff in E. destruct E as [E1 E2].
  rewrite (H c E1), (IH E2). reflexivity.
Qed.

(** *** Trimming *)

Lemma trimStart_blank_app (pad s : string) :
  blank pad -> trimStart (pad ++ s) = trimStart s.
Proof.
  unfold blank. induction pad as [|c pad IH]; cbn; [reflexivity|].
  intro E. apply andb_true_iff in E. destruct E as [E1 E2].
  rewrite E1. apply IH, E2.
Qed.

Lemma trimEnd_blank (pad : string) : blank pad -> trimEnd pad = "".
Proof.
  unfold blank. induction pad as [|c pad IH]; cbn; [reflexivity|].
  intro E. apply andb_true_iff in E. destruct E as [E1 E2].
  rewrite (IH E2), E1. reflexivity.
Qed.

Lemma trimEnd_app_blank (s pad : string) :
  blank pad -> trimEnd (s ++ pad) = trimEnd s.
Proof.
  intro Hb. induction s as [|c s IH]; cbn.
  - apply trimEnd_blank, Hb.
  - rewrite IH. reflexivity.
Qed.

Lemma trimStart_blank (pad : string) : blank pad -> trimStart pad = "".
Proof.
  intro H. rewrite <- (append_empty pad), trimStart_blank_app by exact H.
  reflexivity.
Qed.

Lemma trim_app_blank (s pad : string) :
  blank pad -> trim (s ++ pad) = trim s.
Proof.
  intro Hb. unfold trim. induction s as [|c s IH]; cbn.
  - rewrite (trimStart_blank pad Hb). reflexivity.
  - destruct (isWhiteSpace c); [exact IH|].
    exact (trimEnd_app_blank (String c s) pad Hb).
Qed.

(** *** Well-formed input *)

Lemma digit_plain (c : ascii) : isDigit c = true -> plain c = true.
Proof.
  intro H. destruct (digit_is_plain c H) as (H1 & H2 & H3 & _).
  unfold plain. rewrite H1, H2, H3. reflexivity.
Qed.

Lemma digits_plain (s : string) :
  every isDigit s = true -> every plain s = true.
Proof. apply every_weaken, digit_plain. Qed.

Lemma plain_parts (c : ascii) :
  plain c = true ->
  isWhiteSpace c = false /\ Ascii.eqb c ":" = false /\ Ascii.eqb c "," = false.
Proof.
  unfold plain. intro H.
  apply andb_true_iff in H. destruct H as [H H3].
  apply andb_true_iff in H. destruct H as [H1 H2].
  apply negb_true_iff in H1, H2, H3. auto.
Qed.

(** Text without white space is its own trim. *)
Lemma trim_no_space (s : string) :
  every (fun c => negb (isWhiteSpace c)) s = true -> trim s = s.
Proof.
  intro H. unfold trim.
  assert (E1 : trimStart s = s).
  { destruct s as [|c s]; [reflexivity|]. cbn in *.
    apply andb_true_iff in H. destruct H as [H _].
    apply negb_true_iff in H. rewrite H. reflexivity. }
  rewrite E1. clear E1.
  induction s as [|c s IH]; [reflexivity|]. cbn in *.
  apply andb_true_iff in H. destruct H as [H1 H2].
  apply negb_true_iff in H1. rewrite (IH H2), H1.
  destruct s; reflexivity.
Qed.

Lemma split_plain (s : string) :
  every plain s = true -> split ":" s = [s].
Proof.
  induction s as [|c s IH]; cbn; [reflexivity|].
  intro H. apply andb_true_iff in H. destruct H as [H1 H2].
  destruct (plain_parts c H1) as (_ & Hc & _). rewrite Hc, (IH H2).
  reflexivity.
Qed.

Lemma split_plain_colon (a rest : string) :
  every plain a = true ->
  split ":" (a ++ ":" ++ rest) = a :: split ":" rest.
Proof.
  induction a as [|c a IH]; cbn; [reflexivity|].
  intro H. apply andb_true_iff in H. destruct H as [H1 H2].
  destruct (plain_parts c H1) as (_ & Hc & _). rewrite Hc.
  cbn in IH. rewrite (IH H2). reflexivity.
Qed.

Lemma replace_plain (s : string) :
  every plain s = true -> replace "," "." s = s.
Proof.
  induction s as [|c s IH]; cbn; [reflexivity|].
  intro H. apply andb_true_iff in H. destruct H as [H1 H2].
  destruct (plain_parts c H1) as (_ & _ & Hc). rewrite Hc, (IH H2).
  reflexivity.
Qed.

Lemma replace_plain_comma (a rest : string) :
  every plain a = true ->
  replace "," "." (a ++ "," ++ rest) = a ++ "." ++ rest.
Proof.
  induction a as [|c a IH]; cbn; [reflexivity|].
  intro H. apply andb_true_iff in H. destruct H as [H1 H2].
  destruct (plain_parts c H1) as (_ & _ & Hc). rewrite Hc.
  cbn in IH. rewrite (IH H2). reflexivity.
Qed.

Lemma spanDigits_digits (s : string) :
  every isDigit s = true -> spanDigits s = (s, "").
Proof.
  induction s as [|c s IH]; cbn; [reflexivity|].
  intro H. apply andb_true_iff in H. destruct H as [H1 H2].
  rewrite H1, (IH H2). reflexivity.
Qed.

Lemma digitsValue_nonneg (s : string) (acc : Z) :
  (0 <= acc)%Z -> (0 <= digitsValue acc s)%Z.
Proof.
  revert acc. induction s as [|c s IH]; intros acc H; cbn [digitsValue];
    [exact H|].
  apply IH. lia.
Qed.


Lemma no_space_of_plain (s : string) :
  every plain s = true -> every (fun c => negb (isWhiteSpace c)) s = true.
Proof.
  apply every_weaken. intros c Hc.
  destruct (plain_parts c Hc) as (Hw & _). rewrite Hw. reflexivity.
Qed.

Lemma not_empty_colon (a b : string) : isEmpty (a ++ ":" ++ b) = false.
Proof. destruct a; reflexivity. Qed.

(** What follows a run of digits, when it does not start with a digit, is
    what [spanDigits] leaves. *)
Lemma spanDigits_app (ds rest : string) :
  every isDigit ds = true ->
  match rest with String c _ => isDigit c = false | EmptyString => True end ->
  spanDigits (ds ++ rest) = (ds, rest).
Proof.
  intros Hd Hr. induction ds as [|c ds IH]; cbn.
  - destruct rest as [|c rest]; [reflexivity|]. cbn. rewrite Hr. reflexivity.
  - cbn in Hd. apply andb_true_iff in Hd. destruct Hd as [H1 H2].
    rewrite H1, (IH H2). reflexivity.
Qed.

Lemma prefix_Infinity_digit (c : ascii) (rest : string) :
  isDigit c = true -> prefix "Infinity" (String c rest) = false.
Proof.
  intro H. destruct (digit_is_plain c H) as (_ & _ & _ & _ & HI).
  cbn [prefix]. destruct (ascii_dec "I" c) as [<-|_]; [discriminate HI|].
  reflexivity.
Qed.

Lemma digits_cons (s : string) :
  digits s -> exists c rest, s = String c rest /\ isDigit c = true.
Proof.
  intros [Hne Hd]. destruct s as [|c rest]; [congruence|].
  cbn in Hd. apply andb_true_iff in Hd. destruct Hd as [Hc _].
  exists c, rest. split; [reflexivity|exact Hc].
Qed.

Lemma trimStart_digits (s rest : string) :
  digits s -> trimStart (s ++ rest) = s ++ rest.
Proof.
  intro H. destruct (digits_cons s H) as (c & r & -> & Hc).
  destruct (digit_is_plain c Hc) as (Hw & _). cbn. rewrite Hw. reflexivity.
Qed.

Lemma sign_digits (s rest : string) :
  digits s -> sign (s ++ rest) = (false, s ++ rest).
Proof.
  intro H. destruct (digits_cons s H) as (c & r & -> & Hc).
  exact (sign_digit c (r ++ rest) Hc).
Qed.

Lemma isEmpty_digits (s : string) : digits s -> isEmpty s = false.
Proof. intros [Hne _]. destruct s; [congruence|reflexivity]. Qed.

(** [parseInt] of digits, with a sign or not, and with anything after them
    that does not start with a digit. *)
Lemma parseInt_digits_app (s rest : string) :
  digits s ->
  match rest with String c _ => isDigit c = false | EmptyString => True end ->
  parseInt (s ++ rest) = double (valueOf s).
Proof.
  intros Hs Hr. unfold parseInt.
  rewrite (trimStart_digits s rest Hs), (sign_digits s rest Hs).
  rewrite (spanDigits_app s rest (proj2 Hs) Hr), (isEmpty_digits s Hs).
  reflexivity.
Qed.

Lemma parseInt_digits (s : string) :
  digits s -> parseInt s = double (valueOf s).
Proof.
  intro Hs. rewrite <- (append_empty s) at 1.
  apply (parseInt_digits_app s "" Hs I).
Qed.


Lemma ends_parts (c : ascii) :
  ends c = true ->
  isDigit c = false /\ Ascii.eqb c "." = false /\
  Ascii.eqb c "e" = false /\ Ascii.eqb c "E" = false.
Proof.
  unfold ends. intro H.
  apply andb_true_iff in H. destruct H as [H H4].
  apply andb_true_iff in H. destruct H as [H H3].
  apply andb_true_iff in H. destruct H as [H1 H2].
  apply negb_true_iff in H1, H2, H3, H4. auto.
Qed.

(** The decimal literal [parseFloat] reads from digits followed by text at
    which a number ends. *)
Lemma parseFloat_after (neg : bool) (s rest : string) :
  digits s ->
  match rest with String c _ => ends c = true | EmptyString => True end ->
  (let (ip, r1) := spanDigits (s ++ rest) in
   let (fp, r2) :=
     match r1 with
     | String "."%char r' => spanDigits r'
     | _ => (EmptyString, r1)
     end in
   if isEmpty ip && isEmpty fp then NaN
   else
     let mantissa :=
       inject_Z (digitsValue 0 (ip ++ fp))
       / inject_Z (10 ^ Z.of_nat (String.length fp)) in
     let v := mantissa * Qpower 10 (exponent r2) in
     double (if neg then - v else v))
  = double (if neg then - valueOf s else valueOf s).
Proof.
  intros Hs Hr.
  assert (Hr' : match rest with
                | String c _ => isDigit c = false
                | EmptyString => True
                end).
  { destruct rest as [|c rest]; [exact I|]. apply (ends_parts c Hr). }
  rewrite (spanDigits_app s rest (proj2 Hs) Hr').
  assert (E : match rest with
              | String "."%char r' => spanDigits r'
              | _ => (EmptyString, rest)
              end = (EmptyString, rest)).
  { destruct rest as [|c rest]; [reflexivity|].
    destruct (ends_parts c Hr) as (_ & Hdot & _).
    destruct (Ascii.eqb_spec c "."%char) as [->|Hne]; [discriminate Hdot|].
    each_char c; try reflexivity. exfalso. apply Hne. reflexivity. }
  rewrite E. rewrite (isEmpty_digits s Hs). cbn [andb String.length].
  rewrite append_empty.
  assert (X : exponent rest = 0%Z).
  { destruct rest as [|c rest]; [reflexivity|].
    destruct (ends_parts c Hr) as (_ & _ & He & HE).
    cbn [exponent]. rewrite He, HE. reflexivity. }
  rewrite X. apply NumberFacts.double_comp.
  unfold valueOf. change (Qpower 10 0) with 1.
  change (inject_Z (10 ^ Z.of_nat 0)) with 1.
  destruct neg; field.
Qed.

Lemma parseFloat_digits_app (s rest : string) :
  digits s ->
  match rest with String c _ => ends c = true | EmptyString => True end ->
  parseFloat (s ++ rest) = double (valueOf s).
Proof.
  intros Hs Hr. unfold parseFloat.
  rewrite (trimStart_digits s rest Hs), (sign_digits s rest Hs).
  destruct (digits_cons s Hs) as (c & r & E & Hc).
  assert (P : prefix "Infinity" (s ++ rest) = false)
    by (rewrite E; apply (prefix_Infinity_digit c (r ++ rest) Hc)).
  rewrite P. exact (parseFloat_after false s rest Hs Hr).
Qed.

Lemma parseFloat_digits (s : string) :
  digits s -> parseFloat s = double (valueOf s).
Proof.
  intro Hs. rewrite <- (append_empty s) at 1.
  apply (parseFloat_digits_app s "" Hs I).
Qed.


Lemma valueOf_integer (s : string) : valueOf s = inject_Z (digitsValue 0 s).
Proof. reflexivity. Qed.

End TextLemmas.
(** ** The "go to" text: [parseTimeInput] *)
Module ParseFacts.
Import JS AudioPlayer TextShape TextLemmas.
Local Open Scope string_scope.

Lemma trimStart_replace (s : string) :
  trimStart (replace "," "." s) = replace "," "." (trimStart s).
Proof.
  induction s as [|c rest IH]; [reflexivity|].
  cbn [replace trimStart].
  destruct (Ascii.eqb_spec c ","%char) as [->|Hne].
  - reflexivity.
  - cbn [trimStart]. destruct (isWhiteSpace c); [exact IH|].
    cbn [replace]. destruct (Ascii.eqb_spec c ","%char); [contradiction|reflexivity].
Qed.

Lemma sign_replace (s : string) :
  sign (replace "," "." s) = (fst (sign s), replace "," "." (snd (sign s))).
Proof.
  destruct s as [|c rest]; [reflexivity|]. each_char c; reflexivity.
Qed.

Lemma spanDigits_isEmpty (r : string) :
  isEmpty (fst (spanDigits r))
  = negb match r with String c _ => isDigit c | EmptyString => false end.
Proof.
  destruct r as [|c rest]; [reflexivity|]. cbn [spanDigits].
  destruct (isDigit c); [|reflexivity].
  destruct (spanDigits rest). reflexivity.
Qed.

(** [parseInt] gives [NaN] exactly when no digit follows the white space
    and the sign. *)
Lemma isNaN_parseInt (p : string) :
  isNaN (parseInt p) = negb (startsInteger p).
Proof.
  unfold parseInt, startsInteger.
  destruct (sign (trimStart p)) as [neg r]. cbn [snd].
  pose proof (spanDigits_isEmpty r) as E.
  destruct (spanDigits r) as [ds r']. cbn [fst] in E. rewrite E.
  destruct r as [|c rest]; [reflexivity|].
  destruct (isDigit c); [|reflexivity]. cbn [negb].
  destruct (double _) eqn:D; try reflexivity.
  exfalso. exact (NumberFacts.double_not_NaN _ D).
Qed.

(** [parseFloat] gives [NaN] exactly when neither [Infinity], nor a digit,
    nor a point and a digit follow the white space and the sign. *)
Lemma isNaN_parseFloat (p : string) :
  isNaN (parseFloat p) = negb (startsDecimal p).
Proof.
  unfold parseFloat, startsDecimal.
  destruct (sign (trimStart p)) as [neg r]. cbn [snd].
  destruct (prefix "Infinity" r); [reflexivity|]. cbn [orb].
  assert (D : forall q, isNaN (double q) = false).
  { intro q. destruct (double q) eqn:D; try reflexivity.
    exfalso. exact (NumberFacts.double_not_NaN _ D). }
  destruct r as [|c rest]; [reflexivity|].
  cbn [spanDigits]. destruct (isDigit c) eqn:Hc.
  - destruct (spanDigits rest) as [ds r1].
    destruct (match r1 with String "."%char r' => spanDigits r' | _ => (EmptyString, r1) end)
      as [fp r2].
    cbn [isEmpty andb orb negb]. apply D.
  - cbn [orb]. destruct (Ascii.eqb_spec c "."%char) as [->|Hne].
    + pose proof (spanDigits_isEmpty rest) as E.
      destruct (spanDigits rest) as [fp r2]. cbn [fst] in E.
      cbn [isEmpty andb]. rewrite E.
      destruct rest as [|c' rest']; [reflexivity|].
      destruct (isDigit c'); [|reflexivity]. cbn [negb]. apply D.
    + assert (E : match c with
                  | "."%char => spanDigits rest
                  | _ => (EmptyString, String c rest)
                  end = (EmptyString, String c rest)).
      { each_char c; try reflexivity. exfalso. apply Hne. reflexivity. }
      rewrite E. reflexivity.
Qed.

(** A component that starts as an integer starts as a decimal, also once
    its first comma is a point. *)
Lemma startsInteger_startsDecimal (p : string) :
  startsInteger p = true -> startsDecimal (replace "," "." p) = true.
Proof.
  unfold startsInteger, startsDecimal.
  rewrite trimStart_replace, sign_replace. cbn [snd].
  destruct (snd (sign (trimStart p))) as [|c rest]; [discriminate|].
  intro Hc. destruct (digit_is_plain c Hc) as (_ & _ & Hcomma & _).
  cbn [replace]. rewrite Hcomma, Hc. apply orb_true_r.
Qed.

(** A component that [parseFloat] rejects once its comma is a dot is also
    rejected by [parseInt]. *)
Lemma parseFloat_NaN_parseInt_NaN (p : string) :
  parseFloat (replace "," "." p) = NaN -> parseInt p = NaN.
Proof.
  intro H.
  assert (F : isNaN (parseFloat (replace "," "." p)) = true)
    by (rewrite H; reflexivity).
  rewrite isNaN_parseFloat in F. apply negb_true_iff in F.
  assert (G : isNaN (parseInt p) = true).
  { rewrite isNaN_parseInt. apply negb_true_iff.
    destruct (startsInteger p) eqn:E; [|reflexivity].
    rewrite (startsInteger_startsDecimal p E) in F. discriminate F. }
  destruct (parseInt p); try discriminate G. reflexivity.
Qed.


(** Every result is [NaN] or a number that is not below zero. *)
Lemma parseTimeInput_NaN_or_nonNegative (input : string) (v : number) :
  parseTimeInput input = Some v -> v = NaN \/ nonNegative v.
Proof.
  unfold parseTimeInput. destruct (isEmpty (trim input)); [discriminate|].
  destruct (split ":" (trim input)) as [|p0 [|p1 [|p2 [|p3 l]]]];
    try discriminate;
    match goal with
    | |- (if ?b then _ else _) = _ -> _ => destruct b; [discriminate|]
    end;
    intros [= <-]; apply NumberFacts.max0_NaN_or_nonNegative.
Qed.
















End ParseFacts.

(** ** The cut points of [Waveform.tsx]: sorting and click dispatch *)
Module CutPointFacts.
Import JS Waveform.

Lemma insertByTime_perm (p : CutPoint) (l : list CutPoint) :
  Permutation (p :: l) (insertByTime p l).
Proof.
  induction l as [|q rest IH]; cbn; [reflexivity|].
  destruct (Qle_bool (time p) (time q)); [reflexivity|].
  rewrite perm_swap. apply perm_skip. exact IH.
Qed.

(** Sorting neither drops nor duplicates nor changes a cut point. *)
Lemma sortByTime_perm (l : list CutPoint) : Permutation l (sortByTime l).
Proof.
  induction l as [|p rest IH]; cbn; [reflexivity|].
  rewrite <- insertByTime_perm. apply perm_skip. exact IH.
Qed.

Lemma insertByTime_sorted (p : CutPoint) (l : list CutPoint) :
  StronglySorted byTime l -> StronglySorted byTime (insertByTime p l).
Proof.
  induction 1 as [|q rest Hs IH Hall]; cbn.
  - constructor; constructor.
  - destruct (Qle_bool (time p) (time q)) eqn:E.
    + apply Qle_bool_iff in E. constructor.
      * constructor; assumption.
      * constructor; [exact E|].
        eapply Forall_impl; [|exact Hall].
        intros r Hr. unfold byTime in *. eapply Qle_trans; eassumption.
    + apply Qle_bool_false in E. constructor; [exact IH|].
      rewrite <- (insertByTime_perm p rest).
      constructor; [|exact Hall]. unfold byTime. apply Qlt_le_weak. exact E.
Qed.

Lemma sortByTime_sorted (l : list CutPoint) :
  StronglySorted byTime (sortByTime l).
Proof.
  induction l as [|p rest IH]; cbn; [constructor|].
  apply insertByTime_sorted. exact IH.
Qed.

Lemma insertByTime_stable (t : Q) (p : CutPoint) (l : list CutPoint) :
  filter (fun p => Qeq_bool (time p) t) (insertByTime p l)
  = filter (fun p => Qeq_bool (time p) t) (p :: l).
Proof.
  induction l as [|q l IH]; [reflexivity|].
  cbn [insertByTime].
  destruct (Qle_bool (time p) (time q)) eqn:E; [reflexivity|].
  apply Qle_bool_false in E.
  cbn [filter] in *. rewrite IH.
  destruct (Qeq_bool (time p) t) eqn:Ep; [|reflexivity].
  destruct (Qeq_bool (time q) t) eqn:Eq; [|reflexivity].
  apply Qeq_bool_iff in Ep, Eq. rewrite Ep, Eq in E.
  exfalso. exact (Qlt_irrefl _ E).
Qed.

(** The sort is stable: cut points of one time keep their order. *)
Lemma sortByTime_stable (t : Q) (l : list CutPoint) :
  filter (fun p => Qeq_bool (time p) t) (sortByTime l)
  = filter (fun p => Qeq_bool (time p) t) l.
Proof.
  induction l as [|p rest IH]; [reflexivity|].
  cbn [sortByTime]. rewrite insertByTime_stable.
  cbn [filter]. rewrite IH. reflexivity.
Qed.

Lemma presented_is_sorted_array (l : list CutPoint) :
  presented l = sortByTime l /\ arrayAfterRender l = sortByTime l.
Proof.
  unfold presented, arrayAfterRender, renderCutPoints.
  destruct l as [|p rest]; [split; reflexivity|].
  cbn [fst snd]. split; [|reflexivity].
  generalize (sortByTime (p :: rest)) as m. intro m. generalize 1%nat as k.
  induction m as [|x m IH]; intro k; cbn; [reflexivity|].
  f_equal. apply IH.
Qed.

(** [find] returns the first element that passes the test. *)
Lemma find_first {A : Type} (f : A -> bool) (l : list A) (x : A) :
  find f l = Some x ->
  f x = true /\
  exists before after,
    l = before ++ x :: after /\ Forall (fun y => f y = false) before.
Proof.
  induction l as [|y rest IH]; cbn; [discriminate|].
  destruct (f y) eqn:E.
  - intros [= ->]. split; [exact E|]. exists [], rest. split; [reflexivity|constructor].
  - intro H. destruct (IH H) as (Hx & before & after & -> & Hall).
    split; [exact Hx|]. exists (y :: before), after.
    split; [reflexivity|]. constructor; assumption.
Qed.

Lemma find_nothing {A : Type} (f : A -> bool) (l : list A) :
  find f l = None -> Forall (fun y => f y = false) l.
Proof.
  induction l as [|y rest IH]; cbn; [constructor|].
  destruct (f y) eqn:E; [discriminate|]. intro H. constructor; auto.
Qed.

Section Click.

Variable buffer : AudioBuffer.
Variables zoomLevel containerWidth : Q.
Variable container : option Container.

Local Abbreviation near x := (nearClick (Some buffer) zoomLevel containerWidth x).
Local Abbreviation click :=
  (handleCanvasClick (Some buffer) zoomLevel containerWidth container).

(** C7.  The rows are shown ascending by time, and the array the click
    handler searches is in that same order.  A click at canvas position [x]
    tests each cut point for [|timeToX(time) - x| < 10]; if some cut point
    passes, [onRemoveCutPoint] is called with the id of the first one in the
    order shown.  Otherwise [onAddCutPoint] is called with the time of [x]:
    [x / canvasWidth * duration], clamped to [0, duration], which is the
    time that [timeToX] maps back to [x] when [x] lies on the canvas, the
    start for an [x] left of it and the end for an [x] right of it; on a
    buffer without duration the time is 0. *)
Theorem click_removes_first_hit_or_adds
    (cutPoints : list CutPoint) (clientX : Q) :
  let x := getCanvasX container clientX in
  let width := inject_Z (canvasWidth zoomLevel containerWidth) in
  let shown := presented cutPoints in
  arrayAfterRender cutPoints = shown /\
  StronglySorted byTime shown /\
  Permutation cutPoints shown /\
  (forall p,
     near x p = true <->
     Qabs (timeToX (Some buffer) zoomLevel containerWidth (time p) - x) < 10) /\
  match find (near x) shown with
  | Some p =>
      click (arrayAfterRender cutPoints) clientX
        = Some (onRemoveCutPoint (id p)) /\
      In p cutPoints /\ near x p = true /\
      exists before after,
        shown = before ++ p :: after /\
        Forall (fun q => near x q = false) before
  | None =>
      Forall (fun q => near x q = false) cutPoints /\
      exists t,
        click (arrayAfterRender cutPoints) clientX = Some (onAddCutPoint t) /\
        (bufferDuration buffer <= 0 -> t = 0) /\
        (0 < bufferDuration buffer ->
           t = Qmax 0 (Qmin (bufferDuration buffer)
                            (x / width * bufferDuration buffer)) /\
           0 <= t <= bufferDuration buffer /\
           (0 <= x <= width ->
              t == x / width * bufferDuration buffer /\
              timeToX (Some buffer) zoomLevel containerWidth t == x) /\
           (x <= 0 -> t == 0) /\
           (width <= x -> t == bufferDuration buffer))
  end.
Proof.
  intros x width shown.
  destruct (presented_is_sorted_array cutPoints) as [Hp Ha].
  fold shown in Hp.
  split; [congruence|].
  split; [rewrite Hp; apply sortByTime_sorted|].
  split; [rewrite Hp; apply sortByTime_perm|].
  split; [intro p; unfold nearClick; apply Qltb_true|].
  unfold handleCanvasClick. fold x. rewrite Ha, <- Hp.
  destruct (find (near x) shown) as [p|] eqn:E.
  - destruct (find_first _ _ _ E) as (Hhit & before & after & Hsplit & Hall).
    split; [reflexivity|]. split; [|split; [exact Hhit|eauto]].
    apply (Permutation_in p (Permutation_sym (sortByTime_perm cutPoints))).
    rewrite <- Hp, Hsplit. apply in_elt.
  - split.
    { apply find_nothing in E. rewrite Forall_forall in *.
      intros q Hq. apply E. rewrite Hp.
      apply (Permutation_in q (sortByTime_perm cutPoints)). exact Hq. }
    eexists. split; [reflexivity|].
    unfold clientXToTime, timeToX, duration. fold x. fold width.
    assert (W : 1 <= width).
    { unfold width, canvasWidth. change 1 with (inject_Z 1).
      rewrite <- Zle_Qle. apply Z.le_max_l. }
    clear E Hp Ha. clearbody width x.
    generalize (bufferDuration buffer). intro d.
    split.
    + intro Hd. apply Qle_bool_iff in Hd. rewrite Hd. reflexivity.
    + intro Hd. pose proof Hd as Hd'. apply Qle_bool_false in Hd'.
      rewrite Hd'. pose proof Hd as Hd''. apply Qltb_true in Hd''.
      rewrite Hd''. split; [reflexivity|].
      assert (Hs : forall y, 0 <= y -> 0 <= y / width * d).
      { intros y Hy. apply Qmult_le_0_compat; [|lra].
        apply Qle_shift_div_l; lra. }
      assert (Hneg : x <= 0 -> x / width * d <= 0).
      { intro H0. assert (K : 0 <= (- x) / width * d)
          by (apply Hs; lra).
        assert (K' : (- x) / width * d == - (x / width * d))
          by (field; lra).
        lra. }
      assert (Hin : 0 <= x <= width -> 0 <= x / width * d <= d).
      { intros [H0 H1]. split; [apply Hs, H0|].
        assert (K : 0 <= (width - x) / width * d) by (apply Hs; lra).
        assert (K' : (width - x) / width * d == d - x / width * d)
          by (field; lra).
        lra. }
      assert (Hbig : width <= x -> d <= x / width * d).
      { intro H1. assert (K : 0 <= (x - width) / width * d)
          by (apply Hs; lra).
        assert (K' : (x - width) / width * d == x / width * d - d)
          by (field; lra).
        lra. }
      assert (Hback : x / width * d / d * width == x) by (field; lra).
      clear Hs. revert Hneg Hin Hbig Hback.
      generalize (x / width * d). intros u Hneg Hin Hbig Hback.
      split; [minmax; lra|]. split; [|split].
      * intro Hr. specialize (Hin Hr).
        assert (Eu : Qmax 0 (Qmin d u) == u) by (minmax; lra).
        split; [exact Eu|]. rewrite Eu. exact Hback.
      * intro H0. specialize (Hneg H0). minmax; lra.
      * intro H1. specialize (Hbig H1). minmax; lra.
Qed.

End Click.

Lemma click_removes_first_hit_or_adds_witness :
  let buffer := mkAudioBuffer 100 [] in
  let container := Some (mkContainer 0 0 200) in
  let cutPoints := [mkCutPoint "a" 50] in
  (0 < bufferDuration buffer /\
   0 <= getCanvasX container 40 <= inject_Z (canvasWidth 1 200)) /\
  exists t,
    handleCanvasClick (Some buffer) 1 200 container
      (arrayAfterRender cutPoints) 40 = Some (onAddCutPoint t) /\
    t == 20 /\ timeToX (Some buffer) 1 200 t == 40.
Proof.
  intros buffer container cutPoints.
  assert (H1 : 0 < bufferDuration buffer) by reflexivity.
  assert (H2 : 0 <= getCanvasX container 40 <= inject_Z (canvasWidth 1 200))
    by (split; vm_compute; discriminate).
  split; [exact (conj H1 H2)|].
  pose proof (click_removes_first_hit_or_adds buffer 1 200 container
                cutPoints 40) as H.
  cbv zeta in H. destruct H as (_ & _ & _ & _ & H).
  assert (E : find (nearClick (Some buffer) 1 200 (getCanvasX container 40))
                (presented cutPoints) = None) by reflexivity.
  rewrite E in H. destruct H as (_ & t & Ht & _ & H).
  destruct (H H1) as (_ & _ & Hin & _). destruct (Hin H2) as [Et Ex].
  exists t. split; [exact Ht|]. split; [|exact Ex].
  rewrite Et. vm_compute. reflexivity.
Defined.

(** C10 (the code departs from the claim).  Rendering the list of two cut
    points given as [a] at 5 s, then [b] at 2 s, leaves the array received as
    a prop in the order [b], [a]: the sort was done in place.  The same two
    cut points are still there, each with its id and time. *)
Theorem render_sorts_the_prop_array_in_place :
  let a := mkCutPoint "a" 5 in
  let b := mkCutPoint "b" 2 in
  arrayAfterRender [a; b] = [b; a] /\
  arrayAfterRender [a; b] <> [a; b] /\
  presented [a; b] = [b; a] /\
  Permutation [a; b] (arrayAfterRender [a; b]).
Proof.
  cbv zeta. split; [reflexivity|]. split; [discriminate|].
  split; [reflexivity|]. apply perm_swap.
Qed.

End CutPointFacts.

(** ** The waveform of [Waveform.tsx]: downsampling and geometry *)
Module WaveformFacts.
Import JS Waveform.

Lemma scanColumn_fold (data : list Q) (n idx : nat) (min max : Q) :
  scanColumn data idx n min max
  = foldMinMax (firstn n (skipn idx data)) min max.
Proof.
  revert idx min max. induction n as [|n IH]; intros idx min max.
  - reflexivity.
  - cbn [scanColumn]. destruct (nth_error data idx) as [datum|] eqn:E.
    + rewrite IH.
      assert (Hs : skipn idx data = datum :: skipn (S idx) data).
      { clear -E. revert idx E. induction data as [|x data IHd]; intros [|idx] E;
          cbn in *; try discriminate; [congruence|auto]. }
      rewrite Hs. reflexivity.
    + apply nth_error_None in E. rewrite skipn_all2 by exact E. reflexivity.
Qed.

(** The fold returns, as [min], a least element of the initial [min] and the
    samples, and as [max] a greatest element of the initial [max] and the
    samples. *)
Lemma foldMinMax_spec (samples : list Q) (min max : Q) :
  let (mn, mx) := foldMinMax samples min max in
  In mn (min :: samples) /\ (forall x, In x (min :: samples) -> mn <= x) /\
  In mx (max :: samples) /\ (forall x, In x (max :: samples) -> x <= mx).
Proof.
  unfold foldMinMax. revert min max.
  induction samples as [|d rest IH]; intros min max.
  - cbn. repeat split; auto; intros x [<-|[]]; apply Qle_refl.
  - cbn [fold_left fst snd].
    specialize (IH (if Qltb d min then d else min)
                   (if Qltb max d then d else max)).
    destruct (fold_left _ rest _) as [mn mx].
    destruct IH as (I1 & I2 & I3 & I4).
    assert (Hmin : (if Qltb d min then d else min) <= min
                   /\ (if Qltb d min then d else min) <= d).
    { destruct (Qltb d min) eqn:E.
      - apply Qltb_true in E. split; [apply Qlt_le_weak; exact E|apply Qle_refl].
      - apply Qltb_false in E. split; [apply Qle_refl|exact E]. }
    assert (Hmax : max <= (if Qltb max d then d else max)
                   /\ d <= (if Qltb max d then d else max)).
    { destruct (Qltb max d) eqn:E.
      - apply Qltb_true in E. split; [apply Qlt_le_weak; exact E|apply Qle_refl].
      - apply Qltb_false in E. split; [apply Qle_refl|exact E]. }
    repeat split.
    + destruct I1 as [<-|I1]; [|right; right; exact I1].
      destruct (Qltb d min); [right; left|left]; reflexivity.
    + intros x [<-|[<-|Hx]].
      * eapply Qle_trans; [apply I2; left; reflexivity|apply Hmin].
      * eapply Qle_trans; [apply I2; left; reflexivity|apply Hmin].
      * apply I2. right. exact Hx.
    + destruct I3 as [<-|I3]; [|right; right; exact I3].
      destruct (Qltb max d); [right; left|left]; reflexivity.
    + intros x [<-|[<-|Hx]].
      * eapply Qle_trans; [apply Hmax|apply I4; left; reflexivity].
      * eapply Qle_trans; [apply Hmax|apply I4; left; reflexivity].
      * apply I4. right. exact Hx.
Qed.

(** [columnSamples] is the window of the data that starts at [i * step] and
    has at most [step] samples. *)
Lemma columnSamples_nth (data : list Q) (step i j : nat) :
  nth_error (columnSamples data step i) j
  = if (j <? step)%nat then nth_error data (i * step + j) else None.
Proof.
  unfold columnSamples. destruct (Nat.ltb_spec j step) as [H|H].
  - rewrite nth_error_firstn. destruct (Nat.ltb_spec j step); [|lia].
    apply nth_error_skipn.
  - apply nth_error_None. rewrite length_firstn. lia.
Qed.

Lemma columnSamples_length (data : list Q) (step i : nat) :
  List.length (columnSamples data step i)
  = (Nat.min ((i + 1) * step) (List.length data)
     - Nat.min (i * step) (List.length data))%nat.
Proof.
  unfold columnSamples. rewrite length_firstn, length_skipn. lia.
Qed.

(** [Math.ceil(N / W)] for a positive width: the least [step] with
    [N <= step * W]. *)
Lemma stepOf_spec (data : list Q) (width : Z) :
  (0 < width)%Z ->
  let N := Z.of_nat (List.length data) in
  ((stepOf data width - 1) * width < N <= stepOf data width * width)%Z.
Proof.
  intros Hw N. unfold stepOf. fold N.
  set (x := inject_Z N / inject_Z width).
  assert (HW : inject_Z 0 < inject_Z width) by (rewrite <- Zlt_Qlt; exact Hw).
  change (inject_Z 0) with 0 in HW.
  assert (Hx : x * inject_Z width == inject_Z N).
  { unfold x. field. intro E. rewrite E in HW. exact (Qlt_irrefl _ HW). }
  pose proof (Qle_ceiling x) as Hup. pose proof (Qceiling_lt x) as Hlo.
  split.
  - rewrite Zlt_Qlt, inject_Z_mult. rewrite <- Hx.
    apply Qmult_lt_compat_r; assumption.
  - rewrite Zle_Qle, inject_Z_mult. rewrite <- Hx.
    apply Qmult_le_compat_r; [exact Hup|apply Qlt_le_weak; exact HW].
Qed.

Lemma canvasWidth_positive (zoomLevel containerWidth : Q) :
  (1 <= canvasWidth zoomLevel containerWidth)%Z.
Proof. unfold canvasWidth. apply Z.le_max_l. Qed.

(** C8, against the claim as stated.  Five samples on a canvas 4 pixels
    wide: the step is 2 and the last column has no sample.  It keeps
    [(min, max) = (1, -1)], which [draw] maps to the rows 128 and 0: a line
    over the whole height, not a flat one at the centre row 64. *)
Lemma empty_column_spans_full_height :
  let b := mkAudioBuffer 10 [1#2; -(1#2); 1#4; -(1#4); 3#4] in
  let data := channelData b in
  let step := Z.to_nat (stepOf data (canvasWidth 1 4)) in
  let amp := WAVEFORM_HEIGHT / 2 in
  canvasWidth 1 4 = 4%Z /\ step = 2%nat /\
  columnSamples data step 3 = [] /\
  columnMinMax data step 3 = (1, -(1)) /\
  ~ ((1 + fst (columnMinMax data step 3)) * amp == amp /\
     (1 + snd (columnMinMax data step 3)) * amp == amp) /\
  ~ (1 + fst (columnMinMax data step 3)) * amp
    == (1 + snd (columnMinMax data step 3)) * amp.
Proof.
  vm_compute. repeat split; try reflexivity.
  - intros [H _]. discriminate H.
  - discriminate.
Qed.

(** C8, amended.  With [N] samples and a canvas [W >= 1] pixels wide, [draw]
    uses [step = ceil(N / W)] and for each column [i] scans the samples of
    indices [i * step] up to [min((i + 1) * step, N)], starting from
    [min = 1] and [max = -1]: the recorded [min] is the least of 1 and the
    scanned samples, the recorded [max] the greatest of -1 and the scanned
    samples.  When the column has samples and they lie in [-1, 1], these are
    the minimum and the maximum of the samples.  A column without samples
    keeps [(1, -1)] and is drawn from row [height] to row 0, a line over the
    whole height.  An amplitude [a] is drawn at row [(1 + a) * height / 2]. *)
Theorem draw_downsamples_by_min_max
    (b : AudioBuffer) (zoomLevel containerWidth : Q) (i : nat) :
  0 < containerWidth ->
  let data := channelData b in
  let width := canvasWidth zoomLevel containerWidth in
  let step := stepOf data width in
  let amp := WAVEFORM_HEIGHT / 2 in
  let samples := columnSamples data (Z.to_nat step) i in
  let mn := fst (columnMinMax data (Z.to_nat step) i) in
  let mx := snd (columnMinMax data (Z.to_nat step) i) in
  ((step - 1) * width < Z.of_nat (List.length data) <= step * width)%Z /\
  draw (Some b) zoomLevel containerWidth
    = Some (fillRect 0 0 (inject_Z width) WAVEFORM_HEIGHT :: beginPath
            :: flat_map (drawColumn data (Z.to_nat step) amp)
                 (seq 0 (Z.to_nat width)) ++ [stroke]) /\
  drawColumn data (Z.to_nat step) amp i
    = [ (if Nat.eqb i 0 then moveTo else lineTo)
          (inject_Z (Z.of_nat i)) ((1 + mn) * amp);
        lineTo (inject_Z (Z.of_nat i)) ((1 + mx) * amp) ] /\
  (forall j, nth_error samples j
             = if (j <? Z.to_nat step)%nat
               then nth_error data (i * Z.to_nat step + j) else None) /\
  In mn (1 :: samples) /\ (forall x, In x (1 :: samples) -> mn <= x) /\
  In mx (-(1) :: samples) /\ (forall x, In x (-(1) :: samples) -> x <= mx) /\
  (samples = [] ->
     mn = 1 /\ mx = -(1) /\
     (1 + mn) * amp == WAVEFORM_HEIGHT /\ (1 + mx) * amp == 0) /\
  (samples <> [] -> (forall x, In x samples -> -(1) <= x <= 1) ->
     (exists y, In y samples /\ mn == y) /\
     (forall x, In x samples -> mn <= x) /\
     (exists y, In y samples /\ mx == y) /\
     (forall x, In x samples -> x <= mx)).
Proof.
  intros Hcw data width step amp samples mn mx.
  assert (Hw : (0 < width)%Z)
    by (pose proof (canvasWidth_positive zoomLevel containerWidth); unfold width; lia).
  pose proof (foldMinMax_spec samples 1 (-(1))) as Hspec.
  assert (Hcol : columnMinMax data (Z.to_nat step) i
                 = foldMinMax samples 1 (-(1)))
    by (unfold columnMinMax; apply scanColumn_fold).
  unfold mn, mx. rewrite Hcol.
  split; [apply stepOf_spec; exact Hw|].
  split.
  { unfold draw. apply Qle_bool_false in Hcw. rewrite Hcw. reflexivity. }
  split.
  { unfold drawColumn. rewrite Hcol.
    destruct (foldMinMax samples 1 (-(1))) as [a c]. cbn [fst snd].
    destruct (Nat.eqb i 0); reflexivity. }
  split; [intro j; apply columnSamples_nth|].
  destruct (foldMinMax samples 1 (-(1))) as [a c] eqn:Ef. cbn [fst snd].
  destruct Hspec as (S1 & S2 & S3 & S4).
  split; [exact S1|]. split; [exact S2|]. split; [exact S3|].
  split; [exact S4|]. split.
  - intro He. rewrite He in Ef. cbn in Ef. injection Ef as <- <-.
    repeat split; vm_compute; reflexivity.
  - intros Hne Hrange.
    destruct samples as [|y0 rest] eqn:Es; [congruence|].
    split; [|split; [|split]].
    + destruct S1 as [<-|S1]; [|exists a; split; [exact S1|reflexivity]].
      exists y0. split; [left; reflexivity|].
      apply Qle_antisym; [apply S2; right; left; reflexivity|].
      apply Hrange. left. reflexivity.
    + intros x Hx. apply S2. right. exact Hx.
    + destruct S3 as [<-|S3]; [|exists c; split; [exact S3|reflexivity]].
      exists y0. split; [left; reflexivity|].
      apply Qle_antisym; [apply Hrange; left; reflexivity|].
      apply S4. right. left. reflexivity.
    + intros x Hx. apply S4. right. exact Hx.
Qed.

Lemma draw_downsamples_by_min_max_witness :
  let b := mkAudioBuffer 10 [1#2; -(1#2); 1#4; -(1#4); 3#4] in
  let data := channelData b in
  (0 < 4 /\ columnSamples data 2 0 <> []
   /\ (forall x, In x (columnSamples data 2 0) -> -(1) <= x <= 1)
   /\ columnSamples data 2 3 = []) /\
  (forall x, In x (columnSamples data 2 0)
     -> fst (columnMinMax data 2 0) <= x) /\
  fst (columnMinMax data 2 3) = 1 /\ snd (columnMinMax data 2 3) = -(1).
Proof.
  intros b data.
  assert (H0 : 0 < 4) by reflexivity.
  assert (H1 : columnSamples data 2 0 <> []) by discriminate.
  assert (H2 : forall x, In x (columnSamples data 2 0) -> -(1) <= x <= 1).
  { intros x [<-|[<-|[]]]; split; vm_compute; discriminate. }
  assert (H3 : columnSamples data 2 3 = []) by reflexivity.
  split; [exact (conj H0 (conj H1 (conj H2 H3)))|].
  destruct (draw_downsamples_by_min_max b 1 4 0 H0)
    as (_ & _ & _ & _ & _ & _ & _ & _ & _ & A).
  destruct (A H1 H2) as (_ & A2 & _).
  destruct (draw_downsamples_by_min_max b 1 4 3 H0)
    as (_ & _ & _ & _ & _ & _ & _ & _ & B & _).
  destruct (B H3) as (B1 & B2 & _).
  split; [exact A2|]. split; [exact B1|exact B2].
Defined.

(** C9.  [timeToX(t)] is [(t / duration) * canvasWidth], and 0 when the
    duration is not positive; the time of a canvas position [x] is
    [(x / canvasWidth) * duration] clamped to [0, duration].  For a positive
    duration and [t] in [0, duration], the time of the position
    [timeToX(t)] is [t] again, hence within the time one pixel stands for. *)
Theorem time_pixel_round_trip
    (b : AudioBuffer) (zoomLevel containerWidth : Q) (c : Container) (t : Q) :
  let ab := Some b in
  let d := bufferDuration b in
  let W := inject_Z (canvasWidth zoomLevel containerWidth) in
  let toX := timeToX ab zoomLevel containerWidth in
  let toTime := clientXToTime ab zoomLevel containerWidth (Some c) in
  (d <= 0 -> toX t = 0) /\
  (0 < d ->
     toX t = (t / d) * W /\
     (forall clientX,
        toTime clientX
          = Qmax 0 (Qmin d ((getCanvasX (Some c) clientX / W) * d)) /\
        0 <= toTime clientX <= d) /\
     (0 <= t <= d ->
        let clientX := toX t + rectLeft c - scrollLeft c in
        getCanvasX (Some c) clientX == toX t /\
        toTime clientX == t /\
        Qabs (toTime clientX - t) <= d / W)).
Proof.
  intros ab d W toX toTime.
  assert (HW : 0 < W).
  { unfold W. change 0 with (inject_Z 0). rewrite <- Zlt_Qlt.
    pose proof (canvasWidth_positive zoomLevel containerWidth). lia. }
  split.
  - intro Hd. unfold toX, timeToX. cbn [duration ab].
    apply Qltb_false in Hd. fold d. rewrite Hd. reflexivity.
  - intro Hd.
    assert (EtoX : toX t = (t / d) * W).
    { unfold toX, timeToX. cbn [duration ab]. fold d.
      rewrite (proj2 (Qltb_true 0 d) Hd). reflexivity. }
    assert (EtoTime : forall clientX,
              toTime clientX
              = Qmax 0 (Qmin d ((getCanvasX (Some c) clientX / W) * d))).
    { intro clientX. unfold toTime, clientXToTime. cbn [duration ab]. fold d.
      rewrite (proj2 (Qle_bool_false d 0) Hd). reflexivity. }
    split; [exact EtoX|]. split.
    + intro clientX. split; [apply EtoTime|]. rewrite EtoTime.
      minmax; lra.
    + intros [Ht0 Ht1] clientX.
      assert (Ex : getCanvasX (Some c) clientX == toX t).
      { unfold clientX, getCanvasX. ring. }
      assert (Eback : (getCanvasX (Some c) clientX / W) * d == t).
      { rewrite Ex, EtoX. field. split; intro E; lra. }
      assert (Et : toTime clientX == t).
      { rewrite EtoTime. revert Eback.
        generalize ((getCanvasX (Some c) clientX / W) * d). intros u Eu.
        minmax; lra. }
      split; [exact Ex|]. split; [exact Et|].
      rewrite Et.
      assert (E0 : t - t == 0) by ring. rewrite E0. change (Qabs 0) with 0.
      apply Qlt_le_weak. apply Qlt_shift_div_l; [exact HW|]. lra.
Qed.

Lemma time_pixel_round_trip_witness :
  let b := mkAudioBuffer 100 [] in
  let c := mkContainer 20 300 500 in
  (0 < bufferDuration b /\ 0 <= 50 <= bufferDuration b) /\
  canvasWidth 2 500 = 1000%Z /\
  timeToX (Some b) 2 500 50 == 500 /\
  clientXToTime (Some b) 2 500 (Some c)
    (timeToX (Some b) 2 500 50 + rectLeft c - scrollLeft c) == 50.
Proof.
  intros b c.
  assert (Hd : 0 < bufferDuration b) by reflexivity.
  assert (Ht : 0 <= 50 <= bufferDuration b)
    by (split; vm_compute; discriminate).
  split; [exact (conj Hd Ht)|].
  split; [reflexivity|].
  destruct (time_pixel_round_trip b 2 500 c 50) as (_ & A).
  destruct (A Hd) as (A1 & _ & A3).
  destruct (A3 Ht) as (_ & A5 & _).
  split; [|exact A5].
  rewrite A1. vm_compute. reflexivity.
Defined.

End WaveformFacts.

(** ** How the operations of the player compose *)
Module PlayerEventFacts.
Import AudioPlayer PlayerEvents.

Arguments duration : simpl never.

Ltac fields := PlayerFacts.fields.
Ltac open_player s := PlayerFacts.open_player s.
Ltac fields_in H :=
  cbn [isPlaying currentTime playbackRate timeInput audioContextRef sourceRef
       startTimeRef pauseTimeRef animFrameRef isPlayingRef intentionalStopRef
       nodes rafQueue rafNext timeUpdates] in H.

Lemma stopNode_last (l : list Node) (x : Node) :
  nth_error (stopNode (List.length l) (l ++ [x])) (List.length l)
  = Some (mkNode (nodeOffset x) (nodeRate x) (nodeStartedAt x) true).
Proof. induction l as [|m l IH]; cbn; [reflexivity|exact IH]. Qed.

(** [play] appends the new node to the nodes there were. *)
Lemma play_nodes (d now : Q) (s : Player) :
  exists l x,
    nodes (play (Some d) now s) = l ++ [x] /\
    List.length l = List.length (nodes s).
Proof.
  unfold play. open_player s.
  destruct ctx, src as [i|]; fields; eexists; eexists;
    (split; [reflexivity|]);
    rewrite ?PlayerFacts.length_stopNode; reflexivity.
Qed.

(** X7.  Play at clock reading [c] and pause at [c']: the stored position
    moves by the elapsed time scaled by the rate, capped at the duration,
    and is shown and published; the controller is not playing.  With no
    time elapsed a position within the duration is where it was. *)
Theorem play_then_pause_adds_elapsed (d c c' : Q) (s : Player) :
  let s' := pause (Some d) c' (play (Some d) c s) in
  pauseTimeRef s'
    = Qmin (pauseTimeRef s + (c' - c) * playbackRate s) (duration (Some d)) /\
  currentTime s' = pauseTimeRef s' /\
  hd_error (timeUpdates s') = Some (pauseTimeRef s') /\
  isPlaying s' = false /\ isPlayingRef s' = false /\
  sourceStopped s' = Some true /\
  (c' == c -> pauseTimeRef s <= duration (Some d) ->
     pauseTimeRef s' == pauseTimeRef s).
Proof.
  intro s'.
  destruct (PlayerFacts.play_fields d c s)
    as (A1 & A2 & A3 & A4 & _ & _ & _ & A8 & _).
  destruct (PlayerFacts.pause_fields (Some d) c' (play (Some d) c s) _ A8 A4)
    as (B1 & B2 & B3 & B4 & B5 & _ & B7 & _).
  fold s' in B1, B2, B3, B4, B5, B7.
  rewrite A1, A2, A3 in B1.
  split; [exact B1|]. split; [exact B2|].
  split; [rewrite B3; reflexivity|]. split; [exact B4|]. split; [exact B5|].
  split.
  - unfold sourceStopped. rewrite B7, A8.
    destruct (play_nodes d c s) as (l & x & El & Hl).
    assert (En : nodes s' = stopNode (List.length (nodes s))
                              (nodes (play (Some d) c s))).
    { exact (proj2 (PlayerFacts.pause_stops_intentionally
                      (Some d) c' (play (Some d) c s) _ A8 A4)). }
    rewrite En, El, <- Hl, stopNode_last. reflexivity.
  - intros Hc Hle. rewrite B1. revert Hle.
    generalize (pauseTimeRef s) (playbackRate s) (duration (Some d)).
    intros p r dur Hle.
    assert (E : p + (c' - c) * r == p) by (rewrite Hc; ring).
    revert E. generalize (p + (c' - c) * r). intros u E.
    minmax; lra.
Qed.

Lemma play_then_pause_adds_elapsed_witness :
  let s := seekTo (Some 100) 30 0 initial in
  (7 == 7 /\ pauseTimeRef s <= duration (Some 100)) /\
  pauseTimeRef (pause (Some 100) 7 (play (Some 100) 7 s)) == pauseTimeRef s.
Proof.
  intro s.
  assert (H1 : 7 == 7) by reflexivity.
  assert (H2 : pauseTimeRef s <= duration (Some 100))
    by (vm_compute; discriminate).
  split; [exact (conj H1 H2)|].
  destruct (play_then_pause_adds_elapsed 100 7 7 s)
    as (_ & _ & _ & _ & _ & _ & A).
  exact (A H1 H2).
Defined.

Lemma play_new_node (d now : Q) (s : Player) :
  nth_error (nodes (play (Some d) now s)) (List.length (nodes s))
  = Some (mkNode (pauseTimeRef s) (playbackRate s) now false).
Proof.
  unfold play. open_player s.
  destruct ctx, src as [i|]; fields;
    (rewrite nth_error_app2; rewrite ?PlayerFacts.length_stopNode; [|lia]);
    rewrite Nat.sub_diag; reflexivity.
Qed.

(** X8.  The speed button.  When nothing plays it only switches the rate
    between 1 and 2.  When the controller plays, [pause] first stores the
    position reached at the old rate, the rate is switched, and the timeout
    is set; the [play] it runs starts a node at that position with the new
    rate, after which the position advances at the new rate. *)
Theorem rate_click_switches_rate
    (d now now' now'' : Q) (s : Player) (i : nat) :
  let rate' := if Qeq_bool (playbackRate s) 1 then 2 else 1 in
  let s1 := fst (handleRateClick (Some d) now s) in
  let s2 := play (Some d) now' s1 in
  playbackRate s1 = rate' /\ (rate' = 1 \/ rate' = 2) /\
  snd (handleRateClick (Some d) now s) = isPlaying s /\
  (isPlaying s = false -> s1 = set_playbackRate rate' s) /\
  (isPlaying s = true -> sourceRef s = Some i -> audioContextRef s = true ->
     pauseTimeRef s1
       = Qmin (pauseTimeRef s + (now - startTimeRef s) * playbackRate s)
              (duration (Some d)) /\
     isPlaying s1 = false /\ isPlaying s2 = true /\
     nth_error (nodes s2) (List.length (nodes s1))
       = Some (mkNode (pauseTimeRef s1) rate' now' false) /\
     tickTime (Some d) now'' s2
       = Qmin (pauseTimeRef s1 + (now'' - now') * rate')
              (duration (Some d))).
Proof.
  intros rate' s1 s2.
  split; [reflexivity|].
  split; [unfold rate'; destruct (Qeq_bool _ _); auto|].
  split; [reflexivity|].
  split.
  - intro Hp. unfold s1, handleRateClick. rewrite Hp. reflexivity.
  - intros Hp Hs Hc.
    destruct (PlayerFacts.pause_fields (Some d) now s i Hs Hc)
      as (B1 & _ & _ & B4 & _).
    assert (E1 : s1 = set_playbackRate rate' (pause (Some d) now s))
      by (unfold s1, handleRateClick; rewrite Hp; reflexivity).
    assert (P1 : pauseTimeRef s1 = pauseTimeRef (pause (Some d) now s))
      by (rewrite E1; reflexivity).
    assert (R1 : playbackRate s1 = rate') by reflexivity.
    destruct (PlayerFacts.play_fields d now' s1)
      as (A1 & A2 & A3 & _ & _ & A6 & _).
    fold s2 in A1, A2, A3, A6.
    split; [rewrite P1; exact B1|].
    split; [rewrite E1; exact B4|].
    split; [exact A6|].
    split.
    + unfold s2. rewrite play_new_node, R1. reflexivity.
    + unfold tickTime. rewrite A1, A2, A3, R1. reflexivity.
Qed.

Lemma rate_click_switches_rate_witness :
  let s := play (Some 100) 0 initial in
  let s1 := fst (handleRateClick (Some 100) 10 s) in
  let s2 := play (Some 100) 10 s1 in
  (isPlaying s = true /\ sourceRef s = Some 0%nat
   /\ audioContextRef s = true /\ isPlaying initial = false) /\
  fst (handleRateClick (Some 100) 0 initial) = set_playbackRate 2 initial /\
  tickTime (Some 100) 11 s2 == 12.
Proof.
  intros s s1 s2.
  assert (H1 : isPlaying s = true) by reflexivity.
  assert (H2 : sourceRef s = Some 0%nat) by reflexivity.
  assert (H3 : audioContextRef s = true) by reflexivity.
  assert (H4 : isPlaying initial = false) by reflexivity.
  split; [exact (conj H1 (conj H2 (conj H3 H4)))|].
  destruct (rate_click_switches_rate 100 0 0 0 initial 0)
    as (_ & _ & _ & A & _).
  split; [exact (A H4)|].
  destruct (rate_click_switches_rate 100 10 10 11 s 0)
    as (_ & _ & _ & _ & B).
  destruct (B H1 H2 H3) as (_ & _ & _ & _ & B5).
  fold s1 s2 in B5. rewrite B5. vm_compute. reflexivity.
Defined.

(** X10.  [skip] when nothing plays: no node is touched, the position moves
    by the offset and is clamped to [0, duration]: the start for an offset
    that would go before it, the end for one that would go past it, and the
    sum itself when neither bound is hit. *)
Theorem skip_when_not_playing (ab : option Q) (seconds now : Q) (s : Player) :
  isPlaying s = false -> 0 <= duration ab ->
  let p := pauseTimeRef s in
  let s' := skip ab seconds now s in
  isPlaying s' = false /\ nodes s' = nodes s /\
  currentTime s' = pauseTimeRef s' /\
  hd_error (timeUpdates s') = Some (pauseTimeRef s') /\
  pauseTimeRef s' = Qmax 0 (Qmin (duration ab) (p + seconds)) /\
  0 <= pauseTimeRef s' <= duration ab /\
  (p + seconds <= 0 -> pauseTimeRef s' == 0) /\
  (duration ab <= p + seconds -> pauseTimeRef s' == duration ab) /\
  (0 <= p + seconds <= duration ab -> pauseTimeRef s' == p + seconds).
Proof.
  intros Hp Hd p s'.
  assert (E : s' = onTimeUpdate (clamp ab (p + seconds))
                     (set_currentTime (clamp ab (p + seconds))
                        (set_pauseTimeRef (clamp ab (p + seconds)) s)))
    by (unfold s', skip; rewrite Hp; reflexivity).
  assert (Hp' : isPlaying s' = false) by (rewrite E; exact Hp).
  assert (P : pauseTimeRef s' = clamp ab (p + seconds))
    by (rewrite E; reflexivity).
  split; [exact Hp'|]. split; [rewrite E; reflexivity|].
  split; [rewrite E; reflexivity|]. split; [rewrite E; reflexivity|].
  rewrite P. unfold clamp. split; [reflexivity|].
  split; [minmax; lra|]. split; [intro H; minmax; lra|].
  split; [intro H; minmax; lra|].
  intros [H0 H1]. minmax; lra.
Qed.

Lemma skip_when_not_playing_witness :
  let s := seekTo (Some 100) 30 0 initial in
  (isPlaying s = false /\ 0 <= duration (Some 100)
   /\ 0 <= pauseTimeRef s + 5 <= duration (Some 100)) /\
  pauseTimeRef (skip (Some 100) 5 1 s) == pauseTimeRef s + 5.
Proof.
  intro s.
  assert (H1 : isPlaying s = false) by reflexivity.
  assert (H2 : 0 <= duration (Some 100)) by (vm_compute; discriminate).
  assert (H3 : 0 <= pauseTimeRef s + 5 <= duration (Some 100))
    by (split; vm_compute; discriminate).
  split; [exact (conj H1 (conj H2 H3))|].
  destruct (skip_when_not_playing (Some 100) 5 1 s H1 H2)
    as (_ & _ & _ & _ & _ & _ & _ & _ & A).
  exact (A H3).
Defined.

(** X26.  [seekTo] when nothing plays: no node is touched, the text of the
    "go to" box is cleared, and the stored, displayed and published position
    is the target clamped to [0, duration], the target itself when it lies
    within.  Seeking to the same target again changes no position. *)
Theorem seek_when_not_playing (ab : option Q) (t now now' : Q) (s : Player) :
  isPlaying s = false -> 0 <= duration ab ->
  let s' := seekTo ab t now s in
  isPlaying s' = false /\ nodes s' = nodes s /\ sourceRef s' = sourceRef s /\
  timeInput s' = EmptyString /\
  currentTime s' = pauseTimeRef s' /\
  hd_error (timeUpdates s') = Some (pauseTimeRef s') /\
  0 <= pauseTimeRef s' <= duration ab /\
  (t <= 0 -> pauseTimeRef s' == 0) /\
  (duration ab <= t -> pauseTimeRef s' == duration ab) /\
  (0 <= t <= duration ab -> pauseTimeRef s' == t) /\
  pauseTimeRef (seekTo ab t now' s') = pauseTimeRef s'.
Proof.
  intros Hp Hd s'.
  assert (E : s' = set_timeInput EmptyString
                     (onTimeUpdate (clamp ab t)
                        (set_currentTime (clamp ab t)
                           (set_pauseTimeRef (clamp ab t) s))))
    by (apply PlayerFacts.seekTo_not_playing; exact Hp).
  assert (Hp' : isPlaying s' = false) by (rewrite E; exact Hp).
  assert (P : pauseTimeRef s' = clamp ab t) by (rewrite E; reflexivity).
  split; [exact Hp'|]. split; [rewrite E; reflexivity|].
  split; [rewrite E; reflexivity|]. split; [rewrite E; reflexivity|].
  split; [rewrite E; reflexivity|]. split; [rewrite E; reflexivity|].
  rewrite (PlayerFacts.seekTo_not_playing ab t now' s' Hp'), P.
  unfold clamp.
  split; [minmax; lra|]. split; [intro H; minmax; lra|].
  split; [intro H; minmax; lra|]. split; [intro H; minmax; lra|].
  reflexivity.
Qed.

Lemma seek_when_not_playing_witness :
  (isPlaying initial = false /\ 0 <= duration (Some 100)
   /\ duration (Some 100) <= 250) /\
  pauseTimeRef (seekTo (Some 100) 250 0 initial) == duration (Some 100).
Proof.
  assert (H1 : isPlaying initial = false) by reflexivity.
  assert (H2 : 0 <= duration (Some 100)) by (vm_compute; discriminate).
  assert (H3 : duration (Some 100) <= 250) by (vm_compute; discriminate).
  split; [exact (conj H1 (conj H2 H3))|].
  destruct (seek_when_not_playing (Some 100) 250 0 0 initial H1 H2)
    as (_ & _ & _ & _ & _ & _ & _ & _ & A & _).
  exact (A H3).
Defined.

(** X27.  After the end of the track.  Once a frame has found the position
    within 0.01 s of the end, the round button starts again from the
    beginning: [play] marks the stop of the node that ran out as
    intentional, stops it, and starts a new node at offset 0, from which the
    position is counted. *)
Theorem play_after_end_restarts_from_zero
    (d now now' now'' : Q) (s : Player) (i : nat) :
  audioContextRef s = true -> isPlayingRef s = true ->
  sourceRef s = Some i ->
  duration (Some d) - (1#100) <= tickTime (Some d) now s ->
  let ended := updateTime (Some d) now s in
  let s' := togglePlayPause (Some d) now' ended in
  isPlaying ended = false /\
  isPlaying s' = true /\ pauseTimeRef s' = 0 /\ startTimeRef s' = now' /\
  intentionalStopRef s' = true /\
  firstn (List.length (nodes s)) (nodes s') = stopNode i (nodes s) /\
  nth_error (nodes s') (List.length (nodes s))
    = Some (mkNode 0 (playbackRate s) now' false) /\
  tickTime (Some d) now'' s'
    = Qmin (0 + (now'' - now') * playbackRate s) (duration (Some d)).
Proof.
  intros Hc Hp Hs Hend ended s'.
  assert (E : ended = set_currentTime 0
                        (set_pauseTimeRef 0
                           (set_isPlayingRef false
                              (set_isPlaying false
                                 (onTimeUpdate (tickTime (Some d) now s)
                                    (set_currentTime
                                       (tickTime (Some d) now s) s))))))
    by (apply PlayerFacts.updateTime_finished; assumption).
  assert (F1 : isPlaying ended = false) by (rewrite E; reflexivity).
  assert (F2 : pauseTimeRef ended = 0) by (rewrite E; reflexivity).
  assert (F3 : playbackRate ended = playbackRate s) by (rewrite E; reflexivity).
  assert (F4 : nodes ended = nodes s) by (rewrite E; reflexivity).
  assert (F5 : sourceRef ended = Some i) by (rewrite E; exact Hs).
  assert (E' : s' = play (Some d) now' ended)
    by (unfold s', togglePlayPause; rewrite F1; reflexivity).
  clearbody ended s'. subst s'.
  destruct (PlayerFacts.play_fields d now' ended)
    as (A1 & A2 & A3 & _ & _ & A6 & _).
  destruct (PlayerFacts.play_stops_intentionally d now' ended i F5)
    as (B1 & B2).
  pose proof (play_new_node d now' ended) as C.
  rewrite F4 in B2, C. rewrite F2, F3 in C.
  split; [exact F1|]. split; [exact A6|]. split; [congruence|].
  split; [exact A2|]. split; [exact B1|]. split; [exact B2|].
  split; [exact C|].
  unfold tickTime. rewrite A1, A2, A3, F2, F3. reflexivity.
Qed.

Lemma play_after_end_restarts_from_zero_witness :
  let s := play (Some 10) 0 initial in
  (audioContextRef s = true /\ isPlayingRef s = true
   /\ sourceRef s = Some 0%nat
   /\ duration (Some 10) - (1#100) <= tickTime (Some 10) (9995#1000) s) /\
  pauseTimeRef
    (togglePlayPause (Some 10) 12 (updateTime (Some 10) (9995#1000) s)) = 0.
Proof.
  intro s.
  assert (H1 : audioContextRef s = true) by reflexivity.
  assert (H2 : isPlayingRef s = true) by reflexivity.
  assert (H3 : sourceRef s = Some 0%nat) by reflexivity.
  assert (H4 : duration (Some 10) - (1#100)
               <= tickTime (Some 10) (9995#1000) s)
    by (vm_compute; discriminate).
  split; [exact (conj H1 (conj H2 (conj H3 H4)))|].
  destruct (play_after_end_restarts_from_zero 10 (9995#1000) 12 13 s 0
              H1 H2 H3 H4) as (_ & _ & A & _).
  exact A.
Defined.

End PlayerEventFacts.

(** ** The player as a machine: what every sequence of events preserves *)
Module MachineFacts.
Import AudioPlayer Machine.

Arguments AudioPlayer.duration : simpl never.
Arguments Machine.duration : simpl never.

(** Reduce field reads of states built by the setters, and nothing else. *)
Ltac fields :=
  cbn [isPlaying currentTime playbackRate timeInput audioContextRef sourceRef
       startTimeRef pauseTimeRef animFrameRef isPlayingRef intentionalStopRef
       nodes rafQueue rafNext timeUpdates
       set_isPlaying set_currentTime set_playbackRate set_timeInput
       set_audioContextRef set_sourceRef set_startTimeRef set_pauseTimeRef
       set_isPlayingRef set_intentionalStopRef set_nodes onTimeUpdate
       requestAnimationFrame cancelAnimationFrame initial negb orb andb
       option_map hd_error].

Ltac fields_in H :=
  cbn [isPlaying currentTime playbackRate timeInput audioContextRef sourceRef
       startTimeRef pauseTimeRef animFrameRef isPlayingRef intentionalStopRef
       nodes rafQueue rafNext timeUpdates] in H.

Ltac fields_everywhere :=
  cbn [isPlaying currentTime playbackRate timeInput audioContextRef sourceRef
       startTimeRef pauseTimeRef animFrameRef isPlayingRef intentionalStopRef
       nodes rafQueue rafNext timeUpdates] in *.

Ltac open_state s :=
  destruct s as [playing ct rate ti ctx src st pt af pref flag ns q nx tu];
  fields_everywhere; subst; fields.

(** *** Structure *)

(** A node that [stopNode] leaves unstopped is another node than the one
    it stops, and was unstopped before. *)
Lemma stopNode_unstopped (i j : nat) (ns : list Node) (n : Node) :
  nth_error (stopNode i ns) j = Some n -> nodeStopped n = false ->
  nth_error ns j = Some n /\ j <> i.
Proof.
  revert i j. induction ns as [|m ns IH]; intros i j Hn Hs.
  - destruct i, j; discriminate.
  - destruct i as [|i], j as [|j]; cbn in *.
    + injection Hn as <-. discriminate.
    + split; [exact Hn|discriminate].
    + split; [exact Hn|discriminate].
    + destruct (IH i j Hn Hs) as [H1 H2]. split; [exact H1|congruence].
Qed.

(** [wellFormed] looks at five fields only. *)
Lemma wellFormed_ext (s s' : State) :
  isPlaying s' = isPlaying s -> isPlayingRef s' = isPlayingRef s ->
  sourceRef s' = sourceRef s -> audioContextRef s' = audioContextRef s ->
  nodes s' = nodes s ->
  wellFormed s -> wellFormed s'.
Proof.
  unfold wellFormed. intros -> -> -> -> ->. exact (fun H => H).
Qed.

Lemma wellFormed_play (ab : option Q) (now : Q) (s : State) :
  wellFormed s -> wellFormed (play ab now s).
Proof.
  intros W. unfold play.
  destruct ab as [d|]; [|exact W].
  destruct W as (W1 & W2 & W3 & W4).
  assert (B : forall ns' (j : nat) (n : Node),
            ns' = match sourceRef s with
                  | Some i => stopNode i (nodes s)
                  | None => nodes s
                  end ->
            nth_error ns' j = Some n -> nodeStopped n = false -> False).
  { intros ns' j n Ens Hn Hs. subst ns'.
    destruct (sourceRef s) as [i|] eqn:Es.
    - destruct (stopNode_unstopped i j _ n Hn Hs) as [H1 H2].
      specialize (W4 j n H1 Hs). congruence.
    - specialize (W4 j n Hn Hs). discriminate. }
  assert (A : forall ns' new (j : nat) (n : Node),
            ns' = match sourceRef s with
                  | Some i => stopNode i (nodes s)
                  | None => nodes s
                  end ->
            nth_error (ns' ++ [new]) j = Some n -> nodeStopped n = false ->
            Some (List.length ns') = Some j).
  { intros ns' new j n Ens Hn Hs.
    destruct (Nat.lt_ge_cases j (List.length ns')) as [Hlt|Hge].
    - rewrite nth_error_app1 in Hn by exact Hlt. exfalso.
      exact (B ns' j n Ens Hn Hs).
    - rewrite nth_error_app2 in Hn by exact Hge.
      destruct (j - List.length ns')%nat as [|k] eqn:Ek.
      + f_equal. lia.
      + destruct k; discriminate. }
  open_state s. unfold wellFormed.
  destruct ctx, src as [i|]; fields; destruct (startOffset pt) as [offset|];
    fields; repeat split; try discriminate; try assumption;
    try (intros _; apply W3; discriminate);
    intros j n;
    try (eapply A; reflexivity);
    intros Hn Hs; exfalso; eapply B; try eassumption; reflexivity.
Qed.

Lemma wellFormed_pause (ab : option Q) (now : Q) (s : State) :
  wellFormed s -> wellFormed (pause ab now s).
Proof.
  intros W. unfold pause.
  destruct (sourceRef s) as [i|] eqn:Es; [|exact W].
  destruct (negb (audioContextRef s)); [exact W|].
  destruct W as (W1 & W2 & W3 & W4).
  open_state s. unfold wellFormed. fields.
  repeat split; try discriminate.
  - intros _. apply W3. discriminate.
  - intros j n Hn Hs. destruct (stopNode_unstopped i j _ n Hn Hs) as [H1 _].
    exact (W4 j n H1 Hs).
Qed.

Lemma wellFormed_updateTime (ab : option Q) (now : Q) (s : State) :
  wellFormed s -> wellFormed (updateTime ab now s).
Proof.
  intros W. unfold updateTime.
  destruct (negb (audioContextRef s) || negb (isPlayingRef s)); [exact W|].
  destruct W as (W1 & W2 & W3 & W4).
  destruct (JS.geq _ _); open_state s; unfold wellFormed; fields;
    repeat split; try assumption; discriminate.
Qed.

Lemma wellFormed_onended (s : State) : wellFormed s -> wellFormed (onended s).
Proof.
  intros (W1 & W2 & W3 & W4). unfold onended.
  destruct (intentionalStopRef s); open_state s; unfold wellFormed; fields;
    repeat split; try assumption; discriminate.
Qed.

Lemma wellFormed_seekTo (ab : option Q) (v : JS.number) (now : Q) (s : State) :
  wellFormed s -> wellFormed (seekTo ab v now s).
Proof.
  intro W. unfold seekTo.
  match goal with |- wellFormed (if _ then play _ _ (pause _ _ ?x) else ?x) =>
    assert (W' : wellFormed x) by (revert W; apply wellFormed_ext; reflexivity)
  end.
  destruct (isPlaying s); [|exact W'].
  apply wellFormed_play, wellFormed_pause, W'.
Qed.

(** [skip] is [seekTo] at the stored position plus the offset, but for the
    text of the "go to" box, which only [seekTo] clears. *)
Lemma skip_through_seekTo (ab : option Q) (seconds now : Q) (s : State) :
  skip ab seconds now s =
    set_timeInput (timeInput s)
      (seekTo ab (JS.add (pauseTimeRef s) (JS.Fin seconds)) now s).
Proof.
  unfold skip, seekTo. 
  generalize (JS.max0 (JS.minimum (JS.Fin (duration ab))
                         (JS.add (pauseTimeRef s) (JS.Fin seconds)))).
  intro v. unfold pause, play. open_state s.
  destruct playing; [|reflexivity].
  destruct src as [i|]; cbn; [destruct ctx; cbn|];
    destruct ab; cbn; try reflexivity;
    try (destruct (startOffset _); reflexivity);
    destruct ctx; try reflexivity; destruct (startOffset _); reflexivity.
Qed.

Lemma wellFormed_skip (ab : option Q) (seconds now : Q) (s : State) :
  wellFormed s -> wellFormed (skip ab seconds now s).
Proof.
  intro W. rewrite skip_through_seekTo.
  eapply wellFormed_ext; [..|apply wellFormed_seekTo; exact W]; reflexivity.
Qed.

Lemma wellFormed_handle (ab : option Q) (e : Event) (s : State) :
  wellFormed s -> wellFormed (handle ab e s).
Proof.
  intro W. destruct e; cbn [handle].
  - unfold togglePlayPause. destruct (isPlaying s);
      [apply wellFormed_pause|apply wellFormed_play]; exact W.
  - apply wellFormed_skip, W.
  - apply wellFormed_seekTo, W.
  - revert W. apply wellFormed_ext; reflexivity.
  - unfold handleTimeInputSubmit.
    destruct (parseTimeInput (timeInput s)) as [v|];
      [apply wellFormed_seekTo, W|exact W].
  - unfold handleRateClick. cbn [fst].
    eapply wellFormed_ext; [..|
      exact (match isPlaying s as b
                   return wellFormed (if b then pause ab now s else s) with
             | true => wellFormed_pause ab now s W
             | false => W
             end)]; reflexivity.
  - apply wellFormed_play, W.
  - unfold runFrame. destruct (existsb _ _); [|exact W].
    apply wellFormed_updateTime. revert W. apply wellFormed_ext; reflexivity.
  - apply wellFormed_onended, W.
Qed.

Lemma wellFormed_run (ab : option Q) (events : list Event) (s : State) :
  wellFormed s -> wellFormed (run ab events s).
Proof.
  revert s. induction events as [|e rest IH]; intros s W; [exact W|].
  apply IH, wellFormed_handle, W.
Qed.

Lemma wellFormed_initial : wellFormed initial.
Proof.
  unfold wellFormed. split; [reflexivity|]. split; [discriminate|].
  split; [intro H; exfalso; apply H; reflexivity|].
  intros [|j] n H; discriminate H.
Qed.

(** X1.  Whatever events arrive after mounting, in whatever order: the
    state [isPlaying] and the ref [isPlayingRef] agree, a playing controller
    has a node and an audio context, and at most one node has not been told
    to stop, namely the one [sourceRef] points to. *)
Theorem reachable_states_wellformed (ab : option Q) (events : list Event) :
  let s := run ab events initial in
  isPlayingRef s = isPlaying s /\
  (isPlaying s = true -> sourceRef s <> None /\ audioContextRef s = true) /\
  (forall j n, nth_error (nodes s) j = Some n -> nodeStopped n = false ->
     sourceRef s = Some j) /\
  (forall j k m n,
     nth_error (nodes s) j = Some m -> nodeStopped m = false ->
     nth_error (nodes s) k = Some n -> nodeStopped n = false -> j = k).
Proof.
  intro s.
  destruct (wellFormed_run ab events initial wellFormed_initial)
    as (W1 & W2 & W3 & W4).
  fold s in W1, W2, W3, W4.
  split; [exact W1|]. split; [auto|]. split; [exact W4|].
  intros j k m n Hj Hm Hk Hn.
  pose proof (W4 j m Hj Hm) as E1. pose proof (W4 k n Hk Hn) as E2.
  congruence.
Qed.

(** X2.  Unmounting after any sequence of events leaves no node that has
    not been told to stop and no pending frame under the handle the
    component holds; the stored position, the phase and the intentional-stop
    flag are as before. *)
Theorem unmount_stops_every_node (ab : option Q) (events : list Event) :
  let s := run ab events initial in
  Forall (fun n => nodeStopped n = true) (nodes (unmount s)) /\
  (forall h, animFrameRef s = Some h -> ~ In h (rafQueue (unmount s))) /\
  pauseTimeRef (unmount s) = pauseTimeRef s /\
  isPlaying (unmount s) = isPlaying s /\
  intentionalStopRef (unmount s) = intentionalStopRef s.
Proof.
  intro s.
  destruct (wellFormed_run ab events initial wellFormed_initial)
    as (_ & _ & _ & W4).
  fold s in W4. clearbody s. unfold unmount.
  split; [|split; [|destruct (sourceRef s); repeat split]].
  - apply Forall_forall. intros n Hin.
    destruct (nodeStopped n) eqn:En; [reflexivity|exfalso].
    apply In_nth_error in Hin. destruct Hin as [j Hj].
    destruct (sourceRef s) as [i|] eqn:Es; cbn in Hj.
    + destruct (stopNode_unstopped i j _ n Hj En) as [H1 H2].
      specialize (W4 j n H1 En). congruence.
    + specialize (W4 j n Hj En). discriminate.
  - intros h Hh Hin.
    assert (E : rafQueue
                  (cancelAnimationFrame
                     match sourceRef s with
                     | Some i => set_nodes (stopNode i (nodes s)) s
                     | None => s
                     end)
                = filter (fun h' => negb (Nat.eqb h' h)) (rafQueue s)).
    { destruct (sourceRef s); cbn; rewrite Hh; reflexivity. }
    rewrite E in Hin. apply filter_In in Hin. destruct Hin as [_ Hne].
    rewrite Nat.eqb_refl in Hne. discriminate.
Qed.

(** X4.  After any sequence of events, once [pause] has run, a frame that
    still arrives changes nothing: [updateTime] returns at once, and the
    frame under the handle the component held was cancelled. *)
Theorem frames_after_pause_do_nothing
    (ab : option Q) (events : list Event) (now now' : Q) :
  let s := run ab events initial in
  let paused := pause ab now s in
  updateTime ab now' paused = paused /\
  (isPlaying s = true ->
     forall h, animFrameRef paused = Some h ->
       runFrame ab h now' paused = paused).
Proof.
  intros s paused.
  destruct (wellFormed_run ab events initial wellFormed_initial)
    as (W1 & W2 & W3 & _).
  fold s in W1, W2, W3. clearbody s.
  assert (Hp : isPlayingRef paused = false).
  { unfold paused, pause.
    destruct (sourceRef s) as [i|] eqn:Es.
    - rewrite W3 by discriminate. reflexivity.
    - rewrite W1. destruct (isPlaying s); [|reflexivity].
      exfalso. apply W2; reflexivity. }
  assert (Hu : forall x, isPlayingRef x = false -> updateTime ab now' x = x).
  { intros x Hx. unfold updateTime. rewrite Hx, orb_true_r. reflexivity. }
  split; [apply Hu; exact Hp|].
  intros Hplaying h Hh. unfold runFrame.
  destruct (existsb (Nat.eqb h) (rafQueue paused)) eqn:Ex; [|reflexivity].
  exfalso. apply existsb_exists in Ex. destruct Ex as (h' & Hin & Heq).
  apply Nat.eqb_eq in Heq. subst h'.
  revert Hh Hin. unfold paused, pause.
  destruct (sourceRef s) as [i|] eqn:Es.
  - rewrite W3 by discriminate. cbn [negb]. fields.
    intros Hh. rewrite Hh. intro Hin. apply filter_In in Hin.
    destruct Hin as [_ Hne]. rewrite Nat.eqb_refl in Hne. discriminate.
  - exfalso. apply (W2 Hplaying). reflexivity.
Qed.

Lemma frames_after_pause_do_nothing_witness :
  let s := run (Some 100) [ClickPlayPause 0] initial in
  let paused := pause (Some 100) 3 s in
  isPlaying s = true /\ animFrameRef paused = Some 1%nat /\
  runFrame (Some 100) 1 4 paused = paused.
Proof.
  intros s paused.
  assert (Hp : isPlaying s = true) by reflexivity.
  assert (Hh : animFrameRef paused = Some 1%nat) by reflexivity.
  split; [exact Hp|]. split; [exact Hh|].
  exact (proj2 (frames_after_pause_do_nothing (Some 100) [ClickPlayPause 0] 3 4)
           Hp 1%nat Hh).
Defined.


(** *** Positions are [NaN] or stay in [0, duration] *)

Section Range.

Variable ab : option Q.
Hypothesis duration_not_negative : 0 <= duration ab.

Lemma within_clamp (v : JS.number) :
  within ab (JS.max0 (JS.minimum (JS.Fin (duration ab)) v)).
Proof.
  destruct v as [|t|[|]]; cbn; try exact I; minmax; lra.
Qed.

Lemma within_advance (p : JS.number) (e : Q) :
  within ab p -> 0 <= e ->
  within ab (JS.minimum (JS.add p (JS.Fin e)) (JS.Fin (duration ab))).
Proof.
  destruct p as [|t|[|]]; cbn; try tauto.
  intros [H0 H1] He. minmax; lra.
Qed.

Lemma within_zero : within ab (JS.Fin 0).
Proof. cbn. lra. Qed.

Lemma elapsed_nonneg (now st rate : Q) :
  st <= now -> 0 <= rate -> 0 <= (now - st) * rate.
Proof. intros H1 H2. apply Qmult_le_0_compat; lra. Qed.

Ltac range_goal :=
  unfold inRangeAt, inRange in *; fields;
  repeat match goal with
         | H : _ /\ _ |- _ => destruct H
         | |- _ /\ _ => split
         | |- Forall _ (_ :: _) => constructor
         end;
  try assumption; try apply within_clamp; try apply within_zero;
  try (apply within_advance; assumption); try lra.

Lemma inRangeAt_later (c c' : Q) (s : State) :
  c <= c' -> inRangeAt ab c s -> inRangeAt ab c' s.
Proof.
  intros Hc (H1 & H2 & H3). split; [exact H1|]. split; [lra|exact H3].
Qed.

Lemma inRangeAt_play (now : Q) (s : State) :
  inRangeAt ab now s -> inRangeAt ab now (play ab now s).
Proof.
  intro H. unfold play. destruct ab as [d|]; [|exact H].
  open_state s. destruct ctx, src; fields;
    destruct (startOffset pt); range_goal.
Qed.

Lemma inRangeAt_pause (now : Q) (s : State) :
  inRangeAt ab now s -> inRangeAt ab now (pause ab now s).
Proof.
  intro H. unfold pause.
  destruct (sourceRef s) as [i|]; [|exact H].
  destruct (negb (audioContextRef s)); [exact H|].
  open_state s. unfold inRangeAt, inRange in H. fields_in H.
  destruct H as ((Hp & Hc & Hu) & Hst & Hr).
  pose proof (elapsed_nonneg now st rate Hst Hr) as He.
  revert He. generalize ((now - st) * rate). intros e He.
  range_goal.
Qed.

Lemma inRangeAt_updateTime (now : Q) (s : State) :
  inRangeAt ab now s -> inRangeAt ab now (updateTime ab now s).
Proof.
  intro H. unfold updateTime.
  destruct (negb (audioContextRef s) || negb (isPlayingRef s)); [exact H|].
  open_state s. unfold inRangeAt, inRange in H. fields_in H.
  destruct H as ((Hp & Hc & Hu) & Hst & Hr).
  pose proof (elapsed_nonneg now st rate Hst Hr) as He.
  revert He. generalize ((now - st) * rate). intros e He.
  destruct (JS.geq _ _); range_goal.
Qed.

Lemma inRangeAt_onended (now : Q) (s : State) :
  inRangeAt ab now s -> inRangeAt ab now (onended s).
Proof.
  intro H. unfold onended. open_state s.
  destruct flag; range_goal.
Qed.

Lemma inRangeAt_seekTo (v : JS.number) (now : Q) (s : State) :
  inRangeAt ab now s -> inRangeAt ab now (seekTo ab v now s).
Proof.
  intro H. unfold seekTo.
  match goal with |- inRangeAt _ _ (if _ then play _ _ (pause _ _ ?x) else ?x) =>
    assert (H' : inRangeAt ab now x)
  end.
  { open_state s. range_goal. }
  destruct (isPlaying s); [|exact H'].
  apply inRangeAt_play, inRangeAt_pause, H'.
Qed.

Lemma inRangeAt_skip (seconds now : Q) (s : State) :
  inRangeAt ab now s -> inRangeAt ab now (skip ab seconds now s).
Proof.
  intro H. rewrite skip_through_seekTo.
  pose proof (inRangeAt_seekTo (JS.add (pauseTimeRef s) (JS.Fin seconds))
                now s H) as H'.
  revert H'.
  generalize (seekTo ab (JS.add (pauseTimeRef s) (JS.Fin seconds)) now s).
  intros x Hx. open_state x. range_goal.
Qed.

Lemma inRangeAt_handle (e : Event) (c : Q) (s : State) :
  inRangeAt ab c s ->
  match clockOf e with
  | Some now => c <= now -> inRangeAt ab now (handle ab e s)
  | None => inRangeAt ab c (handle ab e s)
  end.
Proof.
  intro H. destruct e; cbn [clockOf handle]; try intro Hc;
    try (apply (inRangeAt_later c now s Hc) in H).
  - unfold togglePlayPause. destruct (isPlaying s);
      [apply inRangeAt_pause|apply inRangeAt_play]; exact H.
  - apply inRangeAt_skip, H.
  - apply inRangeAt_seekTo, H.
  - open_state s. range_goal.
  - unfold handleTimeInputSubmit.
    destruct (parseTimeInput (timeInput s)) as [v|];
      [apply inRangeAt_seekTo, H|exact H].
  - unfold handleRateClick. cbn [fst].
    assert (H' : inRangeAt ab now (if isPlaying s then pause ab now s else s))
      by (destruct (isPlaying s); [apply inRangeAt_pause|]; exact H).
    revert H'. generalize (if isPlaying s then pause ab now s else s).
    intros x Hx.
    assert (Hrate : 0 <= (if Qeq_bool (playbackRate s) 1 then 2 else 1))
      by (destruct (Qeq_bool _ _); lra).
    revert Hrate. generalize (if Qeq_bool (playbackRate s) 1 then 2 else 1).
    intros r Hrate. open_state x. range_goal.
  - apply inRangeAt_play, H.
  - unfold runFrame. destruct (existsb _ _); [|exact H].
    apply inRangeAt_updateTime. open_state s. range_goal.
  - apply inRangeAt_onended, H.
Qed.

Lemma inRange_run (events : list Event) (c : Q) (s : State) :
  inRangeAt ab c s -> clockOrdered c events -> inRange ab (run ab events s).
Proof.
  revert c s. induction events as [|e rest IH]; intros c s H Hord.
  - exact (proj1 H).
  - cbn [run fold_left]. fold (run ab rest (handle ab e s)).
    cbn [clockOrdered] in Hord.
    pose proof (inRangeAt_handle e c s H) as Hstep.
    destruct (clockOf e) as [now|].
    + destruct Hord as [Hc Hrest]. exact (IH now _ (Hstep Hc) Hrest).
    + exact (IH c _ Hstep Hord).
Qed.

Lemma inRangeAt_initial : inRangeAt ab 0 initial.
Proof.
  unfold inRangeAt, inRange. cbn.
  repeat split; try lra; try exact duration_not_negative; constructor.
Qed.

Lemma inside_of_within (v : JS.number) :
  within ab v -> v <> JS.NaN -> inside ab v.
Proof.
  destruct v as [|t|n]; cbn; intros H N; [congruence| |contradiction].
  exists t. split; [reflexivity|exact H].
Qed.

End Range.

(** *** Where [NaN] comes from *)

Lemma clamp_not_NaN (d : Q) (v : JS.number) :
  v <> JS.NaN -> JS.max0 (JS.minimum (JS.Fin d) v) <> JS.NaN.
Proof. destruct v as [|t|[|]]; cbn; congruence. Qed.

Lemma advance_not_NaN (p : JS.number) (e d : Q) :
  p <> JS.NaN -> JS.minimum (JS.add p (JS.Fin e)) (JS.Fin d) <> JS.NaN.
Proof. destruct p as [|t|[|]]; cbn; congruence. Qed.

Lemma add_not_NaN (p : JS.number) (e : Q) :
  p <> JS.NaN -> JS.add p (JS.Fin e) <> JS.NaN.
Proof. destruct p as [|t|[|]]; cbn; congruence. Qed.

Lemma parse_empty : parseTimeInput EmptyString <> Some JS.NaN.
Proof. discriminate. Qed.

Ltac clean_goal :=
  unfold clean in *; fields;
  repeat match goal with
         | H : _ /\ _ |- _ => destruct H
         | |- _ /\ _ => split
         | |- Forall _ (_ :: _) => constructor
         end;
  try assumption; try discriminate; try exact parse_empty;
  try (apply clamp_not_NaN; assumption);
  try (apply advance_not_NaN; assumption).

Lemma clean_play (ab : option Q) (now : Q) (s : State) :
  clean s -> clean (play ab now s).
Proof.
  intro H. unfold play. destruct ab as [d|]; [|exact H].
  open_state s. destruct ctx, src; fields;
    destruct (startOffset pt); clean_goal.
Qed.

Lemma clean_pause (ab : option Q) (now : Q) (s : State) :
  clean s -> clean (pause ab now s).
Proof.
  intro H. unfold pause.
  destruct (sourceRef s) as [i|]; [|exact H].
  destruct (negb (audioContextRef s)); [exact H|].
  open_state s. clean_goal.
Qed.

Lemma clean_updateTime (ab : option Q) (now : Q) (s : State) :
  clean s -> clean (updateTime ab now s).
Proof.
  intro H. unfold updateTime.
  destruct (negb (audioContextRef s) || negb (isPlayingRef s)); [exact H|].
  open_state s. destruct (JS.geq _ _); clean_goal.
Qed.

Lemma clean_seekTo (ab : option Q) (v : JS.number) (now : Q) (s : State) :
  v <> JS.NaN -> clean s -> clean (seekTo ab v now s).
Proof.
  intros Hv H. unfold seekTo.
  match goal with |- clean (if _ then play _ _ (pause _ _ ?x) else ?x) =>
    assert (H' : clean x)
  end.
  { open_state s. clean_goal. }
  destruct (isPlaying s); [|exact H'].
  apply clean_play, clean_pause, H'.
Qed.

Lemma clean_handle (ab : option Q) (e : Event) (s : State) :
  match e with
  | TypeTimeInput text => parseTimeInput text <> Some JS.NaN
  | _ => True
  end ->
  clean s -> clean (handle ab e s).
Proof.
  intros He H. destruct e; cbn [handle].
  - unfold togglePlayPause. destruct (isPlaying s);
      [apply clean_pause|apply clean_play]; exact H.
  - rewrite skip_through_seekTo.
    assert (H' : clean (seekTo ab (JS.add (pauseTimeRef s) (JS.Fin seconds))
                          now s)).
    { apply clean_seekTo; [|exact H]. apply add_not_NaN. apply H. }
    revert H'.
    generalize (seekTo ab (JS.add (pauseTimeRef s) (JS.Fin seconds)) now s).
    intros x Hx. destruct H as (_ & _ & _ & Ht).
    open_state x. clean_goal.
  - apply clean_seekTo; [discriminate|exact H].
  - open_state s. clean_goal.
  - unfold handleTimeInputSubmit.
    destruct (parseTimeInput (timeInput s)) as [v|] eqn:E; [|exact H].
    apply clean_seekTo; [|exact H].
    intro N. subst v. destruct H as (_ & _ & _ & Ht). rewrite E in Ht.
    apply Ht. reflexivity.
  - unfold handleRateClick. cbn [fst].
    assert (H' : clean (if isPlaying s then pause ab now s else s))
      by (destruct (isPlaying s); [apply clean_pause|]; exact H).
    revert H'. generalize (if isPlaying s then pause ab now s else s).
    intros x Hx. open_state x. clean_goal.
  - apply clean_play, H.
  - unfold runFrame. destruct (existsb _ _); [|exact H].
    apply clean_updateTime. open_state s. clean_goal.
  - unfold onended. open_state s. destruct flag; clean_goal.
Qed.

Lemma clean_run (ab : option Q) (events : list Event) (s : State) :
  tame events -> clean s -> clean (run ab events s).
Proof.
  revert s. induction events as [|e rest IH]; intros s Ht H; [exact H|].
  inversion Ht as [|? ? He Hrest]; subst.
  cbn [run fold_left]. apply (IH _ Hrest). apply clean_handle; assumption.
Qed.

Lemma clean_initial : clean initial.
Proof. unfold clean. cbn. repeat split; try discriminate. constructor. Qed.

(** X5.  On a buffer whose duration is not negative, after any sequence of
    events whose clock readings do not go back from 0, the stored position,
    the displayed position and every position ever published to
    [onTimeUpdate] is [NaN] or lies in [0, duration]; and when no text typed
    into the "go to" box was one that [parseTimeInput] turns into [NaN],
    they all are numbers in [0, duration]. *)
Theorem positions_stay_in_range (ab : option Q) (events : list Event) :
  0 <= duration ab -> clockOrdered 0 events ->
  let s := run ab events initial in
  (within ab (pauseTimeRef s) /\ within ab (currentTime s) /\
   Forall (within ab) (timeUpdates s)) /\
  (tame events ->
   inside ab (pauseTimeRef s) /\ inside ab (currentTime s) /\
   Forall (inside ab) (timeUpdates s)).
Proof.
  intros Hd Hord s.
  pose proof (inRange_run ab Hd events 0 initial (inRangeAt_initial ab Hd) Hord)
    as (R1 & R2 & R3).
  fold s in R1, R2, R3. split; [exact (conj R1 (conj R2 R3))|].
  intro Ht. destruct (clean_run ab events initial Ht clean_initial)
    as (C1 & C2 & C3 & _).
  fold s in C1, C2, C3.
  split; [apply inside_of_within; assumption|].
  split; [apply inside_of_within; assumption|].
  rewrite Forall_forall in *. intros v Hv.
  apply inside_of_within; auto.
Qed.

Lemma positions_stay_in_range_witness :
  let events :=
    [ClickPlayPause 0; AnimationFrame 1 2; ClickSkip 5 3; SliderChange 200 4;
     TypeTimeInput "1:30"; SubmitTimeInput 5;
     ClickRate 5; TimerPlay 5; AnimationFrame 4 60; NodeEnded] in
  (0 <= duration (Some 100) /\ clockOrdered 0 events /\ tame events) /\
  within (Some 100) (pauseTimeRef (run (Some 100) events initial)) /\
  inside (Some 100) (pauseTimeRef (run (Some 100) events initial)).
Proof.
  intro events.
  assert (Hd : 0 <= duration (Some 100)) by (vm_compute; discriminate).
  assert (Ho : clockOrdered 0 events)
    by (cbn; repeat split; vm_compute; discriminate).
  assert (Ht : tame events).
  { repeat constructor. vm_compute. discriminate. }
  split; [exact (conj Hd (conj Ho Ht))|].
  destruct (positions_stay_in_range (Some 100) events Hd Ho) as [A B].
  split; [exact (proj1 A)|exact (proj1 (B Ht))].
Defined.


(** *** The round button *)

(** [play] on a buffer that is there, when [source.start] takes the
    offset, and when it throws. *)
Lemma play_started (d now offset : Q) (s : State) :
  startOffset (pauseTimeRef s) = Some offset ->
  let s' := play (Some d) now s in
  isPlaying s' = true /\ isPlayingRef s' = true /\
  pauseTimeRef s' = pauseTimeRef s /\ startTimeRef s' = now /\
  sourceRef s' = Some (List.length (nodes s)) /\
  nth_error (nodes s') (List.length (nodes s))
    = Some (mkNode offset (playbackRate s) now false).
Proof.
  intro E. unfold play. open_state s.
  destruct ctx, src as [i|]; fields; rewrite E; fields;
    repeat split; rewrite ?PlayerFacts.length_stopNode; try reflexivity;
    (rewrite nth_error_app2; rewrite ?PlayerFacts.length_stopNode; [|lia]);
    rewrite Nat.sub_diag; reflexivity.
Qed.

Lemma play_thrown (d now : Q) (s : State) :
  startOffset (pauseTimeRef s) = None ->
  let s' := play (Some d) now s in
  isPlaying s' = isPlaying s /\ isPlayingRef s' = isPlayingRef s /\
  pauseTimeRef s' = pauseTimeRef s /\ currentTime s' = currentTime s /\
  sourceRef s' = sourceRef s /\ rafQueue s' = rafQueue s /\
  nodes s' = match sourceRef s with
             | Some i => stopNode i (nodes s)
             | None => nodes s
             end.
Proof.
  intro E. unfold play. open_state s.
  destruct ctx, src as [i|]; fields; rewrite E; fields; repeat split.
Qed.

Lemma pause_stops (ab : option Q) (now : Q) (s : State) (i : nat) :
  sourceRef s = Some i -> audioContextRef s = true ->
  let s' := pause ab now s in
  isPlaying s' = false /\ isPlayingRef s' = false /\
  nodes s' = stopNode i (nodes s) /\ intentionalStopRef s' = true /\
  pauseTimeRef s'
    = JS.minimum (JS.add (pauseTimeRef s)
                         (JS.Fin ((now - startTimeRef s) * playbackRate s)))
                 (JS.Fin (duration ab)) /\
  currentTime s' = pauseTimeRef s' /\
  timeUpdates s' = pauseTimeRef s' :: timeUpdates s.
Proof.
  intros Hs Hc. unfold pause. open_state s. repeat split.
Qed.

Lemma startOffset_inside (ab : option Q) (v : JS.number) :
  inside ab v -> exists offset, startOffset v = Some offset.
Proof.
  intros (t & -> & H0 & _). exists t. cbn.
  apply Qltb_false in H0. rewrite H0. reflexivity.
Qed.

(** In a well-formed state, once the node [sourceRef] points to is stopped
    no node is left that has not been told to stop. *)
Lemma all_stopped (s : State) :
  wellFormed s ->
  Forall (fun n => nodeStopped n = true)
    match sourceRef s with
    | Some i => stopNode i (nodes s)
    | None => nodes s
    end.
Proof.
  intros (_ & _ & _ & W4). apply Forall_forall. intros n Hin.
  destruct (nodeStopped n) eqn:En; [reflexivity|exfalso].
  apply In_nth_error in Hin. destruct Hin as [j Hj].
  destruct (sourceRef s) as [i|] eqn:Es.
  - destruct (stopNode_unstopped i j _ n Hj En) as [H1 H2].
    specialize (W4 j n H1 En). congruence.
  - specialize (W4 j n Hj En). discriminate.
Qed.

(** X3.  After any sequence of events on a component that has a buffer,
    with clock readings that do not go back: the round button pauses a
    playing controller, and starts one that is not playing unless the stored
    position is [NaN]; then [source.start] throws, nothing plays and the
    controller stays as it was, not playing.  When no text typed into the
    "go to" box was one that [parseTimeInput] turns into [NaN], the button
    always flips the phase. *)
Theorem toggle_flips_phase (d : Q) (events : list Event) (now : Q) :
  0 <= duration (Some d) -> clockOrdered 0 events ->
  let s := run (Some d) events initial in
  let s' := togglePlayPause (Some d) now s in
  (isPlaying s = true -> isPlaying s' = false /\ isPlayingRef s' = false) /\
  (isPlaying s = false -> pauseTimeRef s <> JS.NaN ->
     isPlaying s' = true /\ isPlayingRef s' = true) /\
  (isPlaying s = false -> pauseTimeRef s = JS.NaN ->
     isPlaying s' = false /\ isPlayingRef s' = false /\
     pauseTimeRef s' = JS.NaN /\
     List.length (nodes s') = List.length (nodes s) /\
     Forall (fun n => nodeStopped n = true) (nodes s')) /\
  (tame events ->
     isPlaying s' = negb (isPlaying s) /\
     isPlayingRef s' = negb (isPlaying s)).
Proof.
  intros Hd Hord s s'.
  pose proof (wellFormed_run (Some d) events initial wellFormed_initial) as W.
  pose proof (inRange_run (Some d) Hd events 0 initial
                (inRangeAt_initial (Some d) Hd) Hord) as (R1 & _).
  fold s in W, R1.
  assert (Hpause : isPlaying s = true ->
                   isPlaying s' = false /\ isPlayingRef s' = false).
  { intro Hp. destruct W as (_ & W2 & W3 & _).
    specialize (W2 Hp). specialize (W3 W2).
    destruct (sourceRef s) as [i|] eqn:Es; [|congruence].
    destruct (pause_stops (Some d) now s i Es W3) as (P1 & P2 & _).
    unfold s', togglePlayPause. rewrite Hp. split; assumption. }
  assert (Hplay : isPlaying s = false -> pauseTimeRef s <> JS.NaN ->
                  isPlaying s' = true /\ isPlayingRef s' = true).
  { intros Hp Hn.
    destruct (startOffset_inside (Some d) _
                (inside_of_within (Some d) _ R1 Hn)) as [offset E].
    destruct (play_started d now offset s E) as (P1 & P2 & _).
    unfold s', togglePlayPause. rewrite Hp. split; assumption. }
  split; [exact Hpause|]. split; [exact Hplay|]. split.
  - intros Hp Hn.
    assert (E : startOffset (pauseTimeRef s) = None)
      by (rewrite Hn; reflexivity).
    destruct (play_thrown d now s E) as (P1 & P2 & P3 & _ & _ & _ & P7).
    pose proof (all_stopped s W) as A.
    destruct W as (W1 & _).
    unfold s', togglePlayPause. rewrite Hp.
    split; [congruence|]. split; [congruence|]. split; [congruence|].
    rewrite P7. split; [|exact A].
    destruct (sourceRef s); [apply PlayerFacts.length_stopNode|reflexivity].
  - intro Ht. destruct (clean_run (Some d) events initial Ht clean_initial)
      as (C1 & _).
    fold s in C1. destruct (isPlaying s) eqn:Hp.
    + exact (Hpause eq_refl).
    + exact (Hplay eq_refl C1).
Qed.

Lemma toggle_flips_phase_witness :
  let text := (TextShape.repeated 309 "9" ++ ":-Infinity")%string in
  let bad := [ClickPlayPause 0; ClickPlayPause 1; TypeTimeInput text;
              SubmitTimeInput 2] in
  let good := [ClickPlayPause 0; ClickPlayPause 1; TypeTimeInput "0:30";
               SubmitTimeInput 2] in
  (0 <= duration (Some 100) /\ clockOrdered 0 bad /\ clockOrdered 0 good /\
   tame good /\
   isPlaying (run (Some 100) bad initial) = false /\
   pauseTimeRef (run (Some 100) bad initial) = JS.NaN) /\
  isPlaying (togglePlayPause (Some 100) 3 (run (Some 100) bad initial))
    = false /\
  isPlaying (togglePlayPause (Some 100) 3 (run (Some 100) good initial))
    = negb (isPlaying (run (Some 100) good initial)).
Proof.
  intros text bad good.
  assert (Hd : 0 <= duration (Some 100)) by (vm_compute; discriminate).
  assert (Hb : clockOrdered 0 bad)
    by (cbn; repeat split; vm_compute; discriminate).
  assert (Hg : clockOrdered 0 good)
    by (cbn; repeat split; vm_compute; discriminate).
  assert (Ht : tame good) by (repeat constructor; vm_compute; discriminate).
  assert (Hp : isPlaying (run (Some 100) bad initial) = false)
    by (vm_compute; reflexivity).
  assert (Hn : pauseTimeRef (run (Some 100) bad initial) = JS.NaN)
    by (vm_compute; reflexivity).
  split; [exact (conj Hd (conj Hb (conj Hg (conj Ht (conj Hp Hn)))))|].
  destruct (toggle_flips_phase 100 bad 3 Hd Hb) as (_ & _ & A & _).
  destruct (toggle_flips_phase 100 good 3 Hd Hg) as (_ & _ & _ & B).
  split; [exact (proj1 (A Hp Hn))|exact (proj1 (B Ht))].
Defined.


(** *** Without a buffer *)

Lemma clamp_without_buffer (v : JS.number) :
  JS.max0 (JS.minimum (JS.Fin (duration None)) v) = JS.Fin 0 \/
  JS.max0 (JS.minimum (JS.Fin (duration None)) v) = JS.NaN.
Proof.
  destruct v as [|t|[|]]; [right; reflexivity|left|left; reflexivity|
                           left; reflexivity].
  cbn [JS.minimum JS.max0]. f_equal.
  change (duration None) with 0.
  unfold Qmax, Qmin, GenericMinMax.gmax, GenericMinMax.gmin.
  destruct (0 ?= t) eqn:E; try reflexivity.
  rewrite E. reflexivity.
Qed.

Lemma inert_seekTo (v : JS.number) (now : Q) (s : State) :
  inert s -> inert (seekTo None v now s).
Proof.
  intros (H1 & H2 & H3 & H4 & H5 & H6 & H7 & H8 & H9).
  unfold seekTo. rewrite H4.
  pose proof (clamp_without_buffer v) as C. revert C.
  generalize (JS.max0 (JS.minimum (JS.Fin (duration None)) v)). intros u C.
  open_state s. unfold inert. fields.
  repeat split; try assumption. constructor; assumption.
Qed.

Lemma inert_handle (e : Event) (s : State) :
  inert s -> inert (handle None e s).
Proof.
  intros H. pose proof H as (H1 & H2 & H3 & H4 & H5 & H6 & H7 & H8 & H9).
  destruct e; cbn [handle].
  - unfold togglePlayPause. rewrite H4. exact H.
  - rewrite skip_through_seekTo.
    pose proof (inert_seekTo (JS.add (pauseTimeRef s) (JS.Fin seconds)) now s H)
      as H'.
    revert H'.
    generalize (seekTo None (JS.add (pauseTimeRef s) (JS.Fin seconds)) now s).
    intros x Hx. open_state x. exact Hx.
  - apply inert_seekTo, H.
  - open_state s. exact H.
  - unfold handleTimeInputSubmit.
    destruct (parseTimeInput (timeInput s)) as [v|];
      [apply inert_seekTo, H|exact H].
  - unfold handleRateClick. rewrite H4. cbn [fst]. open_state s. exact H.
  - exact H.
  - unfold runFrame. rewrite H6. exact H.
  - unfold onended. open_state s. destruct flag; unfold inert; fields;
      repeat split; try assumption; left; reflexivity.
Qed.

Lemma inert_run (events : list Event) (s : State) :
  inert s -> inert (run None events s).
Proof.
  revert s. induction events as [|e rest IH]; intros s H; [exact H|].
  cbn [run fold_left]. apply IH, inert_handle, H.
Qed.

Lemma inert_initial : inert initial.
Proof.
  unfold inert. cbn. repeat split; left; reflexivity.
Qed.

(** X6.  Without an audio buffer nothing ever starts: after any sequence of
    events no node and no context has been created, no frame is requested,
    the controller is not playing, and the stored, the displayed and every
    published position is 0 or [NaN]; it is 0 when no text typed into the
    "go to" box was one that [parseTimeInput] turns into [NaN]. *)
Theorem nothing_starts_without_buffer (events : list Event) :
  let s := run None events initial in
  let zero v := v = JS.Fin 0 \/ v = JS.NaN in
  nodes s = [] /\ sourceRef s = None /\ audioContextRef s = false /\
  isPlaying s = false /\ isPlayingRef s = false /\ rafQueue s = [] /\
  zero (pauseTimeRef s) /\ zero (currentTime s) /\
  Forall zero (timeUpdates s) /\
  (tame events ->
     pauseTimeRef s = JS.Fin 0 /\ currentTime s = JS.Fin 0 /\
     Forall (fun v => v = JS.Fin 0) (timeUpdates s)).
Proof.
  intros s zero.
  destruct (inert_run events initial inert_initial)
    as (H1 & H2 & H3 & H4 & H5 & H6 & H7 & H8 & H9).
  fold s in H1, H2, H3, H4, H5, H6, H7, H8, H9.
  repeat (split; [assumption|]).
  intro Ht. destruct (clean_run None events initial Ht clean_initial)
    as (C1 & C2 & C3 & _).
  fold s in C1, C2, C3.
  split; [destruct H7; congruence|]. split; [destruct H8; congruence|].
  rewrite Forall_forall in *. intros v Hv.
  destruct (H9 v Hv); [assumption|]. exfalso. exact (C3 v Hv H).
Qed.

Lemma nothing_starts_without_buffer_witness :
  let events := [ClickPlayPause 0; TypeTimeInput "1:30"; SubmitTimeInput 1;
                 ClickSkip 5 2] in
  tame events /\ pauseTimeRef (run None events initial) = JS.Fin 0.
Proof.
  intro events.
  assert (Ht : tame events) by (repeat constructor; vm_compute; discriminate).
  split; [exact Ht|].
  destruct (nothing_starts_without_buffer events)
    as (_ & _ & _ & _ & _ & _ & _ & _ & _ & A).
  exact (proj1 (A Ht)).
Defined.

(** *** The "go to" box *)

Lemma seekTo_while_not_playing (ab : option Q) (v : JS.number) (now : Q) (s : State) :
  isPlaying s = false ->
  let t := JS.max0 (JS.minimum (JS.Fin (duration ab)) v) in
  seekTo ab v now s =
    set_timeInput EmptyString
      (onTimeUpdate t (set_currentTime t (set_pauseTimeRef t s))).
Proof. intro H. unfold seekTo. rewrite H. reflexivity. Qed.

(** X9.  Submitting the "go to" box.  A text that [parseTimeInput] rejects
    leaves the state as it is, text included.  For any other text [seekTo]
    is called with the result, which is [NaN] or not below zero.  When
    nothing plays, the text is then cleared and the stored, displayed and
    published position is the result clamped to [0, duration]: the duration
    for [Infinity], and [NaN] for [NaN]. *)
Theorem submit_seeks_or_does_nothing (ab : option Q) (now : Q) (s : State) :
  let s' := handleTimeInputSubmit ab now s in
  match parseTimeInput (timeInput s) with
  | None => s' = s
  | Some v =>
      s' = seekTo ab v now s /\
      (v = JS.NaN \/ JS.nonNegative v) /\
      (isPlaying s = false ->
         timeInput s' = EmptyString /\
         pauseTimeRef s' = JS.max0 (JS.minimum (JS.Fin (duration ab)) v) /\
         currentTime s' = pauseTimeRef s' /\
         hd_error (timeUpdates s') = Some (pauseTimeRef s') /\
         nodes s' = nodes s /\ isPlaying s' = false /\
         (v = JS.NaN -> pauseTimeRef s' = JS.NaN) /\
         (forall t, v = JS.Fin t ->
            pauseTimeRef s' = JS.Fin (Qmax 0 (Qmin (duration ab) t))) /\
         (v = JS.Infinity false -> 0 <= duration ab ->
            exists t, pauseTimeRef s' = JS.Fin t /\ t == duration ab))
  end.
Proof.
  intro s'. unfold s', handleTimeInputSubmit.
  destruct (parseTimeInput (timeInput s)) as [v|] eqn:E; [|reflexivity].
  split; [reflexivity|].
  split; [exact (ParseFacts.parseTimeInput_NaN_or_nonNegative _ _ E)|].
  intro Hp. rewrite (seekTo_while_not_playing ab v now s Hp). fields.
  split; [reflexivity|]. split; [reflexivity|]. split; [reflexivity|].
  split; [reflexivity|]. split; [reflexivity|]. split; [exact Hp|].
  split; [intros ->; reflexivity|].
  split; [intros t ->; reflexivity|].
  intros -> Hd. cbn [JS.minimum JS.max0]. eexists. split; [reflexivity|].
  minmax; lra.
Qed.

Lemma submit_seeks_or_does_nothing_witness :
  let s := set_timeInput "1:30" initial in
  let bad :=
    set_timeInput (TextShape.repeated 309 "9" ++ ":-Infinity")%string initial in
  (isPlaying s = false /\ isPlaying bad = false /\ 0 <= duration (Some 60) /\
   parseTimeInput (timeInput s) = Some (JS.Fin 90) /\
   parseTimeInput (timeInput bad) = Some JS.NaN) /\
  pauseTimeRef (handleTimeInputSubmit (Some 60) 0 s)
    = JS.Fin (Qmax 0 (Qmin (duration (Some 60)) 90)) /\
  timeInput (handleTimeInputSubmit (Some 60) 0 s) = EmptyString /\
  pauseTimeRef (handleTimeInputSubmit (Some 60) 0 bad) = JS.NaN /\
  handleTimeInputSubmit (Some 60) 0 (set_timeInput "abc" initial)
    = set_timeInput "abc" initial.
Proof.
  intros s bad.
  assert (Hp : isPlaying s = false) by reflexivity.
  assert (Hb : isPlaying bad = false) by reflexivity.
  assert (Hd : 0 <= duration (Some 60)) by (vm_compute; discriminate).
  assert (E : parseTimeInput (timeInput s) = Some (JS.Fin 90))
    by (vm_compute; reflexivity).
  assert (F : parseTimeInput (timeInput bad) = Some JS.NaN)
    by (vm_compute; reflexivity).
  split; [exact (conj Hp (conj Hb (conj Hd (conj E F))))|].
  pose proof (submit_seeks_or_does_nothing (Some 60) 0 s) as A.
  cbv zeta in A. rewrite E in A. destruct A as (_ & _ & A).
  destruct (A Hp) as (A1 & _ & _ & _ & _ & _ & _ & A8 & _).
  pose proof (submit_seeks_or_does_nothing (Some 60) 0 bad) as B.
  cbv zeta in B. rewrite F in B. destruct B as (_ & _ & B).
  destruct (B Hb) as (_ & _ & _ & _ & _ & _ & B7 & _).
  split; [exact (A8 90 eq_refl)|]. split; [exact A1|].
  split; [exact (B7 eq_refl)|].
  exact (submit_seeks_or_does_nothing (Some 60) 0 (set_timeInput "abc" initial)).
Defined.


(** *** The machine and the player with rational positions *)











End MachineFacts.

(** ** The rest of the waveform view *)
Module ViewFacts.
Import JS Waveform WaveformView.

(** *** Zoom *)

Lemma clickZoom_bounds (c : ZoomClick) (z : Q) :
  1 <= z <= 8 -> 1 <= clickZoom c z <= 8.
Proof.
  intros [H1 H8]. destruct c; cbn [clickZoom].
  - unfold clickZoomOut, MIN_ZOOM. destruct (Qle_bool z 1); [lra|].
    minmax; lra.
  - unfold clickZoomIn, MAX_ZOOM. destruct (Qle_bool 8 z); [lra|].
    minmax; lra.
Qed.

Lemma clickZoom_integer (c : ZoomClick) (z : Q) (n : Z) :
  z == inject_Z n -> (1 <= n <= 8)%Z ->
  exists m, clickZoom c z == inject_Z m /\ (1 <= m <= 8)%Z /\
            (Z.abs (m - n) <= 1)%Z.
Proof.
  intros Hz Hn.
  assert (H1 : inject_Z 1 <= inject_Z n) by (rewrite <- Zle_Qle; lia).
  assert (H8 : inject_Z n <= inject_Z 8) by (rewrite <- Zle_Qle; lia).
  change (inject_Z 1) with 1 in H1. change (inject_Z 8) with 8 in H8.
  destruct c; cbn [clickZoom].
  - unfold clickZoomOut, MIN_ZOOM. destruct (Qle_bool z 1) eqn:E.
    + exists n. split; [exact Hz|]. split; [exact Hn|lia].
    + apply Qle_bool_false in E.
      assert (Hn2 : (2 <= n)%Z).
      { rewrite Hz in E. change 1 with (inject_Z 1) in E.
        rewrite <- Zlt_Qlt in E. lia. }
      exists (n - 1)%Z. split; [|lia].
      assert (K : inject_Z (n - 1) == inject_Z n - 1)
        by (unfold Z.sub; rewrite inject_Z_plus; reflexivity).
      assert (H2 : inject_Z 2 <= inject_Z n) by (rewrite <- Zle_Qle; lia).
      change (inject_Z 2) with 2 in H2.
      rewrite K. revert Hz H2. generalize (inject_Z n). intros q Hz H2.
      minmax; lra.
  - unfold clickZoomIn, MAX_ZOOM. destruct (Qle_bool 8 z) eqn:E.
    + exists n. split; [exact Hz|]. split; [exact Hn|lia].
    + apply Qle_bool_false in E.
      assert (Hn7 : (n <= 7)%Z).
      { rewrite Hz in E. change 8 with (inject_Z 8) in E.
        rewrite <- Zlt_Qlt in E. lia. }
      exists (n + 1)%Z. split; [|lia].
      assert (K : inject_Z (n + 1) == inject_Z n + 1)
        by (rewrite inject_Z_plus; reflexivity).
      assert (H7 : inject_Z n <= inject_Z 7) by (rewrite <- Zle_Qle; lia).
      change (inject_Z 7) with 7 in H7.
      rewrite K. revert Hz H7. generalize (inject_Z n). intros q Hz H7.
      minmax; lra.
Qed.

(** X11.  However many times the zoom buttons are clicked, in whatever
    order, starting from the initial level 1, the zoom level is one of the
    integers 1 to 8; and from any level between 1 and 8 it stays between 1
    and 8. *)
Theorem zoom_stays_within_bounds (clicks : list ZoomClick) (z0 : Q) :
  1 <= z0 <= 8 ->
  1 <= fold_left (fun z c => clickZoom c z) clicks z0 <= 8 /\
  exists n, fold_left (fun z c => clickZoom c z) clicks 1 == inject_Z n
            /\ (1 <= n <= 8)%Z.
Proof.
  intro H0. split.
  - revert z0 H0. induction clicks as [|c rest IH]; intros z0 H0; [exact H0|].
    cbn [fold_left]. apply IH. apply clickZoom_bounds. exact H0.
  - assert (G : forall z n, z == inject_Z n -> (1 <= n <= 8)%Z ->
              exists m, fold_left (fun z c => clickZoom c z) clicks z
                        == inject_Z m /\ (1 <= m <= 8)%Z).
    { induction clicks as [|c rest IH]; intros z n Hz Hn.
      - exists n. split; [exact Hz|exact Hn].
      - cbn [fold_left].
        destruct (clickZoom_integer c z n Hz Hn) as (m & Hm & Hb & _).
        exact (IH _ m Hm Hb). }
    apply (G 1 1%Z); [reflexivity|lia].
Qed.

Lemma zoom_stays_within_bounds_witness :
  1 <= 3 <= 8 /\
  1 <= fold_left (fun z c => clickZoom c z)
         [ZoomIn; ZoomIn; ZoomIn; ZoomIn; ZoomIn; ZoomIn; ZoomOut] 3 <= 8.
Proof.
  assert (H : 1 <= 3 <= 8) by (split; vm_compute; discriminate).
  split; [exact H|].
  exact (proj1 (zoom_stays_within_bounds
                  [ZoomIn; ZoomIn; ZoomIn; ZoomIn; ZoomIn; ZoomIn; ZoomOut]
                  3 H)).
Defined.

(** *** Pointer events *)

Section Pointer.

Variable buffer : AudioBuffer.
Variables zoomLevel containerWidth : Q.

Local Abbreviation ab := (Some buffer).
Local Abbreviation d := (bufferDuration buffer).
Local Abbreviation W := (inject_Z (canvasWidth zoomLevel containerWidth)).
Local Abbreviation toX := (timeToX ab zoomLevel containerWidth).
Local Abbreviation near x := (nearClick ab zoomLevel containerWidth x).

Lemma canvas_width_positive : 0 < W.
Proof.
  change 0 with (inject_Z 0). rewrite <- Zlt_Qlt.
  pose proof (WaveformFacts.canvasWidth_positive zoomLevel containerWidth).
  lia.
Qed.

Lemma clientXToTime_range (container : option Container) (clientX : Q) :
  0 <= d ->
  0 <= clientXToTime ab zoomLevel containerWidth container clientX <= d.
Proof.
  intro Hd. unfold clientXToTime. cbn [duration].
  destruct (Qle_bool d 0) eqn:E.
  - apply Qle_bool_iff in E. lra.
  - minmax; lra.
Qed.

(** X12.  A click on the canvas, whatever the array of cut points and
    wherever the pointer: the handler calls exactly one callback.  When it
    adds, the time is within [0, duration] and no cut point is within 10
    pixels of the click; when it removes, the id is that of a cut point of
    the array that is within 10 pixels. *)
Theorem click_calls_are_sound
    (container : option Container) (cutPoints : list CutPoint) (clientX : Q) :
  0 <= d ->
  let x := getCanvasX container clientX in
  match handleCanvasClick ab zoomLevel containerWidth container
          cutPoints clientX with
  | Some (onAddCutPoint t) =>
      0 <= t <= d /\ Forall (fun p => near x p = false) cutPoints
  | Some (onRemoveCutPoint i) =>
      exists p, In p cutPoints /\ id p = i /\
                Qabs (toX (time p) - x) < 10
  | None => False
  end.
Proof.
  intros Hd x. unfold handleCanvasClick. fold x.
  destruct (find (near x) cutPoints) as [p|] eqn:E.
  - exists p. apply find_some in E. destruct E as [Hin Hn].
    split; [exact Hin|]. split; [reflexivity|].
    unfold nearClick in Hn. apply Qltb_true in Hn. exact Hn.
  - split; [apply clientXToTime_range; exact Hd|].
    apply CutPointFacts.find_nothing. exact E.
Qed.

(** X13.  The hover handler and the click handler agree: with the
    container mounted, the pointer is shown as a hand over exactly the
    positions where a click removes a cut point, and [hoveredPoint] is the
    id that the click would remove. *)
Theorem hover_shows_what_click_removes
    (c : Container) (cutPoints : list CutPoint) (clientX : Q) :
  handleMouseMove ab zoomLevel containerWidth (Some c) cutPoints clientX
  = Some
      match handleCanvasClick ab zoomLevel containerWidth (Some c)
              cutPoints clientX with
      | Some (onRemoveCutPoint i) => Some i
      | _ => None
      end.
Proof.
  unfold handleMouseMove, handleCanvasClick.
  destruct (find _ cutPoints); reflexivity.
Qed.

(** X14.  For a positive duration, [timeToX] maps [0, duration] onto the
    canvas, 0 to the left edge and the duration to the right edge, in
    order; the playhead of [draw] is at [timeToX(currentTime)] and the
    marker of a cut point at [timeToX] of its time. *)
Theorem markers_and_playhead_on_canvas (currentTime t t' : Q) (p : CutPoint) :
  0 < d ->
  toX 0 == 0 /\ toX d == W /\
  (t <= t' -> toX t <= toX t') /\
  (0 <= t <= d -> 0 <= toX t <= W) /\
  progressX ab currentTime zoomLevel containerWidth = toX currentTime /\
  markerX ab zoomLevel containerWidth p = Fin (toX (time p)).
Proof.
  intro Hd. pose proof canvas_width_positive as HW.
  assert (E : forall u, toX u = (u / d) * W).
  { intro u. unfold timeToX. cbn [duration].
    rewrite (proj2 (Qltb_true 0 d) Hd). reflexivity. }
  assert (Hdiv : forall u v, u <= v -> u / d <= v / d).
  { intros u v Huv. unfold Qdiv. apply Qmult_le_compat_r; [exact Huv|].
    apply Qlt_le_weak, Qinv_lt_0_compat, Hd. }
  assert (Hmono : forall u v, u <= v -> toX u <= toX v).
  { intros u v Huv. rewrite !E.
    apply Qmult_le_compat_r; [apply Hdiv; exact Huv|lra]. }
  assert (E0 : toX 0 == 0) by (rewrite E; field; lra).
  assert (Ed : toX d == W) by (rewrite E; field; lra).
  split; [exact E0|]. split; [exact Ed|]. split; [apply Hmono|].
  split.
  - intros [H0 H1]. split.
    + rewrite <- E0. apply Hmono, H0.
    + rewrite <- Ed. apply Hmono, H1.
  - split.
    + unfold progressX, timeToX. reflexivity.
    + unfold markerX, divide. cbn [duration].
      destruct (Qeq_bool d 0) eqn:E'.
      * apply Qeq_bool_iff in E'. lra.
      * cbn [mul]. rewrite E. reflexivity.
Qed.

(** X15.  With a duration of 0 the division in [draw] is not guarded: the
    marker of a cut point has no finite x ([NaN] for time 0, an infinity
    otherwise), while [timeToX], which the hit test uses, gives 0, and the
    playhead is at 0. *)
Theorem markers_with_zero_duration (currentTime : Q) (p : CutPoint) :
  d == 0 ->
  (forall x, markerX ab zoomLevel containerWidth p <> Fin x) /\
  (time p == 0 -> markerX ab zoomLevel containerWidth p = NaN) /\
  toX (time p) = 0 /\
  progressX ab currentTime zoomLevel containerWidth = 0.
Proof.
  intro Hd.
  assert (Eb : Qeq_bool d 0 = true) by (apply Qeq_bool_iff; exact Hd).
  assert (El : Qltb 0 d = false) by (apply Qltb_false; lra).
  split; [|split; [|split]].
  - intros x. unfold markerX, divide. cbn [duration]. rewrite Eb.
    destruct (Qeq_bool (time p) 0); cbn [mul]; [discriminate|].
    destruct (Qeq_bool W 0); discriminate.
  - intro Ht. unfold markerX, divide. cbn [duration]. rewrite Eb.
    rewrite (proj2 (Qeq_bool_iff (time p) 0) Ht). reflexivity.
  - unfold timeToX. cbn [duration]. rewrite El. reflexivity.
  - unfold progressX. cbn [duration]. rewrite El. reflexivity.
Qed.

(** X16.  For a positive duration, a click at the canvas position where the
    marker of a cut point is drawn always removes: the handler calls
    [onRemoveCutPoint] with the id of a cut point within 10 pixels, that one
    or one earlier in the array. *)
Theorem click_on_marker_removes
    (container : option Container) (cutPoints : list CutPoint)
    (p : CutPoint) (clientX : Q) :
  0 < d -> In p cutPoints ->
  getCanvasX container clientX == toX (time p) ->
  exists q before after,
    handleCanvasClick ab zoomLevel containerWidth container cutPoints clientX
      = Some (onRemoveCutPoint (id q)) /\
    cutPoints = before ++ q :: after /\
    Qabs (toX (time q) - toX (time p)) < 10 /\
    (q = p \/ In p after).
Proof.
  intros Hd Hin Hx. unfold handleCanvasClick.
  set (x := getCanvasX container clientX) in *.
  assert (Hp : near x p = true).
  { unfold nearClick. apply Qltb_true.
    assert (E : toX (time p) - x == 0) by (rewrite Hx; ring).
    rewrite E. reflexivity. }
  destruct (find (near x) cutPoints) as [q|] eqn:E.
  - destruct (CutPointFacts.find_first _ _ _ E)
      as (Hq & before & after & Hsplit & Hall).
    exists q, before, after. split; [reflexivity|]. split; [exact Hsplit|].
    split.
    + unfold nearClick in Hq. apply Qltb_true in Hq.
      rewrite <- Hx. exact Hq.
    + rewrite Hsplit in Hin. apply in_app_or in Hin.
      destruct Hin as [Hb|[Hq'|Ha]]; [|left; exact Hq'|right; exact Ha].
      exfalso. rewrite Forall_forall in Hall. specialize (Hall p Hb).
      congruence.
  - exfalso. apply CutPointFacts.find_nothing in E.
    rewrite Forall_forall in E. specialize (E p Hin). congruence.
Qed.

End Pointer.

Lemma click_calls_are_sound_witness :
  let b := mkAudioBuffer 10 [] in
  let c := Some (mkContainer 0 0 100) in
  0 <= bufferDuration b /\
  handleCanvasClick (Some b) 1 100 c [mkCutPoint "a" 5] 5000
    = Some (onAddCutPoint 10) /\
  0 <= 10 <= bufferDuration b.
Proof.
  intros b c.
  assert (H : 0 <= bufferDuration b) by (vm_compute; discriminate).
  assert (E : handleCanvasClick (Some b) 1 100 c [mkCutPoint "a" 5] 5000
              = Some (onAddCutPoint 10)) by (vm_compute; reflexivity).
  split; [exact H|]. split; [exact E|].
  pose proof (click_calls_are_sound b 1 100 c [mkCutPoint "a" 5] 5000 H) as A.
  cbv zeta in A. rewrite E in A. exact (proj1 A).
Defined.

Lemma markers_and_playhead_on_canvas_witness :
  let b := mkAudioBuffer 100 [] in
  (0 < bufferDuration b /\ 0 <= 50 <= bufferDuration b) /\
  0 <= timeToX (Some b) 2 500 50 <= inject_Z (canvasWidth 2 500).
Proof.
  intro b.
  assert (Hd : 0 < bufferDuration b) by reflexivity.
  assert (Ht : 0 <= 50 <= bufferDuration b)
    by (split; vm_compute; discriminate).
  split; [exact (conj Hd Ht)|].
  destruct (markers_and_playhead_on_canvas b 2 500 0 50 50
              (mkCutPoint "a" 50) Hd) as (_ & _ & _ & A & _).
  exact (A Ht).
Defined.

Lemma markers_with_zero_duration_witness :
  let b := mkAudioBuffer 0 [] in
  bufferDuration b == 0 /\
  markerX (Some b) 1 100 (mkCutPoint "a" 0) = NaN /\
  timeToX (Some b) 1 100 0 = 0.
Proof.
  intro b.
  assert (Hd : bufferDuration b == 0) by reflexivity.
  assert (Ht : time (mkCutPoint "a" 0) == 0) by reflexivity.
  split; [exact Hd|].
  destruct (markers_with_zero_duration b 1 100 0 (mkCutPoint "a" 0) Hd)
    as (_ & A & B & _).
  split; [exact (A Ht)|exact B].
Defined.

Lemma click_on_marker_removes_witness :
  let b := mkAudioBuffer 100 [] in
  let p := mkCutPoint "a" 50 in
  (0 < bufferDuration b /\ In p [p]
   /\ getCanvasX (Some (mkContainer 20 0 500)) 520
      == timeToX (Some b) 2 500 (time p)) /\
  exists q before after,
    handleCanvasClick (Some b) 2 500 (Some (mkContainer 20 0 500)) [p] 520
      = Some (onRemoveCutPoint (id q)) /\
    [p] = before ++ q :: after /\
    Qabs (timeToX (Some b) 2 500 (time q) - timeToX (Some b) 2 500 (time p))
      < 10 /\
    (q = p \/ In p after).
Proof.
  intros b p.
  assert (Hd : 0 < bufferDuration b) by reflexivity.
  assert (Hin : In p [p]) by (left; reflexivity).
  assert (Hx : getCanvasX (Some (mkContainer 20 0 500)) 520
               == timeToX (Some b) 2 500 (time p))
    by (vm_compute; reflexivity).
  split; [exact (conj Hd (conj Hin Hx))|].
  exact (click_on_marker_removes b 2 500 (Some (mkContainer 20 0 500))
           [p] p 520 Hd Hin Hx).
Defined.

(** *** The waveform path *)

Lemma firstn_add {A : Type} (a b : nat) (l : list A) :
  firstn (a + b) l = firstn a l ++ firstn b (skipn a l).
Proof.
  revert l. induction a as [|a IH]; intros l; [reflexivity|].
  destruct l as [|x l]; cbn.
  - rewrite firstn_nil. reflexivity.
  - f_equal. apply IH.
Qed.

Lemma columns_concat (data : list Q) (step width : nat) :
  concat (map (columnSamples data step) (seq 0 width))
  = firstn (width * step) data.
Proof.
  induction width as [|w IH]; [reflexivity|].
  rewrite seq_S, map_app, concat_app, IH. cbn [map concat plus].
  rewrite app_nil_r. unfold columnSamples.
  replace (S w * step)%nat with (w * step + step)%nat by lia.
  symmetry. apply firstn_add.
Qed.

(** X17.  No sample is left out of the waveform, whatever the zoom and the
    width of the container.  The inner loop of [draw] for column [i] scans
    the samples [columnSamples data step i]; these columns, taken from left
    to right over the width of the canvas, are the samples themselves, in
    order; and the sample at index [k] belongs to column [k / step], which
    is on the canvas, and lies between the minimum and the maximum that the
    loop has for that column. *)
Theorem columns_cover_every_sample
    (b : AudioBuffer) (zoomLevel containerWidth : Q) :
  let data := channelData b in
  let width := canvasWidth zoomLevel containerWidth in
  let step := Z.to_nat (stepOf data width) in
  (forall i, columnMinMax data step i
             = foldMinMax (columnSamples data step i) 1 (-(1))) /\
  concat (map (columnSamples data step) (seq 0 (Z.to_nat width))) = data /\
  (forall k datum, nth_error data k = Some datum ->
     let i := (k / step)%nat in
     (i < Z.to_nat width)%nat /\
     nth_error (columnSamples data step i) (k mod step) = Some datum /\
     fst (columnMinMax data step i) <= datum
       <= snd (columnMinMax data step i)).
Proof.
  intros data width step.
  pose proof (WaveformFacts.canvasWidth_positive zoomLevel containerWidth)
    as Hw. fold width in Hw.
  destruct (WaveformFacts.stepOf_spec data width ltac:(lia)) as [_ Hup].
  assert (H0 : (0 <= stepOf data width)%Z).
  { destruct (Z.le_gt_cases 0 (stepOf data width)) as [H|H]; [exact H|].
    exfalso. assert ((stepOf data width * width < 0)%Z) by nia. lia. }
  assert (Hcover : (List.length data <= Z.to_nat width * step)%nat)
    by (unfold step; nia).
  assert (Hscan : forall i, columnMinMax data step i
                            = foldMinMax (columnSamples data step i) 1 (-(1))).
  { intro i. unfold columnMinMax, columnSamples.
    apply WaveformFacts.scanColumn_fold. }
  split; [exact Hscan|]. split.
  - rewrite columns_concat. apply firstn_all2. exact Hcover.
  - intros k datum Hk i.
    assert (Hlen : (k < List.length data)%nat)
      by (apply nth_error_Some; congruence).
    assert (Hstep : step <> 0%nat) by (intro E; rewrite E in Hcover; lia).
    assert (Hmod : (k mod step < step)%nat) by (apply Nat.mod_upper_bound, Hstep).
    assert (Hdiv : k = (i * step + k mod step)%nat).
    { unfold i. rewrite (Nat.mul_comm (k / step) step).
      apply Nat.div_mod_eq. }
    assert (Hnth : nth_error (columnSamples data step i) (k mod step)
                   = Some datum).
    { rewrite WaveformFacts.columnSamples_nth.
      destruct (Nat.ltb_spec (k mod step) step) as [_|H]; [|lia].
      rewrite <- Hdiv. exact Hk. }
    split; [|split; [exact Hnth|]].
    + unfold i. apply Nat.Div0.div_lt_upper_bound. lia.
    + apply nth_error_In in Hnth. rewrite Hscan.
      pose proof (WaveformFacts.foldMinMax_spec
                    (columnSamples data step i) 1 (-(1))) as F.
      destruct (foldMinMax (columnSamples data step i) 1 (- (1))) as [mn mx].
      destruct F as (_ & F1 & _ & F2). cbn [fst snd].
      split; [apply F1|apply F2]; right; exact Hnth.
Qed.

Lemma columns_cover_every_sample_witness :
  let b := mkAudioBuffer 10 [1#2; -(1#2); 1#4; -(1#4); 3#4] in
  nth_error (channelData b) 3 = Some (-(1#4)) /\
  fst (columnMinMax (channelData b) 2 1) <= -(1#4)
    <= snd (columnMinMax (channelData b) 2 1).
Proof.
  intro b.
  assert (H : nth_error (channelData b) 3 = Some (-(1#4))) by reflexivity.
  split; [exact H|].
  destruct (columns_cover_every_sample b 1 4) as (_ & _ & A).
  exact (proj2 (proj2 (A 3%nat _ H))).
Defined.

Lemma columnSamples_incl (data : list Q) (step i : nat) (x : Q) :
  In x (columnSamples data step i) -> In x data.
Proof.
  unfold columnSamples. intro H.
  rewrite <- (firstn_skipn (i * step) data). apply in_or_app. right.
  rewrite <- (firstn_skipn step (skipn (i * step) data)).
  apply in_or_app. left. exact H.
Qed.

(** X18.  When every sample lies in [-1, 1], both rows that [draw] computes
    for a column lie on the canvas, between 0 and the height, and for a
    column that has samples the row of the minimum is not below the row of
    the maximum in value. *)
Theorem waveform_rows_on_canvas
    (b : AudioBuffer) (zoomLevel containerWidth : Q) (i : nat) :
  (forall x, In x (channelData b) -> -(1) <= x <= 1) ->
  let data := channelData b in
  let step := Z.to_nat (stepOf data (canvasWidth zoomLevel containerWidth)) in
  let amp := WAVEFORM_HEIGHT / 2 in
  let y1 := (1 + fst (columnMinMax data step i)) * amp in
  let y2 := (1 + snd (columnMinMax data step i)) * amp in
  0 <= y1 <= WAVEFORM_HEIGHT /\ 0 <= y2 <= WAVEFORM_HEIGHT /\
  (columnSamples data step i <> [] -> y1 <= y2).
Proof.
  intros Hrange data step amp y1 y2.
  assert (Hcol : columnMinMax data step i
                 = foldMinMax (columnSamples data step i) 1 (-(1)))
    by (unfold columnMinMax; apply WaveformFacts.scanColumn_fold).
  pose proof (WaveformFacts.foldMinMax_spec (columnSamples data step i)
                1 (-(1))) as Hspec.
  unfold y1, y2. rewrite Hcol.
  destruct (foldMinMax (columnSamples data step i) 1 (-(1))) as [mn mx].
  cbn [fst snd]. destruct Hspec as (S1 & S2 & S3 & S4).
  assert (Hin : forall x, In x (columnSamples data step i) -> -(1) <= x <= 1)
    by (intros x Hx; apply Hrange, (columnSamples_incl data step i), Hx).
  assert (Hmn : -(1) <= mn <= 1).
  { destruct S1 as [<-|S1]; [lra|apply Hin, S1]. }
  assert (Hmx : -(1) <= mx <= 1).
  { destruct S3 as [<-|S3]; [lra|apply Hin, S3]. }
  assert (Ea : amp == 64) by reflexivity.
  assert (Eh : WAVEFORM_HEIGHT == 128) by reflexivity.
  rewrite Ea, Eh.
  split; [lra|]. split; [lra|].
  intro Hne. destruct (columnSamples data step i) as [|x rest]; [congruence|].
  assert (mn <= x) by (apply S2; right; left; reflexivity).
  assert (x <= mx) by (apply S4; right; left; reflexivity).
  lra.
Qed.

Lemma waveform_rows_on_canvas_witness :
  let b := mkAudioBuffer 10 [1#2; -(1#2); 1#4; -(1#4); 3#4] in
  (forall x, In x (channelData b) -> -(1) <= x <= 1) /\
  0 <= (1 + fst (columnMinMax (channelData b) 2 1)) * (WAVEFORM_HEIGHT / 2)
    <= WAVEFORM_HEIGHT.
Proof.
  intro b.
  assert (H : forall x, In x (channelData b) -> -(1) <= x <= 1).
  { intros x [<-|[<-|[<-|[<-|[<-|[]]]]]]; split; vm_compute; discriminate. }
  split; [exact H|].
  exact (proj1 (waveform_rows_on_canvas b 1 4 1 H)).
Defined.

Lemma length_flat_map_pairs {A B : Type} (f : A -> list B) (l : list A) :
  (forall x, List.length (f x) = 2%nat) ->
  List.length (flat_map f l) = (2 * List.length l)%nat.
Proof.
  intro H. induction l as [|x l IH]; [reflexivity|].
  cbn [flat_map]. rewrite length_app, H, IH. cbn [List.length]. lia.
Qed.

(** X19.  [draw] returns without drawing exactly when there is no buffer or
    the container has no positive width.  Otherwise it fills the canvas,
    then strokes a path that starts with a move to x = 0 and has two points
    per pixel column, of which there is at least one. *)
Theorem draw_path_shape
    (ab : option AudioBuffer) (zoomLevel containerWidth : Q) :
  let W := Z.to_nat (canvasWidth zoomLevel containerWidth) in
  (draw ab zoomLevel containerWidth = None
   <-> ab = None \/ containerWidth <= 0) /\
  (1 <= W)%nat /\
  forall path, draw ab zoomLevel containerWidth = Some path ->
    List.length path = (2 * W + 3)%nat /\
    nth_error path 0
      = Some (fillRect 0 0 (inject_Z (canvasWidth zoomLevel containerWidth))
                WAVEFORM_HEIGHT) /\
    nth_error path 1 = Some beginPath /\
    (exists y, nth_error path 2 = Some (moveTo 0 y)) /\
    nth_error path (2 * W + 2) = Some stroke.
Proof.
  intro W.
  pose proof (WaveformFacts.canvasWidth_positive zoomLevel containerWidth)
    as Hw.
  assert (HW : (1 <= W)%nat) by (unfold W; lia).
  split; [|split; [exact HW|]].
  - unfold draw. destruct ab as [b|].
    + destruct (Qle_bool containerWidth 0) eqn:E.
      * apply Qle_bool_iff in E. split; [right; exact E|reflexivity].
      * apply Qle_bool_false in E. split; [discriminate|].
        intros [H|H]; [discriminate|lra].
    + split; [left|]; reflexivity.
  - intros path. unfold draw. destruct ab as [b|]; [|discriminate].
    destruct (Qle_bool containerWidth 0); [discriminate|].
    intros [= <-]. fold W.
    set (cols := flat_map _ (seq 0 W)).
    assert (Hlen : List.length cols = (2 * W)%nat).
    { unfold cols. rewrite length_flat_map_pairs, length_seq; [reflexivity|].
      intro x. unfold drawColumn. destruct (columnMinMax _ _ x). reflexivity. }
    split; [cbn [List.length]; rewrite length_app, Hlen; cbn; lia|].
    split; [reflexivity|]. split; [reflexivity|]. split.
    + unfold cols. destruct W as [|w]; [lia|]. cbn [seq flat_map].
      unfold drawColumn at 1. destruct (columnMinMax _ _ 0%nat) as [mn mx].
      cbn. eexists. reflexivity.
    + replace (2 * W + 2)%nat with (S (S (List.length cols + 0))) by lia.
      cbn [nth_error]. rewrite nth_error_app2 by lia.
      replace (List.length cols + 0 - List.length cols)%nat with 0%nat by lia.
      reflexivity.
Qed.

(** *** Scrolling to the playhead *)

(** X20.  [scrollPlayheadIntoView] assigns nothing without a container or
    for a duration that is not positive.  Otherwise it assigns nothing
    exactly when the playhead is between the left edge of the view and 20
    pixels before its right edge; what it assigns is never negative and
    puts the playhead at the middle of the view, or leaves the view at the
    start when the playhead is in its first half.  In a view at least 40
    pixels wide that takes the assigned value, a second call assigns
    nothing. *)
Theorem scroll_brings_playhead_into_view
    (b : AudioBuffer) (currentTime zoomLevel containerWidth : Q)
    (c : Container) :
  let scroll := scrollPlayheadIntoView (Some b) currentTime zoomLevel
                  containerWidth in
  let x := progressX (Some b) currentTime zoomLevel containerWidth in
  scroll None = None /\
  (bufferDuration b <= 0 -> scroll (Some c) = None) /\
  (0 < bufferDuration b ->
     match scroll (Some c) with
     | None => scrollLeft c <= x <= scrollLeft c + clientWidth c - 20
     | Some v =>
         (x < scrollLeft c \/ scrollLeft c + clientWidth c - 20 < x) /\
         0 <= v /\
         (clientWidth c / 2 <= x -> v == x - clientWidth c / 2) /\
         (x <= clientWidth c / 2 -> v == 0) /\
         (0 <= x -> 40 <= clientWidth c ->
            scroll (Some (mkContainer (rectLeft c) v (clientWidth c)))
              = None)
     end).
Proof.
  intros scroll x. split; [reflexivity|]. split.
  - intro Hd. unfold scroll, scrollPlayheadIntoView. cbn [duration].
    apply Qle_bool_iff in Hd. rewrite Hd. reflexivity.
  - intro Hd.
    assert (Ex : x = (currentTime / bufferDuration b)
                     * inject_Z (canvasWidth zoomLevel containerWidth)).
    { unfold x, progressX. cbn [duration].
      rewrite (proj2 (Qltb_true _ _) Hd). reflexivity. }
    assert (Es : forall c',
              scroll (Some c')
              = if Qltb x (scrollLeft c')
                   || Qltb (scrollLeft c' + clientWidth c' - 20) x
                then Some (Qmax 0 (x - clientWidth c' / 2)) else None).
    { intro c'. unfold scroll, scrollPlayheadIntoView. cbn [duration].
      rewrite (proj2 (Qle_bool_false _ _) Hd), <- Ex. reflexivity. }
    rewrite Es. clear Ex. clearbody x.
    destruct (Qltb x (scrollLeft c)) eqn:E1;
      [|destruct (Qltb (scrollLeft c + clientWidth c - 20) x) eqn:E2];
      cbn [orb].
    + apply Qltb_true in E1.
      split; [left; exact E1|]. split; [apply Q.le_max_l|].
      split; [intro H; minmax; lra|]. split; [intro H; minmax; lra|].
      intros Hx Hw. rewrite Es. cbn [scrollLeft clientWidth].
      set (v := Qmax 0 (x - clientWidth c / 2)).
      assert (Hv : 0 <= v /\ (v == 0 \/ v == x - clientWidth c / 2)
                   /\ x - clientWidth c / 2 <= v)
        by (unfold v; minmax; lra).
      clearbody v.
      assert (Eh : clientWidth c == 2 * (clientWidth c / 2)) by field.
      revert Hv Eh. generalize (clientWidth c / 2). intros h Hv Eh.
      rewrite (proj2 (Qltb_false x v)), (proj2 (Qltb_false (v + clientWidth c - 20) x));
        [reflexivity| |]; destruct Hv as (V1 & [V2|V2] & V3); lra.
    + apply Qltb_true in E2.
      split; [right; exact E2|]. split; [apply Q.le_max_l|].
      split; [intro H; minmax; lra|]. split; [intro H; minmax; lra|].
      intros Hx Hw. rewrite Es. cbn [scrollLeft clientWidth].
      set (v := Qmax 0 (x - clientWidth c / 2)).
      assert (Hv : 0 <= v /\ (v == 0 \/ v == x - clientWidth c / 2)
                   /\ x - clientWidth c / 2 <= v)
        by (unfold v; minmax; lra).
      clearbody v.
      assert (Eh : clientWidth c == 2 * (clientWidth c / 2)) by field.
      revert Hv Eh. generalize (clientWidth c / 2). intros h Hv Eh.
      rewrite (proj2 (Qltb_false x v)), (proj2 (Qltb_false (v + clientWidth c - 20) x));
        [reflexivity| |]; destruct Hv as (V1 & [V2|V2] & V3); lra.
    + apply Qltb_false in E1, E2. split; assumption.
Qed.

Lemma scroll_brings_playhead_into_view_witness :
  let b := mkAudioBuffer 100 [] in
  let c := mkContainer 0 0 500 in
  (0 < bufferDuration b /\ 0 <= progressX (Some b) 90 2 500
   /\ 40 <= clientWidth c) /\
  scrollPlayheadIntoView (Some b) 90 2 500 (Some c)
    = Some (130000 # 200) /\
  scrollPlayheadIntoView (Some b) 90 2 500
    (Some (mkContainer 0 (130000 # 200) 500)) = None.
Proof.
  intros b c.
  assert (Hd : 0 < bufferDuration b) by reflexivity.
  assert (Hx : 0 <= progressX (Some b) 90 2 500) by (vm_compute; discriminate).
  assert (Hw : 40 <= clientWidth c) by (vm_compute; discriminate).
  assert (E : scrollPlayheadIntoView (Some b) 90 2 500 (Some c)
              = Some (130000 # 200))
    by (vm_compute; reflexivity).
  split; [exact (conj Hd (conj Hx Hw))|]. split; [exact E|].
  destruct (scroll_brings_playhead_into_view b 90 2 500 c) as (_ & _ & A).
  specialize (A Hd). cbv zeta in A. rewrite E in A.
  destruct A as (_ & _ & _ & _ & A5). exact (A5 Hx Hw).
Defined.

Lemma draw_path_shape_witness :
  let ab := Some (mkAudioBuffer 10 [1#2; -(1#2); 1#4; -(1#4); 3#4]) in
  (exists path, draw ab 1 4 = Some path) /\
  (draw ab 1 0 = None) /\
  forall path, draw ab 1 4 = Some path -> List.length path = 11%nat.
Proof.
  intro ab.
  split; [eexists; reflexivity|].
  destruct (draw_path_shape ab 1 0) as (A & _).
  split; [apply A; right; vm_compute; discriminate|].
  intros path Hp.
  destruct (draw_path_shape ab 1 4) as (_ & _ & B).
  exact (proj1 (B path Hp)).
Defined.

(** *** The list of cut points *)

Lemma sortByTime_of_sorted (l : list CutPoint) :
  StronglySorted byTime l -> sortByTime l = l.
Proof.
  induction 1 as [|p rest Hs IH Hall]; [reflexivity|].
  cbn [sortByTime]. rewrite IH.
  destruct rest as [|q rest']; [reflexivity|].
  cbn [insertByTime]. inversion Hall as [|? ? Hpq _]; subst.
  unfold byTime in Hpq. apply Qle_bool_iff in Hpq. rewrite Hpq. reflexivity.
Qed.

Lemma numbered_rows {A : Type} (k : nat) (m : list A) :
  map fst (combine (seq k (List.length m)) m) = seq k (List.length m).
Proof.
  revert k. induction m as [|x m IH]; intro k; [reflexivity|].
  cbn. f_equal. apply IH.
Qed.

(** X21.  The rows of the list of cut points are numbered 1, 2, ... in the
    order shown; the cut points shown are those of the array, none dropped
    or repeated, ascending by time, those of one time in the order they had.
    Rendering an array that is already ascending leaves it as it is, so
    rendering twice is rendering once. *)
Theorem rows_are_numbered_sorted_permutation (cutPoints : list CutPoint) :
  let rows := snd (renderCutPoints cutPoints) in
  map fst rows = seq 1 (List.length cutPoints) /\
  Permutation cutPoints (map snd rows) /\
  StronglySorted byTime (map snd rows) /\
  (forall t, filter (fun p => Qeq_bool (time p) t) (map snd rows)
             = filter (fun p => Qeq_bool (time p) t) cutPoints) /\
  (StronglySorted byTime cutPoints ->
     arrayAfterRender cutPoints = cutPoints) /\
  arrayAfterRender (arrayAfterRender cutPoints) = arrayAfterRender cutPoints.
Proof.
  intro rows.
  destruct (CutPointFacts.presented_is_sorted_array cutPoints) as [Hp Ha].
  unfold presented in Hp. fold rows in Hp.
  split.
  - unfold rows, renderCutPoints. destruct cutPoints as [|p rest];
      [reflexivity|]. cbn [snd].
    rewrite (Permutation_length
               (CutPointFacts.sortByTime_perm (p :: rest))).
    apply numbered_rows.
  - rewrite Hp.
    split; [apply CutPointFacts.sortByTime_perm|].
    split; [apply CutPointFacts.sortByTime_sorted|].
    split; [intro t; apply CutPointFacts.sortByTime_stable|].
    split.
    + intro Hs. rewrite Ha. apply sortByTime_of_sorted, Hs.
    + destruct (CutPointFacts.presented_is_sorted_array
                  (arrayAfterRender cutPoints)) as [_ Ha'].
      rewrite Ha', Ha. apply sortByTime_of_sorted.
      apply CutPointFacts.sortByTime_sorted.
Qed.

Lemma rows_are_numbered_sorted_permutation_witness :
  let l := [mkCutPoint "b" 2; mkCutPoint "a" 5] in
  StronglySorted byTime l /\ arrayAfterRender l = l.
Proof.
  intro l.
  assert (H : StronglySorted byTime l).
  { repeat constructor. unfold byTime. vm_compute. discriminate. }
  split; [exact H|].
  destruct (rows_are_numbered_sorted_permutation l) as (_ & _ & _ & _ & A & _).
  exact (A H).
Defined.

(** *** Editing the time of a cut point *)

(** X22.  [commitEdit] on a row that is not the one being edited does
    nothing.  On the row being edited it always ends the edit, and calls
    [onUpdateCutPoint] only when the text parsed and the duration is
    positive, then with the id of the row and the parsed time clamped to
    [0, duration]. *)
Theorem commitEdit_updates_with_clamped_time
    (b : AudioBuffer) (parse : string -> option Q) (point : CutPoint)
    (editingId : option string) (editingValue : string) :
  let d := bufferDuration b in
  let result := commitEdit (Some b) parse point editingId editingValue in
  (editingId <> Some (id point) -> result = (None, editingId)) /\
  (editingId = Some (id point) ->
     snd result = None /\
     match fst result with
     | Some (i, t) =>
         i = id point /\ 0 < d /\ 0 <= t <= d /\
         exists v, parse editingValue = Some v /\ t = Qmax 0 (Qmin d v) /\
                   (0 <= v <= d -> t == v)
     | None => parse editingValue = None \/ d <= 0
     end).
Proof.
  intros d result. unfold result, commitEdit. cbn [duration]. fold d.
  split.
  - intro Hne. destruct editingId as [i|]; [|reflexivity].
    destruct (String.eqb_spec i (id point)) as [->|Hn]; [congruence|].
    reflexivity.
  - intros ->. rewrite String.eqb_refl. cbn [negb snd fst].
    split; [reflexivity|].
    destruct (parse editingValue) as [v|]; [|left; reflexivity].
    destruct (Qltb 0 d) eqn:E.
    + apply Qltb_true in E. split; [reflexivity|]. split; [exact E|].
      split; [minmax; lra|]. exists v. split; [reflexivity|].
      split; [reflexivity|]. intro Hv. minmax; lra.
    + apply Qltb_false in E. right. exact E.
Qed.

Lemma commitEdit_updates_with_clamped_time_witness :
  let b := mkAudioBuffer 100 [] in
  let parse := fun _ : string => Some 250 in
  let point := mkCutPoint "a" 5 in
  (Some "a"%string = Some (id point) /\ None <> Some (id point)) /\
  commitEdit (Some b) parse point (Some "a"%string) "4:10"
    = (Some ("a"%string, 100), None) /\
  commitEdit (Some b) parse point None "4:10" = (None, None).
Proof.
  intros b parse point.
  assert (H1 : Some "a"%string = Some (id point)) by reflexivity.
  assert (H2 : None <> Some (id point)) by discriminate.
  split; [exact (conj H1 H2)|].
  destruct (commitEdit_updates_with_clamped_time b parse point
              (Some "a"%string) "4:10") as (_ & B).
  destruct (B H1) as (B1 & _).
  split; [reflexivity|].
  destruct (commitEdit_updates_with_clamped_time b parse point None "4:10")
    as (A & _).
  exact (A H2).
Defined.

End ViewFacts.

(** ** More on [parseTimeInput] *)
Module TextFacts.
Import JS AudioPlayer TextShape TextLemmas.
Local Open Scope string_scope.

(** X23.  White space before and after the text never changes what
    [parseTimeInput] returns. *)
Theorem parseTimeInput_ignores_padding (before text after : string) :
  blank before -> blank after ->
  parseTimeInput (before ++ text ++ after) = parseTimeInput text.
Proof.
  intros Hb Ha. unfold parseTimeInput.
  assert (E : trim (before ++ text ++ after) = trim text).
  { unfold trim at 1. rewrite trimStart_blank_app by exact Hb.
    apply (trim_app_blank text after Ha). }
  rewrite E. reflexivity.
Qed.

Lemma parseTimeInput_ignores_padding_witness :
  (blank "  " /\ blank (String (ascii_of_nat 9) " ")) /\
  parseTimeInput ("  " ++ "1:30" ++ String (ascii_of_nat 9) " ")
    = parseTimeInput "1:30".
Proof.
  assert (H1 : blank "  ") by reflexivity.
  assert (H2 : blank (String (ascii_of_nat 9) " ")) by reflexivity.
  split; [exact (conj H1 H2)|].
  exact (parseTimeInput_ignores_padding "  " "1:30" _ H1 H2).
Defined.

(** X24.  Text made of decimal digits is read as written: ["s"] gives [s],
    ["m:s"] gives [60 m + s] and ["h:m:s"] gives [3600 h + 60 m + s]
    (minutes or seconds above 59 are accepted), as long as the total stays
    below 2^53: up to there every value on the way is an integer that
    binary64 holds exactly. *)
Theorem parseTimeInput_reads_digits (h m sec : string) :
  digits h -> digits m -> digits sec ->
  3600 * valueOf h + 60 * valueOf m + valueOf sec < 9007199254740992 ->
  (exists q, parseTimeInput sec = Some (Fin q) /\ q == valueOf sec) /\
  (exists q, parseTimeInput (m ++ ":" ++ sec) = Some (Fin q) /\
             q == 60 * valueOf m + valueOf sec) /\
  (exists q, parseTimeInput (h ++ ":" ++ m ++ ":" ++ sec) = Some (Fin q) /\
             q == 3600 * valueOf h + 60 * valueOf m + valueOf sec).
Proof.
  intros Hh Hm Hs Hlt.
  pose proof (digitsValue_nonneg h 0%Z (Z.le_refl 0)) as Nh.
  pose proof (digitsValue_nonneg m 0%Z (Z.le_refl 0)) as Nm.
  pose proof (digitsValue_nonneg sec 0%Z (Z.le_refl 0)) as Ns.
  pose proof (digits_plain h (proj2 Hh)) as Ph.
  pose proof (digits_plain m (proj2 Hm)) as Pm.
  pose proof (digits_plain sec (proj2 Hs)) as Ps.
  unfold valueOf in *.
  set (H := digitsValue 0 h) in *. set (M := digitsValue 0 m) in *.
  set (S := digitsValue 0 sec) in *.
  assert (B : (3600 * H + 60 * M + S < 2 ^ 53)%Z).
  { change 3600 with (inject_Z 3600) in Hlt.
    change 60 with (inject_Z 60) in Hlt.
    rewrite <- !inject_Z_mult, <- !inject_Z_plus in Hlt.
    change 9007199254740992 with (inject_Z (2 ^ 53)) in Hlt.
    rewrite <- Zlt_Qlt in Hlt. exact Hlt. }
  assert (Es : parseFloat sec = Fin (inject_Z S)).
  { rewrite (parseFloat_digits sec Hs). apply NumberFacts.double_integer. lia. }
  assert (Em : parseInt m = Fin (inject_Z M)).
  { rewrite (parseInt_digits m Hm). apply NumberFacts.double_integer. lia. }
  assert (Eh : parseInt h = Fin (inject_Z H)).
  { rewrite (parseInt_digits h Hh). apply NumberFacts.double_integer. lia. }
  assert (Pms : every plain m = true /\ every plain sec = true) by auto.
  split; [|split].
  - unfold parseTimeInput.
    rewrite (trim_no_space sec (no_space_of_plain sec Ps)).
    rewrite (isEmpty_digits sec Hs), (split_plain sec Ps).
    rewrite (replace_plain sec Ps), Es. cbn [isNaN max0].
    rewrite NumberFacts.Qmax_0_integer by lia.
    eexists. split; reflexivity.
  - unfold parseTimeInput. rewrite trim_no_space.
    2:{ rewrite every_app. cbn.
        rewrite (no_space_of_plain m Pm), (no_space_of_plain sec Ps).
        reflexivity. }
    rewrite not_empty_colon, (split_plain_colon m sec Pm), (split_plain sec Ps).
    rewrite Em, (replace_plain sec Ps), Es. cbn [isNaN orb].
    change 60 with (inject_Z 60).
    rewrite NumberFacts.times_integers by lia.
    rewrite NumberFacts.plus_integers by lia.
    cbn [max0]. rewrite NumberFacts.Qmax_0_integer by lia.
    eexists. split; [reflexivity|].
    rewrite inject_Z_plus, inject_Z_mult. ring.
  - unfold parseTimeInput. rewrite trim_no_space.
    2:{ rewrite ?every_app; cbn; rewrite ?every_app; cbn.
        rewrite (no_space_of_plain h Ph), (no_space_of_plain m Pm),
          (no_space_of_plain sec Ps). reflexivity. }
    rewrite not_empty_colon, (split_plain_colon h _ Ph),
      (split_plain_colon m sec Pm), (split_plain sec Ps).
    rewrite Eh, Em, (replace_plain sec Ps), Es. cbn [isNaN orb].
    change 60 with (inject_Z 60). change 3600 with (inject_Z 3600).
    rewrite !NumberFacts.times_integers by lia.
    rewrite !NumberFacts.plus_integers by lia.
    cbn [max0]. rewrite NumberFacts.Qmax_0_integer by lia.
    eexists. split; [reflexivity|].
    rewrite !inject_Z_plus, !inject_Z_mult. ring.
Qed.

Lemma parseTimeInput_reads_digits_witness :
  (digits "1" /\ digits "02" /\ digits "75" /\
   3600 * valueOf "1" + 60 * valueOf "02" + valueOf "75" < 9007199254740992) /\
  exists q, parseTimeInput ("1" ++ ":" ++ "02" ++ ":" ++ "75") = Some (Fin q)
            /\ q == 3600 * valueOf "1" + 60 * valueOf "02" + valueOf "75".
Proof.
  assert (H1 : digits "1") by (split; [discriminate|reflexivity]).
  assert (H2 : digits "02") by (split; [discriminate|reflexivity]).
  assert (H3 : digits "75") by (split; [discriminate|reflexivity]).
  assert (H4 : 3600 * valueOf "1" + 60 * valueOf "02" + valueOf "75"
               < 9007199254740992) by reflexivity.
  split; [exact (conj H1 (conj H2 (conj H3 H4)))|].
  exact (proj2 (proj2 (parseTimeInput_reads_digits "1" "02" "75" H1 H2 H3 H4))).
Defined.

(** X25.  In the seconds a comma is read as the decimal point: with digits
    on both sides, ["m:s,f"] gives what ["m:s.f"] gives, and so for the
    one-part and the three-part form. *)
Theorem parseTimeInput_comma_is_point (h m ip fp : string) :
  digits h -> digits m -> digits ip -> digits fp ->
  parseTimeInput (ip ++ "," ++ fp) = parseTimeInput (ip ++ "." ++ fp) /\
  parseTimeInput (m ++ ":" ++ ip ++ "," ++ fp)
    = parseTimeInput (m ++ ":" ++ ip ++ "." ++ fp) /\
  parseTimeInput (h ++ ":" ++ m ++ ":" ++ ip ++ "," ++ fp)
    = parseTimeInput (h ++ ":" ++ m ++ ":" ++ ip ++ "." ++ fp).
Proof.
  intros Hh Hm Hi Hf.
  pose proof (digits_plain h (proj2 Hh)) as Ph.
  pose proof (digits_plain m (proj2 Hm)) as Pm.
  pose proof (digits_plain ip (proj2 Hi)) as Pi.
  pose proof (digits_plain fp (proj2 Hf)) as Pf.
  assert (NS : forall s, every plain s = true ->
             every (fun c => negb (isWhiteSpace c)) s = true).
  { intro s. apply every_weaken. intros c Hc.
    destruct (plain_parts c Hc) as (Hw & _). rewrite Hw. reflexivity. }
  assert (Pdot : every plain (ip ++ "." ++ fp) = true)
    by (rewrite !every_app; cbn; rewrite Pi, Pf; reflexivity).
  assert (Ncomma : every (fun c => negb (isWhiteSpace c)) (ip ++ "," ++ fp)
                   = true)
    by (rewrite !every_app; cbn; rewrite (NS ip Pi), (NS fp Pf); reflexivity).
  assert (Scomma : forall l,
            match split ":" (ip ++ "," ++ fp) with
            | p :: ps => p :: ps | [] => l end = [ip ++ "," ++ fp]).
  { intro l. clear -Pi Pf. 
    assert (E : split ":" (ip ++ "," ++ fp) = [ip ++ "," ++ fp]).
    { induction ip as [|c a IH]; cbn.
      - rewrite (split_plain fp Pf). reflexivity.
      - cbn in Pi. apply andb_true_iff in Pi. destruct Pi as [H1 H2].
        destruct (plain_parts c H1) as (_ & Hc & _). rewrite Hc.
        cbn in IH. rewrite (IH H2). reflexivity. }
    rewrite E. reflexivity. }
  assert (Ecomma : split ":" (ip ++ "," ++ fp) = [ip ++ "," ++ fp])
    by (specialize (Scomma []); destruct (split ":" (ip ++ "," ++ fp));
        [discriminate Scomma|exact Scomma]).
  assert (NE : forall a b, isEmpty (a ++ ":" ++ b) = false)
    by (intros [|] b; reflexivity).
  assert (NEi : forall x, isEmpty (ip ++ x ++ fp) = false).
  { intro x. destruct ip as [|c a]; [destruct Hi; congruence|reflexivity]. }
  split; [|split].
  - unfold parseTimeInput.
    rewrite (trim_no_space _ Ncomma), (trim_no_space _ (NS _ Pdot)).
    rewrite !NEi, Ecomma, (split_plain _ Pdot).
    rewrite (replace_plain_comma ip fp Pi), (replace_plain _ Pdot).
    reflexivity.
  - unfold parseTimeInput. rewrite !trim_no_space.
    2:{ rewrite ?every_app; cbn; rewrite ?every_app; cbn;
        rewrite ?(NS h Ph), ?(NS m Pm), ?(NS ip Pi), ?(NS fp Pf);
        reflexivity. }
    2:{ rewrite ?every_app; cbn; rewrite ?every_app; cbn;
        rewrite ?(NS h Ph), ?(NS m Pm), ?(NS ip Pi), ?(NS fp Pf);
        reflexivity. }
    rewrite !NE, !(split_plain_colon m _ Pm), Ecomma, (split_plain _ Pdot).
    rewrite (replace_plain_comma ip fp Pi), (replace_plain _ Pdot).
    reflexivity.
  - unfold parseTimeInput. rewrite !trim_no_space.
    2:{ rewrite ?every_app; cbn; rewrite ?every_app; cbn;
        rewrite ?(NS h Ph), ?(NS m Pm), ?(NS ip Pi), ?(NS fp Pf);
        reflexivity. }
    2:{ rewrite ?every_app; cbn; rewrite ?every_app; cbn;
        rewrite ?(NS h Ph), ?(NS m Pm), ?(NS ip Pi), ?(NS fp Pf);
        reflexivity. }
    rewrite !NE, !(split_plain_colon h _ Ph), !(split_plain_colon m _ Pm),
      Ecomma, (split_plain _ Pdot).
    rewrite (replace_plain_comma ip fp Pi), (replace_plain _ Pdot).
    reflexivity.
Qed.

Lemma parseTimeInput_comma_is_point_witness :
  (digits "0" /\ digits "1" /\ digits "30" /\ digits "5") /\
  parseTimeInput ("1" ++ ":" ++ "30" ++ "," ++ "5")
    = parseTimeInput ("1" ++ ":" ++ "30" ++ "." ++ "5").
Proof.
  assert (H0 : digits "0") by (split; [discriminate|reflexivity]).
  assert (H1 : digits "1") by (split; [discriminate|reflexivity]).
  assert (H2 : digits "30") by (split; [discriminate|reflexivity]).
  assert (H3 : digits "5") by (split; [discriminate|reflexivity]).
  split; [exact (conj H0 (conj H1 (conj H2 H3)))|].
  exact (proj1 (proj2 (parseTimeInput_comma_is_point "0" "1" "30" "5"
                         H0 H1 H2 H3))).
Defined.

End TextFacts.
